(** * Test Case Generator: the validation, parsing and formatting layer

    A shallow embedding of [src/models.py], [src/test_case_generator.py] and
    the error handler of [main.py]'s [generate] command.

    Python values are modelled as the code handles them:
    - a [str] is the list of its Unicode code points ([N]), so that [len]
      is [length]; the texts are those UTF-8 can encode (an isolated
      surrogate code point is not told apart from any other code point);
    - an [int] is a [Z];
    - a raised exception is a value: a function that can raise returns a
      [result], and a [try]/[except] is a [match] on it;
    - the remote completion service, the one external effect of
      [generate_test_cases], is a function handed to it.

    The library calls the code relies on are embedded with it:
    [re.search] as a backtracking matcher, [json.loads] as the scanner of
    Python's [json.decoder], pydantic's model construction as lax-mode
    validation of the decoded value, and [model_dump_json(indent=2)] as the
    pretty printer of the model's fields. *)

From Stdlib Require Import String Ascii List NArith ZArith Bool Lia.
Import ListNotations.

Set Implicit Arguments.

(* ================================================================= *)
(** ** Python strings *)

Definition char := N.
Definition str := list char.

(** A literal of the source, given by its ASCII text. *)
Definition lit (s : string) : str := map N_of_ascii (list_ascii_of_string s).

(** A literal in which every apostrophe stands for a double quote (JSON
    texts are written this way below). *)
Definition qlit (s : string) : str :=
  map (fun c => if N.eqb c 39 then 34%N else c) (lit s).

Definition str_eqb (a b : str) : bool :=
  if list_eq_dec N.eq_dec a b then true else false.

(** [sep.join(parts)] *)
Fixpoint join (sep : str) (parts : list str) : str :=
  match parts with
  | [] => []
  | [p] => p
  | p :: ps => p ++ sep ++ join sep ps
  end.

(** [c * n] for a one-character string [c] *)
Definition times (c : char) (n : nat) : str := repeat c n.

(** [s.startswith(p)] *)
Fixpoint starts_with (p s : str) : bool :=
  match p, s with
  | [], _ => true
  | _ :: _, [] => false
  | a :: p', b :: s' => N.eqb a b && starts_with p' s'
  end.

(** [p in s] *)
Fixpoint contains (p s : str) : bool :=
  starts_with p s ||
  match s with
  | [] => false
  | _ :: s' => contains p s'
  end.

(** Decimal digits of a natural number, most significant first. *)
Fixpoint digits_fuel (fuel : nat) (n : N) (acc : str) : str :=
  match fuel with
  | O => acc
  | S fuel' =>
      let acc' := (48 + n mod 10)%N :: acc in
      if (n <? 10)%N then acc' else digits_fuel fuel' (n / 10)%N acc'
  end.

Definition digits (n : N) : str := digits_fuel (S (N.to_nat (N.log2 n))) n [].

(** [str(i)] for an [int] *)
Definition str_of_Z (z : Z) : str :=
  match z with
  | Zneg p => 45%N :: digits (Npos p)
  | _ => digits (Z.to_N z)
  end.

Definition str_of_nat (n : nat) : str := digits (N.of_nat n).

(** Whitespace as [str.isspace], [str.strip] and the regular expression
    class [\s] read it for a [str]. *)
Definition is_space (c : char) : bool :=
  ((9 <=? c) && (c <=? 13) || (28 <=? c) && (c <=? 32)
   || (c =? 133) || (c =? 160) || (c =? 5760)
   || (8192 <=? c) && (c <=? 8202)
   || (c =? 8232) || (c =? 8233) || (c =? 8239) || (c =? 8287)
   || (c =? 12288))%N.

Fixpoint lstrip (s : str) : str :=
  match s with
  | c :: s' => if is_space c then lstrip s' else s
  | [] => []
  end.

Definition rstrip (s : str) : str := rev (lstrip (rev s)).
Definition strip (s : str) : str := rstrip (lstrip s).

(* ================================================================= *)
(** ** Exceptions *)

(** The exception classes that occur; [OtherError] is any further class
    deriving from [Exception] directly (what the service client raises). *)
Inductive exn_class :=
| Exception
| ValueError
| TypeError
| JSONDecodeError
| ValidationError
| OtherError (name : str).

(** [issubclass(c, d)]: [json.JSONDecodeError] and pydantic's
    [ValidationError] derive from [ValueError]. *)
Definition issubclass (c d : exn_class) : bool :=
  match d, c with
  | Exception, _ => true
  | ValueError, (ValueError | JSONDecodeError | ValidationError) => true
  | TypeError, TypeError => true
  | JSONDecodeError, JSONDecodeError => true
  | ValidationError, ValidationError => true
  | OtherError n, OtherError m => str_eqb n m
  | _, _ => false
  end.

(** An exception object: its class and [str(e)]. *)
Record exn := mk_exn { exn_class_of : exn_class; exn_str : str }.

Inductive result (A : Type) :=
| Ok (a : A)
| Raise (e : exn).
Arguments Ok {A} a.
Arguments Raise {A} e.

Definition bind {A B} (r : result A) (k : A -> result B) : result B :=
  match r with
  | Ok a => k a
  | Raise e => Raise e
  end.

Notation "'let*' x ':=' r 'in' k" := (bind r (fun x => k))
  (at level 10, x pattern, r at level 100, k at level 200).

(** [try: r  except cls as e: raise h(e)]: an exception of class [cls] (or
    of a class deriving from it) is replaced, any other goes through. *)
Definition try_except {A} (r : result A) (cls : exn_class) (h : exn -> exn)
  : result A :=
  match r with
  | Ok a => Ok a
  | Raise e => if issubclass (exn_class_of e) cls then Raise (h e) else Raise e
  end.

(* ================================================================= *)
(** ** [re.search] for the fence pattern

    The pattern of [_parse_ai_response] uses three constructs: literal
    characters, the greedy [\s*], and the capturing lazy [(.*?)], which
    under [re.DOTALL] takes any character.  [rmatch] is the backtracking
    matcher for a sequence of them, anchored at the start of [s]; it yields
    the text of group 1. *)

Inductive re_item :=
| RLit (c : char)
| RSpaces
| RGroupLazyAny.

(** [\s*] followed by [rest]: greedy, it takes one more whitespace
    character first and gives it back when what follows fails. *)
Fixpoint spaces_then (rest : str -> option str) (s : str) : option str :=
  match s with
  | x :: s' =>
      if is_space x
      then match spaces_then rest s' with
           | Some g => Some g
           | None => rest s
           end
      else rest s
  | [] => rest s
  end.

(** The group [(.*?)] followed by [rest]: lazy, it tries what follows
    first and takes one more character when that fails; [taken] holds the
    characters of the group so far, last first. *)
Fixpoint lazy_then (rest : str -> str -> option str) (s taken : str)
  : option str :=
  match rest s (rev taken) with
  | Some g => Some g
  | None =>
      match s with
      | x :: s' => lazy_then rest s' (x :: taken)
      | [] => None
      end
  end.

Fixpoint rmatch (p : list re_item) (s : str) (group1 : str) {struct p}
  : option str :=
  match p with
  | [] => Some group1
  | RLit c :: p' =>
      match s with
      | x :: s' => if N.eqb x c then rmatch p' s' group1 else None
      | [] => None
      end
  | RSpaces :: p' => spaces_then (fun s' => rmatch p' s' group1) s
  | RGroupLazyAny :: p' => lazy_then (fun s' g => rmatch p' s' g) s []
  end.

(** [re.search(p, s)]: the first position where the pattern matches;
    the result is [m.group(1)]. *)
Fixpoint re_search (p : list re_item) (s : str) : option str :=
  match rmatch p s [] with
  | Some g => Some g
  | None =>
      match s with
      | [] => None
      | _ :: s' => re_search p s'
      end
  end.

Definition fence_open : str := lit "```json".
Definition fence_close : str := lit "```".

(** The pattern of [_parse_ai_response]: the opening fence with its [json]
    tag, [\s*], the lazy group, [\s*], the closing fence. *)
Definition fence_pattern : list re_item :=
  map RLit fence_open ++ [RSpaces; RGroupLazyAny; RSpaces] ++ map RLit fence_close.

(* ================================================================= *)
(** ** Python values and [json.loads] *)

(** A [float] is kept as the decimal it was read from: [float_dec neg m e]
    is the double nearest to [(-1)^neg * m * 10^e]. *)
Inductive pyfloat :=
| float_dec (negative : bool) (mantissa : N) (exp10 : Z)
| float_nan
| float_inf (negative : bool).

(** The values [json.loads] builds.  [VDict items] is [dict(items)]: a later
    pair overrides an earlier pair with the same key. *)
Unset Elimination Schemes.
Inductive value :=
| VNone
| VBool (b : bool)
| VInt (z : Z)
| VFloat (f : pyfloat)
| VStr (s : str)
| VList (l : list value)
| VDict (items : list (str * value)).
Set Elimination Schemes.

(** [d.get(key)] on [dict(items)] *)
Fixpoint dict_get (key : str) (items : list (str * value)) : option value :=
  match items with
  | [] => None
  | (k, v) :: rest =>
      match dict_get key rest with
      | Some v' => Some v'
      | None => if str_eqb k key then Some v else None
      end
  end.

(** The outcome of a scanning function on a suffix of the document: the
    value and the text after it; or [JSONDecodeError(msg, doc, pos)], the
    position given by the length of what follows it; or nesting deeper than
    the scanner was allowed to go. *)
Inductive scan (A : Type) :=
| Scanned (a : A) (rest : str)
| Fail (msg : str) (after : nat)
| TooDeep.
Arguments Scanned {A} a rest.
Arguments Fail {A} msg after.
Arguments TooDeep {A}.

Definition is_json_ws (c : char) : bool :=
  ((c =? 32) || (c =? 9) || (c =? 10) || (c =? 13))%N.

(** [WHITESPACE.match(s, end).end()] *)
Fixpoint skip_ws (s : str) : str :=
  match s with
  | c :: s' => if is_json_ws c then skip_ws s' else s
  | [] => []
  end.

Definition is_digit (c : char) : bool := ((48 <=? c) && (c <=? 57))%N.

Definition hex_digit (c : char) : option N :=
  if ((48 <=? c) && (c <=? 57))%N then Some (c - 48)%N
  else if ((97 <=? c) && (c <=? 102))%N then Some (c - 87)%N
  else if ((65 <=? c) && (c <=? 70))%N then Some (c - 55)%N
  else None.

(** [_decode_uXXXX]: the four hexadecimal digits after [\u]. *)
Definition decode_uXXXX (s : str) : option (N * str) :=
  match s with
  | a :: b :: c :: d :: s' =>
      match hex_digit a, hex_digit b, hex_digit c, hex_digit d with
      | Some x, Some y, Some z, Some w =>
          Some ((((x * 16 + y) * 16 + z) * 16 + w)%N, s')
      | _, _, _, _ => None
      end
  | _ => None
  end.

(** The [BACKSLASH] table. *)
Definition backslash (esc : char) : option char :=
  if (esc =? 34)%N then Some 34%N
  else if (esc =? 92)%N then Some 92%N
  else if (esc =? 47)%N then Some 47%N
  else if (esc =? 98)%N then Some 8%N
  else if (esc =? 102)%N then Some 12%N
  else if (esc =? 110)%N then Some 10%N
  else if (esc =? 114)%N then Some 13%N
  else if (esc =? 116)%N then Some 9%N
  else None.

(** [scanstring(s, end, strict=True)], [s] being the text after the opening
    quote and [begin] the length of the text from that quote on; [chunks]
    holds the characters read so far, last first.  Every round takes at
    least one character, so [length s] rounds are enough. *)
Fixpoint scanstring (rounds : nat) (begin : nat) (s : str) (chunks : str)
  : scan str :=
  match rounds, s with
  | _, [] => Fail (lit "Unterminated string starting at") begin
  | O, _ => TooDeep
  | S rounds', c :: s' =>
      if (c =? 34)%N then Scanned (rev chunks) s'
      else if (c =? 92)%N then
        match s' with
        | [] => Fail (lit "Unterminated string starting at") begin
        | esc :: s'' =>
            if (esc =? 117)%N then
              match decode_uXXXX s'' with
              | None => Fail (lit "Invalid \uXXXX escape") (length s')
              | Some (uni, s3) =>
                  let alone := scanstring rounds' begin s3 (uni :: chunks) in
                  if ((55296 <=? uni) && (uni <=? 56319))%N then
                    (* a high surrogate followed by [\u] and a low one *)
                    match s3 with
                    | b2 :: u2 :: s4 =>
                        if ((b2 =? 92) && (u2 =? 117))%N then
                          match decode_uXXXX s4 with
                          | None =>
                              Fail (lit "Invalid \uXXXX escape") (S (length s4))
                          | Some (uni2, s5) =>
                              if ((56320 <=? uni2) && (uni2 <=? 57343))%N
                              then scanstring rounds' begin s5
                                     ((65536 + ((uni - 55296) * 1024
                                                + (uni2 - 56320)))%N :: chunks)
                              else alone
                          end
                        else alone
                    | _ => alone
                    end
                  else alone
              end
            else
              match backslash esc with
              | Some ch => scanstring rounds' begin s'' (ch :: chunks)
              | None => Fail (lit "Invalid \escape") (length s)
              end
        end
      else if (c <? 32)%N then Fail (lit "Invalid control character at") (length s)
      else scanstring rounds' begin s' (c :: chunks)
  end.

(** The leading ASCII digits of [s] and what follows them. *)
Fixpoint span_digits (s : str) : str * str :=
  match s with
  | c :: s' =>
      if is_digit c then let (ds, r) := span_digits s' in (c :: ds, r)
      else ([], s)
  | [] => ([], [])
  end.

(** The number a run of ASCII digits writes, continuing from [acc]. *)
Fixpoint digits_value (ds : str) (acc : N) : N :=
  match ds with
  | [] => acc
  | c :: ds' => digits_value ds' (acc * 10 + (c - 48))%N
  end.

(** [NUMBER_RE.match]: an optional minus sign and an integer part ([0], or
    a digit from 1 to 9 and further digits); then, when present, a point and
    digits; then, when present, [e] or [E], an optional sign and digits.
    The scanner builds an [int] when there is neither a fraction nor an
    exponent, a [float] otherwise. *)
Definition match_unsigned (neg : bool) (s1 : str) : option (value * str) :=
  let integer :=
    match s1 with
    | c :: r =>
        if (c =? 48)%N then Some ([c], r)
        else if is_digit c then let (ds, r') := span_digits r in Some (c :: ds, r')
        else None
    | [] => None
    end in
  match integer with
  | None => None
  | Some (int_ds, s2) =>
      let (frac, s3) :=
        match s2 with
        | c :: r =>
            if (c =? 46)%N then
              match span_digits r with
              | ([], _) => (None, s2)
              | (ds, r') => (Some ds, r')
              end
            else (None, s2)
        | [] => (None, s2)
        end in
      let (exp, s4) :=
        match s3 with
        | c :: r =>
            if ((c =? 101) || (c =? 69))%N then
              let (eneg, r1) :=
                match r with
                | g :: r0 =>
                    if (g =? 45)%N then (true, r0)
                    else if (g =? 43)%N then (false, r0)
                    else (false, r)
                | [] => (false, r)
                end in
              match span_digits r1 with
              | ([], _) => (None, s3)
              | (ds, r') =>
                  let e := Z.of_N (digits_value ds 0) in
                  (Some (if eneg then (- e)%Z else e), r')
              end
            else (None, s3)
        | [] => (None, s3)
        end in
      match frac, exp with
      | None, None =>
          let n := Z.of_N (digits_value int_ds 0) in
          Some (VInt (if neg then (- n)%Z else n), s4)
      | _, _ =>
          let fr := match frac with Some ds => ds | None => [] end in
          let e := match exp with Some e => e | None => 0%Z end in
          Some (VFloat (float_dec neg (digits_value (int_ds ++ fr) 0)
                          (e - Z.of_nat (length fr))), s4)
      end
  end.

(** The optional minus sign of [NUMBER_RE], then the rest of the number. *)
Definition match_number (s : str) : option (value * str) :=
  match s with
  | c :: r => if (c =? 45)%N then match_unsigned true r else match_unsigned false s
  | [] => match_unsigned false s
  end.

(** The loop of [JSONObject], entered after the opening quote of a key. *)
Fixpoint object_items (scan_once : str -> scan value) (rounds : nat)
  (s : str) (pairs : list (str * value)) : scan value :=
  match rounds with
  | O => TooDeep
  | S rounds' =>
      match scanstring (length s) (S (length s)) s [] with
      | Fail msg after => Fail msg after
      | TooDeep => TooDeep
      | Scanned key s1 =>
          let s2 := match s1 with
                    | c :: _ => if (c =? 58)%N then s1 else skip_ws s1
                    | [] => s1
                    end in
          match s2 with
          | c :: s3 =>
              if (c =? 58)%N then
                match scan_once (skip_ws s3) with
                | Fail msg after => Fail msg after
                | TooDeep => TooDeep
                | Scanned v s5 =>
                    let pairs' := (key, v) :: pairs in
                    match skip_ws s5 with
                    | d :: r =>
                        if (d =? 125)%N then Scanned (VDict (rev pairs')) r
                        else if (d =? 44)%N then
                          match skip_ws r with
                          | q :: r2 =>
                              if (q =? 34)%N
                              then object_items scan_once rounds' r2 pairs'
                              else Fail (lit "Expecting property name enclosed in double quotes")
                                        (S (length r2))
                          | [] => Fail (lit "Expecting property name enclosed in double quotes") 0
                          end
                        else Fail (lit "Expecting ',' delimiter") (S (length r))
                    | [] => Fail (lit "Expecting ',' delimiter") 0
                    end
                end
              else Fail (lit "Expecting ':' delimiter") (length s2)
          | [] => Fail (lit "Expecting ':' delimiter") 0
          end
      end
  end.

(** [JSONObject((s, end), strict, scan_once, ...)], [s] being the text after
    the opening brace. *)
Definition JSONObject (scan_once : str -> scan value) (s : str) : scan value :=
  let s1 := match s with
            | c :: _ => if (c =? 34)%N then s else skip_ws s
            | [] => s
            end in
  match s1 with
  | c :: r =>
      if (c =? 34)%N then object_items scan_once (S (length r)) r []
      else if (c =? 125)%N then Scanned (VDict []) r
      else Fail (lit "Expecting property name enclosed in double quotes") (length s1)
  | [] => Fail (lit "Expecting property name enclosed in double quotes") 0
  end.

(** The loop of [JSONArray], entered at the first character of an item. *)
Fixpoint array_items (scan_once : str -> scan value) (rounds : nat)
  (s : str) (values : list value) : scan value :=
  match rounds with
  | O => TooDeep
  | S rounds' =>
      match scan_once s with
      | Fail msg after => Fail msg after
      | TooDeep => TooDeep
      | Scanned v s1 =>
          let values' := v :: values in
          match skip_ws s1 with
          | d :: r =>
              if (d =? 93)%N then Scanned (VList (rev values')) r
              else if (d =? 44)%N
              then array_items scan_once rounds' (skip_ws r) values'
              else Fail (lit "Expecting ',' delimiter") (S (length r))
          | [] => Fail (lit "Expecting ',' delimiter") 0
          end
      end
  end.

(** [JSONArray((s, end), scan_once)], [s] being the text after the opening
    bracket. *)
Definition JSONArray (scan_once : str -> scan value) (s : str) : scan value :=
  match skip_ws s with
  | c :: r =>
      if (c =? 93)%N then Scanned (VList []) r
      else array_items scan_once (S (length r)) (c :: r) []
  | [] => array_items scan_once 1 [] []
  end.

(** [scan_once(string, idx)]; a [StopIteration] is what every caller turns
    into [JSONDecodeError("Expecting value", ...)].  [depth] bounds the
    nesting of arrays and objects. *)
Fixpoint scan_once (depth : nat) (s : str) : scan value :=
  match depth with
  | O => TooDeep
  | S depth' =>
      match s with
      | [] => Fail (lit "Expecting value") 0
      | c :: s' =>
          if (c =? 34)%N then
            match scanstring (length s') (length s) s' [] with
            | Scanned x rest => Scanned (VStr x) rest
            | Fail msg after => Fail msg after
            | TooDeep => TooDeep
            end
          else if (c =? 123)%N then JSONObject (scan_once depth') s'
          else if (c =? 91)%N then JSONArray (scan_once depth') s'
          else if starts_with (lit "null") s then Scanned VNone (skipn 4 s)
          else if starts_with (lit "true") s then Scanned (VBool true) (skipn 4 s)
          else if starts_with (lit "false") s then Scanned (VBool false) (skipn 5 s)
          else
            match match_number s with
            | Some (v, rest) => Scanned v rest
            | None =>
                if starts_with (lit "NaN") s
                then Scanned (VFloat float_nan) (skipn 3 s)
                else if starts_with (lit "Infinity") s
                then Scanned (VFloat (float_inf false)) (skipn 8 s)
                else if starts_with (lit "-Infinity") s
                then Scanned (VFloat (float_inf true)) (skipn 9 s)
                else Fail (lit "Expecting value") (length s)
            end
      end
  end.

(** [doc.count('\n', 0, pos) + 1] and the column of [pos], for the first
    [pos] characters of the document. *)
Fixpoint line_col (prefix : str) (line col : nat) : nat * nat :=
  match prefix with
  | [] => (line, col)
  | c :: p' => if (c =? 10)%N then line_col p' (S line) 1 else line_col p' line (S col)
  end.

(** [JSONDecodeError(msg, doc, pos)]: its text is
    ["%s: line %d column %d (char %d)"]. *)
Definition json_decode_error (msg : str) (doc : str) (pos : nat) : exn :=
  let (line, col) := line_col (firstn pos doc) 1 1 in
  mk_exn JSONDecodeError
    (msg ++ lit ": line " ++ str_of_nat line ++ lit " column " ++ str_of_nat col
         ++ lit " (char " ++ str_of_nat pos ++ lit ")").

(** [json.loads(s)] for a [str]: [JSONDecoder.decode].  A nesting deeper
    than the interpreter's recursion limit raises [RecursionError] there;
    here the scanner may nest as deep as the document is long, which no
    document exceeds. *)
Definition json_loads (s : str) : result value :=
  if starts_with [65279%N] s
  then Raise (json_decode_error
                (lit "Unexpected UTF-8 BOM (decode using utf-8-sig)") s 0)
  else
    match scan_once (S (length s)) (skip_ws s) with
    | Scanned obj rest =>
        match skip_ws rest with
        | [] => Ok obj
        | (_ :: _) as r =>
            Raise (json_decode_error (lit "Extra data") s (length s - length r))
        end
    | Fail msg after => Raise (json_decode_error msg s (length s - after))
    | TooDeep =>
        Raise (mk_exn (OtherError (lit "RecursionError"))
                 (lit "maximum recursion depth exceeded"))
    end.

(* ================================================================= *)
(** ** The models of [models.py] *)

Record TestScenario := {
  scenario_id : str;
  title : str;
  description : str;
  preconditions : list str;
  test_steps : list str;
  expected_result : str;
  test_type : str;
  priority : str
}.

Record TestSuite := {
  user_story : str;
  test_scenarios : list TestScenario;
  coverage_areas : list str;
  total_scenarios : Z
}.

Record UserStoryInput := {
  story : str;
  acceptance_criteria : option (list str);
  story_type : option str
}.

(** [test_suite.total_scenarios = n] *)
Definition set_total_scenarios (t : TestSuite) (n : Z) : TestSuite :=
  {| user_story := user_story t;
     test_scenarios := test_scenarios t;
     coverage_areas := coverage_areas t;
     total_scenarios := n |}.

(* ----------------------------------------------------------------- *)
(** *** Construction: pydantic's validation of the keyword arguments

    Validation gathers every error before it raises.  An error has the
    place of the offending input, pydantic's name for the kind of error
    and its message. *)

Record verr := { verr_loc : list str; verr_type : str; verr_msg : str }.

Inductive checked (A : Type) :=
| Valid (a : A)
| Invalid (errors : list verr).
Arguments Valid {A} a.
Arguments Invalid {A} errors.

Definition ap {A B} (f : checked (A -> B)) (x : checked A) : checked B :=
  match f, x with
  | Valid g, Valid a => Valid (g a)
  | Valid _, Invalid e => Invalid e
  | Invalid e, Valid _ => Invalid e
  | Invalid e1, Invalid e2 => Invalid (e1 ++ e2)
  end.

Notation "f <*> x" := (ap f x) (at level 50, left associativity).

Definition wrong (type msg : string) {A} : checked A :=
  Invalid [{| verr_loc := []; verr_type := lit type; verr_msg := lit msg |}].

(** The errors of a field or list item, placed under its name or index. *)
Definition under {A} (name : str) (c : checked A) : checked A :=
  match c with
  | Valid a => Valid a
  | Invalid errs =>
      Invalid (map (fun e => {| verr_loc := name :: verr_loc e;
                                verr_type := verr_type e;
                                verr_msg := verr_msg e |}) errs)
  end.

(** [str] in lax mode: a [str] and nothing else a JSON document holds. *)
Definition check_str (v : value) : checked str :=
  match v with
  | VStr s => Valid s
  | _ => wrong "string_type" "Input should be a valid string"
  end.

(** The double nearest to [m * 10^e10] (round half to even, binary64), as
    [Some (f, k)] for [f * 2^k], or [None] when it overflows to infinity. *)
Definition double_of_decimal (m : N) (e10 : Z) : option (Z * Z) :=
  if (m =? 0)%N then Some (0, 0)%Z
  else
    let n := (Z.of_N m * 10 ^ Z.max e10 0)%Z in
    let d := (10 ^ Z.max (- e10) 0)%Z in
    let e0 := (Z.log2 n - Z.log2 d)%Z in
    (* e = floor(log2(n/d)) *)
    let e := (if (n * 2 ^ Z.max (- e0) 0 <? d * 2 ^ Z.max e0 0)
              then e0 - 1 else e0)%Z in
    let k := Z.max (e - 52) (-1074) in
    let num := (n * 2 ^ Z.max (- k) 0)%Z in
    let den := (d * 2 ^ Z.max k 0)%Z in
    let q := (num / den)%Z in
    let r := (num mod den)%Z in
    let f := (if (den <? 2 * r) || ((2 * r =? den) && Z.odd q)
              then q + 1 else q)%Z in
    (* f * 2^k < 2^1024 *)
    if (f * 2 ^ (k + 1074) <? 2 ^ 2098)%Z then Some (f, k) else None.

(** [float_as_int]: a finite float with no fractional part, strictly
    between [i64::MIN] and [i64::MAX] as floats. *)
Definition float_as_int (x : pyfloat) : checked Z :=
  match x with
  | float_nan | float_inf _ =>
      wrong "finite_number" "Input should be a finite number"
  | float_dec neg m e10 =>
      match double_of_decimal m e10 with
      | None => wrong "finite_number" "Input should be a finite number"
      | Some (f, k) =>
          let whole := (if 0 <=? k then Some (f * 2 ^ k)
                        else if f mod 2 ^ (- k) =? 0 then Some (f / 2 ^ (- k))
                        else None)%Z in
          match whole with
          | None =>
              wrong "int_from_float"
                "Input should be a valid integer, got a number with a fractional part"
          | Some a =>
              if (a <? 2 ^ 63)%Z then Valid (if neg then (- a)%Z else a)
              else wrong "int_parsing_size"
                     "Unable to parse input string as an integer, exceeded maximum size"
          end
      end
  end.

(** A run of ASCII digits in which single underscores may stand between
    digits; the digits without the underscores, and what follows the run. *)
Fixpoint span_digits_underscore (s : str) : str * str :=
  match s with
  | c :: s' =>
      if is_digit c then
        match s' with
        | u :: s'' =>
            if (u =? 95)%N then
              match s'' with
              | c2 :: _ =>
                  if is_digit c2
                  then let (ds, r) := span_digits_underscore s'' in (c :: ds, r)
                  else ([c], s')
              | [] => ([c], s')
              end
            else let (ds, r) := span_digits_underscore s' in (c :: ds, r)
        | [] => ([c], [])
        end
      else ([], s)
  | [] => ([], [])
  end.

Definition split_sign (s : str) : bool * str :=
  match s with
  | c :: r => if (c =? 45)%N then (true, r)
              else if (c =? 43)%N then (false, r) else (false, s)
  | [] => (false, s)
  end.

(** The integer a text writes: blanks around it, a sign, decimal digits
    (ASCII) with single underscores between them. *)
Definition int_of_text (s : str) : option Z :=
  let (neg, s1) := split_sign (strip s) in
  match span_digits_underscore s1 with
  | ((_ :: _) as ds, []) =>
      let n := Z.of_N (digits_value ds 0) in
      Some (if neg then (- n)%Z else n)
  | _ => None
  end.

(** [str_as_int]: the text of an integer, which may end in a point and
    zeros. *)
Definition str_as_int (s : str) : checked Z :=
  let (neg, s1) := split_sign (strip s) in
  let (ds, r) := span_digits_underscore s1 in
  let zeros_only :=
    match r with
    | [] => true
    | c :: r' => (c =? 46)%N && forallb (fun z => (z =? 48)%N) r'
    end in
  match ds with
  | _ :: _ =>
      if zeros_only
      then let n := Z.of_N (digits_value ds 0) in
           Valid (if neg then (- n)%Z else n)
      else wrong "int_parsing"
             "Input should be a valid integer, unable to parse string as an integer"
  | [] => wrong "int_parsing"
            "Input should be a valid integer, unable to parse string as an integer"
  end.

(** [int] in lax mode. *)
Definition check_int (v : value) : checked Z :=
  match v with
  | VInt z => Valid z
  | VBool b => Valid (if b then 1 else 0)%Z
  | VFloat x => float_as_int x
  | VStr s => str_as_int s
  | _ => wrong "int_type" "Input should be a valid integer"
  end.

(** The items of a list from position [i] on, each under its index. *)
Fixpoint check_items {A} (item : value -> checked A) (i : nat)
  (l : list value) : checked (list A) :=
  match l with
  | [] => Valid []
  | v :: l' =>
      Valid cons <*> under (str_of_nat i) (item v) <*> check_items item (S i) l'
  end.

(** [List[A]] in lax mode: of what a JSON document holds, a list. *)
Definition check_list {A} (item : value -> checked A) (v : value)
  : checked (list A) :=
  match v with
  | VList l => check_items item 0 l
  | _ => wrong "list_type" "Input should be a valid list"
  end.

(** A required field. *)
Definition field {A} (name : string) (check : value -> checked A)
  (data : list (str * value)) : checked A :=
  match dict_get (lit name) data with
  | Some v => under (lit name) (check v)
  | None => under (lit name) (wrong "missing" "Field required")
  end.

(** A field with a default. *)
Definition field_default {A} (name : string) (check : value -> checked A)
  (default : A) (data : list (str * value)) : checked A :=
  match dict_get (lit name) data with
  | Some v => under (lit name) (check v)
  | None => Valid default
  end.

(** [Optional[A]] *)
Definition check_optional {A} (check : value -> checked A) (v : value)
  : checked (option A) :=
  match v with
  | VNone => Valid None
  | _ => match check v with
         | Valid a => Valid (Some a)
         | Invalid e => Invalid e
         end
  end.

(** [str] with [min_length]. *)
Definition check_str_min_length (n : nat) (v : value) : checked str :=
  match check_str v with
  | Valid s =>
      if length s <? n
      then Invalid [{| verr_loc := [];
                       verr_type := lit "string_too_short";
                       verr_msg := lit "String should have at least "
                                     ++ str_of_nat n ++ lit " characters" |}]
      else Valid s
  | Invalid e => Invalid e
  end.

Definition TestScenario_fields (data : list (str * value)) : checked TestScenario :=
  Valid Build_TestScenario
    <*> field "scenario_id" check_str data
    <*> field "title" check_str data
    <*> field "description" check_str data
    <*> field "preconditions" (check_list check_str) data
    <*> field "test_steps" (check_list check_str) data
    <*> field "expected_result" check_str data
    <*> field "test_type" check_str data
    <*> field "priority" check_str data.

(** A [TestScenario] met inside other data: a dictionary of its fields. *)
Definition check_TestScenario (v : value) : checked TestScenario :=
  match v with
  | VDict data => TestScenario_fields data
  | _ => wrong "model_type"
           "Input should be a valid dictionary or instance of TestScenario"
  end.

Definition TestSuite_fields (data : list (str * value)) : checked TestSuite :=
  Valid Build_TestSuite
    <*> field "user_story" check_str data
    <*> field "test_scenarios" (check_list check_TestScenario) data
    <*> field "coverage_areas" (check_list check_str) data
    <*> field "total_scenarios" check_int data.

Definition UserStoryInput_fields (data : list (str * value)) : checked UserStoryInput :=
  Valid Build_UserStoryInput
    <*> field "story" (check_str_min_length 10) data
    <*> field_default "acceptance_criteria"
          (check_optional (check_list check_str)) None data
    <*> field_default "story_type" (check_optional check_str)
          (Some (lit "feature")) data.

(** The text of a [ValidationError]: the count, the model, and per error its
    place and message.  (pydantic also echoes the input and adds a link to
    its documentation on each entry; those are left out.) *)
Definition validation_error (model : string) (errs : list verr) : exn :=
  mk_exn ValidationError
    (str_of_nat (length errs) ++ lit " validation error"
       ++ (if length errs =? 1 then [] else lit "s")
       ++ lit " for " ++ lit model
       ++ concat (map (fun e =>
                         [10%N] ++ join (lit ".") (verr_loc e)
                           ++ [10%N] ++ lit "  " ++ verr_msg e
                           ++ lit " [type=" ++ verr_type e ++ lit "]")
                      errs)).

Definition construct {A} (model : string) (c : checked A) : result A :=
  match c with
  | Valid a => Ok a
  | Invalid errs => Raise (validation_error model errs)
  end.

(** [type(v).__name__] *)
Definition type_name (v : value) : str :=
  match v with
  | VNone => lit "NoneType"
  | VBool _ => lit "bool"
  | VInt _ => lit "int"
  | VFloat _ => lit "float"
  | VStr _ => lit "str"
  | VList _ => lit "list"
  | VDict _ => lit "dict"
  end.

(** The keyword arguments a call with [**v] passes: those [v] unpacks
    to; anything but a dictionary is a [TypeError]. *)
Definition unpack_kwargs (model : string) (v : value)
  : result (list (str * value)) :=
  match v with
  | VDict data => Ok data
  | _ => Raise (mk_exn TypeError
                  (lit model ++ lit "() argument after ** must be a mapping, not "
                     ++ type_name v))
  end.

(** The constructors [TestSuite] and [UserStoryInput], called with the
    keyword arguments [data]. *)
Definition TestSuite_new (data : list (str * value)) : result TestSuite :=
  construct "TestSuite" (TestSuite_fields data).

Definition UserStoryInput_new (data : list (str * value)) : result UserStoryInput :=
  construct "UserStoryInput" (UserStoryInput_fields data).

(* ----------------------------------------------------------------- *)
(** *** Serialization: [model_dump] and [model_dump_json] *)

Definition dump_TestScenario (t : TestScenario) : value :=
  VDict [ (lit "scenario_id", VStr (scenario_id t));
          (lit "title", VStr (title t));
          (lit "description", VStr (description t));
          (lit "preconditions", VList (map VStr (preconditions t)));
          (lit "test_steps", VList (map VStr (test_steps t)));
          (lit "expected_result", VStr (expected_result t));
          (lit "test_type", VStr (test_type t));
          (lit "priority", VStr (priority t)) ].

(** [test_suite.model_dump()]: the fields in the order they are declared. *)
Definition model_dump (t : TestSuite) : value :=
  VDict [ (lit "user_story", VStr (user_story t));
          (lit "test_scenarios", VList (map dump_TestScenario (test_scenarios t)));
          (lit "coverage_areas", VList (map VStr (coverage_areas t)));
          (lit "total_scenarios", VInt (total_scenarios t)) ].

Definition nl : str := [10%N].

Definition hex_char (n : N) : char := (if n <? 10 then 48 + n else 87 + n)%N.

(** A character inside a JSON string: the quote, the backslash and the
    control characters are escaped, everything else is written as it is. *)
Definition escape_char (c : char) : str :=
  (if c =? 34 then [92; 34]
   else if c =? 92 then [92; 92]
   else if c =? 8 then [92; 98]
   else if c =? 12 then [92; 102]
   else if c =? 10 then [92; 110]
   else if c =? 13 then [92; 114]
   else if c =? 9 then [92; 116]
   else if c <? 32 then [92; 117; 48; 48; hex_char (c / 16); hex_char (c mod 16)]
   else [c])%N.

Definition write_str (s : str) : str := [34%N] ++ flat_map escape_char s ++ [34%N].

(** No field of the models holds a [float]; one is written as a JSON
    number with the same value, the values that are not numbers as [null]. *)
Definition write_float (x : pyfloat) : str :=
  match x with
  | float_dec neg m e =>
      (if neg then [45%N] else []) ++ digits m ++ [101%N] ++ str_of_Z e
  | _ => lit "null"
  end.

(** The pretty printer behind [model_dump_json(indent=w)]: every item of
    a non-empty array or object on a line of its own, [w] spaces deeper than
    the bracket that opens it. *)
Fixpoint write_value (w : nat) (level : nat) (v : value) : str :=
  let pad := times 32%N (w * S level) in
  match v with
  | VNone => lit "null"
  | VBool b => if b then lit "true" else lit "false"
  | VInt z => str_of_Z z
  | VFloat x => write_float x
  | VStr s => write_str s
  | VList [] => lit "[]"
  | VList (x :: l) =>
      lit "[" ++ nl ++ pad ++ write_value w (S level) x
        ++ concat (map (fun y => lit "," ++ nl ++ pad ++ write_value w (S level) y) l)
        ++ nl ++ times 32%N (w * level) ++ lit "]"
  | VDict [] => lit "{}"
  | VDict ((k, x) :: l) =>
      lit "{" ++ nl ++ pad ++ write_str k ++ lit ": " ++ write_value w (S level) x
        ++ concat (map (fun item =>
                          lit "," ++ nl ++ pad ++ write_str (fst item) ++ lit ": "
                            ++ write_value w (S level) (snd item)) l)
        ++ nl ++ times 32%N (w * level) ++ lit "}"
  end.

(** [test_suite.model_dump_json(indent=indent)] *)
Definition model_dump_json (indent : nat) (t : TestSuite) : str :=
  write_value indent 0 (model_dump t).

(* ================================================================= *)
(** ** [float] and [int] of a text, and the environment *)

(** [repr(s)] for a text of printable characters with no quote and no
    backslash in it. *)
Definition repr (s : str) : str := [39%N] ++ s ++ [39%N].

Definition lower (c : char) : char :=
  (if (65 <=? c) && (c <=? 90) then c + 32 else c)%N.

(** [float(s)]: blanks around it, a sign, then [inf], [infinity] or [nan]
    in any case, or decimal digits with a point and an exponent (digits
    are ASCII, single underscores may stand between them). *)
Definition py_float (s : str) : result pyfloat :=
  let bad := Raise (mk_exn ValueError
                      (lit "could not convert string to float: " ++ repr s)) in
  let (neg, s1) := split_sign (strip s) in
  let low := map lower s1 in
  if str_eqb low (lit "inf") || str_eqb low (lit "infinity") then Ok (float_inf neg)
  else if str_eqb low (lit "nan") then Ok float_nan
  else
    let (ip, r1) := span_digits_underscore s1 in
    let (fp, r2) :=
      match r1 with
      | c :: r => if (c =? 46)%N then span_digits_underscore r else ([], r1)
      | [] => ([], r1)
      end in
    match ip ++ fp with
    | [] => bad
    | (_ :: _) as ds =>
        let m := digits_value ds 0 in
        let scale := Z.of_nat (length fp) in
        match r2 with
        | [] => Ok (float_dec neg m (- scale))
        | c :: r =>
            if ((c =? 101) || (c =? 69))%N then
              let (eneg, r3) := split_sign r in
              match span_digits_underscore r3 with
              | ((_ :: _) as es, []) =>
                  let e := Z.of_N (digits_value es 0) in
                  Ok (float_dec neg m ((if eneg then - e else e) - scale))
              | _ => bad
              end
            else bad
        end
    end.

(** [int(s)] *)
Definition py_int (s : str) : result Z :=
  match int_of_text s with
  | Some z => Ok z
  | None => Raise (mk_exn ValueError
                     (lit "invalid literal for int() with base 10: " ++ repr s))
  end.

(** The process environment once [load_dotenv()] has run. *)
Definition environ := str -> option str.

(** [os.getenv(name, default)] *)
Definition getenv (env : environ) (name default : string) : str :=
  match env (lit name) with
  | Some v => v
  | None => lit default
  end.

(* ================================================================= *)
(** ** [TestCaseGenerator] *)

Inductive message :=
| SystemMessage (content : str)
| HumanMessage (content : str).

(** The client object: the settings it was built with. *)
Record ChatOpenAI := {
  llm_model : str;
  llm_temperature : pyfloat;
  llm_max_tokens : Z;
  openai_api_key : str
}.

Record TestCaseGenerator := {
  api_key : str;
  model_name : str;
  temperature : pyfloat;
  max_tokens : Z;
  llm : ChatOpenAI
}.

(** [TestCaseGenerator()]: the key is looked up first; the settings are
    read with their defaults and converted; the client is built from them
    (building it stores the settings and calls nothing; the output parser,
    built last from the [TestSuite] class, is represented by the text of its
    format instructions where the prompt uses it). *)
Definition __init__ (env : environ) : result TestCaseGenerator :=
  match env (lit "OPENAI_API_KEY") with
  | None | Some [] =>
      Raise (mk_exn ValueError (lit "OPENAI_API_KEY not found in environment variables"))
  | Some key =>
      let model_name := getenv env "MODEL_NAME" "gpt-3.5-turbo" in
      let* temperature := py_float (getenv env "TEMPERATURE" "0.3") in
      let* max_tokens := py_int (getenv env "MAX_TOKENS" "2000") in
      Ok {| api_key := key;
            model_name := model_name;
            temperature := temperature;
            max_tokens := max_tokens;
            llm := {| llm_model := model_name;
                      llm_temperature := temperature;
                      llm_max_tokens := max_tokens;
                      openai_api_key := key |} |}
  end.

(** The criteria as the keyword argument they are passed as. *)
Definition criteria_value (acceptance_criteria : option (list str)) : value :=
  match acceptance_criteria with
  | None => VNone
  | Some l => VList (map VStr l)
  end.

(** A [try] with its [except] clauses in order: the first clause whose
    class the exception belongs to handles it. *)
Fixpoint try_ {A} (r : result A) (clauses : list (exn_class * (exn -> result A)))
  : result A :=
  match r with
  | Ok a => Ok a
  | Raise e =>
      match clauses with
      | [] => Raise e
      | (cls, handler) :: rest =>
          if issubclass (exn_class_of e) cls then handler e
          else try_ (Raise e) rest
      end
  end.

Definition validate_user_story (user_story : str)
  (acceptance_criteria : option (list str)) : result UserStoryInput :=
  try_ (UserStoryInput_new
          [ (lit "story", VStr user_story);
            (lit "acceptance_criteria", criteria_value acceptance_criteria) ])
    [ (Exception, fun e =>
         Raise (mk_exn ValueError (lit "Invalid user story input: " ++ exn_str e))) ].

Definition _create_system_prompt : str :=
  lit "You are an expert QA engineer and test case generator. Your task is to analyze user stories and generate comprehensive test scenarios.

For each user story, you should:
1. Identify all testable aspects and edge cases
2. Create positive, negative, and boundary test scenarios
3. Include proper test steps, preconditions, and expected results
4. Prioritize tests based on risk and importance
5. Ensure good test coverage

Generate test scenarios that cover:
- Happy path scenarios (positive testing)
- Error scenarios (negative testing)
- Boundary conditions and edge cases
- Integration points
- User experience aspects
- Performance considerations (when relevant)
- Security aspects (when relevant)

Each test scenario should be:
- Clear and unambiguous
- Executable by any QA tester
- Include specific steps and expected outcomes
- Properly categorized by type and priority".

(** [format_instructions] is the text of
    [self.output_parser.get_format_instructions()]. *)
Definition _create_user_prompt (format_instructions : str)
  (validated_input : UserStoryInput) : str :=
  let prompt :=
    lit "Please generate comprehensive test scenarios for the following user story:"
      ++ nl ++ nl ++ lit "**User Story:** " ++ story validated_input ++ nl in
  let prompt :=
    match acceptance_criteria validated_input with
    | Some ((_ :: _) as criteria) =>
        prompt ++ nl ++ lit "**Acceptance Criteria:**" ++ nl
          ++ join nl (map (fun c => lit "- " ++ c) criteria) ++ nl
    | _ => prompt
    end in
  prompt ++ nl
    ++ lit "Please provide a complete test suite in the following JSON format:" ++ nl
    ++ format_instructions ++ nl ++ nl
    ++ lit "Generate 5-8 diverse test scenarios covering different testing aspects (positive, negative, edge cases, etc.)."
    ++ nl
    ++ lit "Make sure each scenario has a unique ID, clear steps, and specific expected results.".

Definition _parse_ai_response (response_text : str) : result TestSuite :=
  try_
    (let json_text :=
       match re_search fence_pattern response_text with
       | Some group1 => group1
       | None => response_text
       end in
     let* parsed_data := json_loads json_text in
     let* kwargs := unpack_kwargs "TestSuite" parsed_data in
     TestSuite_new kwargs)
    [ (JSONDecodeError, fun e =>
         Raise (mk_exn ValueError
                  (lit "Failed to parse AI response as JSON: " ++ exn_str e)));
      (Exception, fun e =>
         Raise (mk_exn ValueError
                  (lit "Failed to create TestSuite object: " ++ exn_str e))) ].

Section Service.

(** The remote completion service behind [self.llm.invoke(messages)]: the
    content of its reply, or the exception the client raises. *)
Variable invoke : ChatOpenAI -> list message -> result str.

(** The text of [self.output_parser.get_format_instructions()]. *)
Variable format_instructions : str.

Definition generate_test_cases (self : TestCaseGenerator) (user_story : str)
  (acceptance_criteria : option (list str)) : result TestSuite :=
  try_
    (let* validated_input := validate_user_story user_story acceptance_criteria in
     let system_prompt := _create_system_prompt in
     let user_prompt := _create_user_prompt format_instructions validated_input in
     let messages := [SystemMessage system_prompt; HumanMessage user_prompt] in
     let* response := invoke (llm self) messages in
     let* test_suite := _parse_ai_response response in
     let test_suite :=
       set_total_scenarios test_suite (Z.of_nat (length (test_scenarios test_suite))) in
     Ok test_suite)
    [ (Exception, fun e =>
         Raise (mk_exn Exception (lit "Failed to generate test cases: " ++ exn_str e))) ].

End Service.

(** [enumerate(l, start)] *)
Fixpoint enumerate {A} (l : list A) (start : nat) : list (nat * A) :=
  match l with
  | [] => []
  | x :: l' => (start, x) :: enumerate l' (S start)
  end.

(** The lines [_format_console] appends for one scenario. *)
Definition console_scenario (i : nat) (scenario : TestScenario) : list str :=
  [ nl ++ lit "TEST SCENARIO " ++ str_of_nat i ++ lit ": " ++ scenario_id scenario;
    times 45%N 40;
    lit "Title: " ++ title scenario;
    lit "Type: " ++ test_type scenario;
    lit "Priority: " ++ priority scenario;
    nl ++ lit "Description: " ++ description scenario;
    nl ++ lit "Preconditions:" ]
  ++ map (fun precond => lit "  " ++ [8226%N] ++ lit " " ++ precond)
       (preconditions scenario)
  ++ [ nl ++ lit "Test Steps:" ]
  ++ map (fun '(step_num, step) => lit "  " ++ str_of_nat step_num ++ lit ". " ++ step)
       (enumerate (test_steps scenario) 1)
  ++ [ nl ++ lit "Expected Result: " ++ expected_result scenario;
       times 45%N 40 ].

Definition _format_console (test_suite : TestSuite) : str :=
  let output :=
    [ times 61%N 80;
      lit "TEST CASE GENERATOR RESULTS";
      times 61%N 80;
      nl ++ lit "User Story: " ++ user_story test_suite;
      lit "Total Test Scenarios: " ++ str_of_Z (total_scenarios test_suite);
      lit "Coverage Areas: " ++ join (lit ", ") (coverage_areas test_suite);
      nl ++ times 61%N 80 ]
    ++ flat_map (fun '(i, scenario) => console_scenario i scenario)
         (enumerate (test_scenarios test_suite) 1) in
  join nl output.

(** The lines [_format_markdown] appends for one scenario. *)
Definition markdown_scenario (i : nat) (scenario : TestScenario) : list str :=
  [ nl ++ lit "## Test Scenario " ++ str_of_nat i ++ lit ": " ++ scenario_id scenario;
    lit "**Title:** " ++ title scenario;
    lit "**Type:** " ++ test_type scenario;
    lit "**Priority:** " ++ priority scenario;
    nl ++ lit "**Description:** " ++ description scenario;
    nl ++ lit "**Preconditions:**" ]
  ++ map (fun precond => lit "- " ++ precond) (preconditions scenario)
  ++ [ nl ++ lit "**Test Steps:**" ]
  ++ map (fun '(step_num, step) => str_of_nat step_num ++ lit ". " ++ step)
       (enumerate (test_steps scenario) 1)
  ++ [ nl ++ lit "**Expected Result:** " ++ expected_result scenario ].

Definition _format_markdown (test_suite : TestSuite) : str :=
  let output :=
    [ lit "# Test Case Generator Results";
      nl ++ lit "**User Story:** " ++ user_story test_suite;
      lit "**Total Test Scenarios:** " ++ str_of_Z (total_scenarios test_suite);
      lit "**Coverage Areas:** " ++ join (lit ", ") (coverage_areas test_suite) ]
    ++ flat_map (fun '(i, scenario) => markdown_scenario i scenario)
         (enumerate (test_scenarios test_suite) 1) in
  join nl output.

Definition format_output (test_suite : TestSuite) (output_format : str) : str :=
  if str_eqb output_format (lit "json") then model_dump_json 2 test_suite
  else if str_eqb output_format (lit "markdown") then _format_markdown test_suite
  else _format_console test_suite.

(* ================================================================= *)
(** ** The [generate] command of [main.py]

    With [verbose] off and no [save] file: what the command echoes, to
    standard output or to standard error with the exit status. *)

Inductive outcome :=
| Echo (text : str)
| EchoErr (text : str) (exit_status : Z).

Section Command.

Variable invoke : ChatOpenAI -> list message -> result str.
Variable format_instructions : str.
Variable env : environ.

Definition generate (story : str) (criteria : list str) (output : str) : outcome :=
  let run :=
    let* generator := __init__ env in
    let acceptance_criteria :=
      match criteria with
      | [] => None
      | _ :: _ => Some criteria
      end in
    let* test_suite :=
      generate_test_cases invoke format_instructions generator story
        acceptance_criteria in
    Ok (format_output test_suite output) in
  match run with
  | Ok formatted_output => Echo formatted_output
  | Raise e =>
      if issubclass (exn_class_of e) ValueError
      then EchoErr ([10060%N] ++ lit " Validation Error: " ++ exn_str e) 1
      else EchoErr ([10060%N] ++ lit " Error: " ++ exn_str e) 1
  end.

End Command.

(* ================================================================= *)
(** ** [json.dumps] with an [indent], as the [batch] command calls it *)

(** ['{0:04x}'.format(n)] for [n] below 65536: four hexadecimal digits in
    lower case. *)
Definition hex4 (n : N) : str :=
  [ hex_char (n / 4096); hex_char ((n / 256) mod 16);
    hex_char ((n / 16) mod 16); hex_char (n mod 16) ]%N.

(** What [encode_basestring_ascii] writes for one character: the
    characters from the space to the tilde stand for themselves, the quote
    and the backslash apart; the others are escaped, those beyond the basic
    plane as a pair of surrogates. *)
Definition encode_char_ascii (c : char) : str :=
  (if c =? 34 then [92; 34]
   else if c =? 92 then [92; 92]
   else if (32 <=? c) && (c <=? 126) then [c]
   else if c =? 8 then [92; 98]
   else if c =? 12 then [92; 102]
   else if c =? 10 then [92; 110]
   else if c =? 13 then [92; 114]
   else if c =? 9 then [92; 116]
   else if c <? 65536 then [92; 117] ++ hex4 c
   else
     let n := c - 65536 in
     let s1 := N.lor 55296 (N.land (N.shiftr n 10) 1023) in
     let s2 := N.lor 56320 (N.land n 1023) in
     [92; 117] ++ hex4 s1 ++ [92; 117] ++ hex4 s2)%N.

Definition encode_basestring_ascii (s : str) : str :=
  [34%N] ++ flat_map encode_char_ascii s ++ [34%N].

(** [float.__repr__] for the values that are no numbers; no field of the
    models holds a [float], and a finite one is written here as
    [write_float] writes it, a number with the same value. *)
Definition float_repr (x : pyfloat) : str :=
  match x with
  | float_nan => lit "NaN"
  | float_inf false => lit "Infinity"
  | float_inf true => lit "-Infinity"
  | float_dec _ _ _ => write_float x
  end.

(** [_iterencode(o, level)] with [_indent = ' ' * indent], the item
    separator [','] and the key separator [': ']. *)
Fixpoint iterencode (indent : nat) (level : nat) (o : value) : str :=
  let newline_indent := nl ++ times 32%N (indent * S level) in
  match o with
  | VStr s => encode_basestring_ascii s
  | VNone => lit "null"
  | VBool b => if b then lit "true" else lit "false"
  | VInt z => str_of_Z z
  | VFloat x => float_repr x
  | VList [] => lit "[]"
  | VList (x :: l) =>
      lit "[" ++ newline_indent ++ iterencode indent (S level) x
        ++ concat (map (fun y => lit "," ++ newline_indent
                                   ++ iterencode indent (S level) y) l)
        ++ nl ++ times 32%N (indent * level) ++ lit "]"
  | VDict [] => lit "{}"
  | VDict ((k, x) :: l) =>
      lit "{" ++ newline_indent ++ encode_basestring_ascii k ++ lit ": "
        ++ iterencode indent (S level) x
        ++ concat (map (fun item =>
                          lit "," ++ newline_indent
                            ++ encode_basestring_ascii (fst item) ++ lit ": "
                            ++ iterencode indent (S level) (snd item)) l)
        ++ nl ++ times 32%N (indent * level) ++ lit "}"
  end.

(** [json.dumps(obj, indent=indent)] *)
Definition json_dumps (indent : nat) (obj : value) : str := iterencode indent 0 obj.

(* ================================================================= *)
(** ** The [demo], [setup] and [batch] commands of [main.py]

    The run of a command is what it echoes, in order; an [EchoErr] is its
    last line, echoed before [sys.exit]. *)




(** [validate_user_story] on whatever it is given: [batch] hands it the
    values of the input file, which need not be a [str] and a list. *)
Definition validate_user_story_value (user_story acceptance_criteria : value)
  : result UserStoryInput :=
  try_ (UserStoryInput_new
          [ (lit "story", user_story);
            (lit "acceptance_criteria", acceptance_criteria) ])
    [ (Exception, fun e =>
         Raise (mk_exn ValueError (lit "Invalid user story input: " ++ exn_str e))) ].

(** What the loop of [batch] makes of one entry of the file: the story and
    the criteria it passes on.  An entry that is neither a [str] nor a
    [dict] has no [get]. *)
Definition story_and_criteria (story_data : value) : result (value * value) :=
  match story_data with
  | VStr _ => Ok (story_data, VNone)
  | VDict items =>
      Ok (match dict_get (lit "story") items with
          | Some v => v
          | None => VStr []
          end,
          match dict_get (lit "criteria") items with
          | Some v => v
          | None => VNone
          end)
  | _ =>
      Raise (mk_exn (OtherError (lit "AttributeError"))
               (lit "'" ++ type_name story_data
                  ++ lit "' object has no attribute 'get'"))
  end.

Section Commands.

Variable invoke : ChatOpenAI -> list message -> result str.
Variable format_instructions : str.
Variable env : environ.

(** [generate_test_cases] on whatever it is given. *)
Definition generate_test_cases_value (self : TestCaseGenerator)
  (user_story acceptance_criteria : value) : result TestSuite :=
  try_
    (let* validated_input :=
       validate_user_story_value user_story acceptance_criteria in
     let system_prompt := _create_system_prompt in
     let user_prompt := _create_user_prompt format_instructions validated_input in
     let messages := [SystemMessage system_prompt; HumanMessage user_prompt] in
     let* response := invoke (llm self) messages in
     let* test_suite := _parse_ai_response response in
     let test_suite :=
       set_total_scenarios test_suite (Z.of_nat (length (test_scenarios test_suite))) in
     Ok test_suite)
    [ (Exception, fun e =>
         Raise (mk_exn Exception (lit "Failed to generate test cases: " ++ exn_str e))) ].


(** [setup]; [env_file_exists] is [Path(".env").exists()].  The import in
    its first [try] is of a module the generator has loaded already. *)
Definition setup (env_file_exists : bool) : list outcome :=
  [ Echo ([128295%N] ++ lit " Test Case Generator Setup");
    Echo (times 61%N 40) ]
  ++ if env_file_exists then
       Echo ([9989%N] ++ lit " .env file found")
       :: (let not_configured :=
             [ Echo ([10060%N] ++ lit " OpenAI API key not configured");
               Echo (lit "Please set OPENAI_API_KEY in your .env file") ] in
           let configured :=
             Echo ([9989%N] ++ lit " OpenAI API key configured")
             :: match __init__ env with
                | Raise e =>
                    [Echo ([10060%N] ++ lit " Generator test failed: " ++ exn_str e)]
                | Ok generator =>
                    Echo ([9989%N]
                            ++ lit " Test Case Generator initialized successfully")
                    :: (let test_story := lit "As a user, I want to test the system." in
                        match generate_test_cases invoke format_instructions
                                generator test_story None with
                        | Raise e =>
                            [Echo ([10060%N] ++ lit " Generator test failed: "
                                     ++ exn_str e)]
                        | Ok result =>
                            [ Echo ([9989%N] ++ lit " Test generation successful ("
                                      ++ str_of_nat (length (test_scenarios result))
                                      ++ lit " scenarios)");
                              Echo (nl ++ [127881%N]
                                      ++ lit " Setup complete! You can now use the generator.");
                              Echo (lit "Try: python main.py demo --example login") ]
                        end)
                end in
           match env (lit "OPENAI_API_KEY") with
           | Some ((_ :: _) as api_key) =>
               if negb (str_eqb api_key (lit "your_openai_api_key_here"))
               then configured else not_configured
           | _ => not_configured
           end)
     else
       [ Echo ([10060%N] ++ lit " .env file not found");
         Echo (lit "Please copy .env.example to .env and add your OpenAI API key") ].

(** The loop of [batch] over the entries with their numbers: the lines it
    echoes, and the suites gathered or the exception that ends it. *)
Fixpoint batch_loop (generator : TestCaseGenerator) (total : nat)
  (entries : list (nat * value)) (all_results : list TestSuite)
  : list outcome * result (list TestSuite) :=
  match entries with
  | [] => ([], Ok all_results)
  | (i, story_data) :: rest =>
      match story_and_criteria story_data with
      | Raise e => ([], Raise e)
      | Ok (story, criteria) =>
          let line :=
            Echo (lit "Processing story " ++ str_of_nat i ++ lit "/"
                    ++ str_of_nat total ++ lit "...") in
          match generate_test_cases_value generator story criteria with
          | Raise e => ([line], Raise e)
          | Ok test_suite =>
              let (echoed, r) :=
                batch_loop generator total rest (all_results ++ [test_suite]) in
              (line :: echoed, r)
          end
      end
  end.

(** [batch], without [--save]; [input_file] is the text of the file. *)
Definition batch (input_file : str) (output : str) : list outcome :=
  let (echoed, run) :=
    match json_loads input_file with
    | Raise e => ([], Raise e)
    | Ok (VList data) =>
        match __init__ env with
        | Raise e => ([], Raise e)
        | Ok generator =>
            let (echoed, r) :=
              batch_loop generator (length data) (enumerate data 1) [] in
            (echoed,
             let* all_results := r in
             Ok (if str_eqb output (lit "json")
                 then json_dumps 2 (VList (map model_dump all_results))
                 else join (nl ++ nl)
                        (map (fun result => format_output result output)
                           all_results)))
        end
    | Ok _ =>
        ([], Raise (mk_exn ValueError
                      (lit "Input file should contain a JSON array of user stories")))
    end in
  Echo ([128230%N] ++ lit " Processing batch file...")
  :: echoed
  ++ [ match run with
       | Ok combined_output => Echo combined_output
       | Raise e =>
           EchoErr ([10060%N] ++ lit " Batch processing error: " ++ exn_str e) 1
       end ].

End Commands.

(* ================================================================= *)
(** ** Vocabulary of the statements *)

(** The keyword arguments [validate_user_story] constructs the input from. *)
Definition story_kwargs (user_story : str) (criteria : option (list str))
  : list (str * value) :=
  [ (lit "story", VStr user_story);
    (lit "acceptance_criteria", criteria_value criteria) ].

(** The one error of a story that is too short. *)
Definition story_too_short : verr :=
  {| verr_loc := [lit "story"];
     verr_type := lit "string_too_short";
     verr_msg := lit "String should have at least 10 characters" |}.

(** The messages [generate_test_cases] sends for a validated input. *)
Definition prompt_messages (format_instructions : str)
  (validated_input : UserStoryInput) : list message :=
  [ SystemMessage _create_system_prompt;
    HumanMessage (_create_user_prompt format_instructions validated_input) ].

(** The criteria as the [generate] command hands them over: [None] when no
    [--criteria] option was given. *)
Definition command_criteria (criteria : list str) : option (list str) :=
  match criteria with
  | [] => None
  | _ :: _ => Some criteria
  end.

(** The records of the repository's formatting tests. *)
Definition login_scenario : TestScenario :=
  {| scenario_id := lit "TC001";
     title := lit "Test login";
     description := lit "Test user login";
     preconditions := [lit "User exists"];
     test_steps := [lit "Enter credentials"; lit "Click login"];
     expected_result := lit "User logged in";
     test_type := lit "positive";
     priority := lit "high" |}.

Definition login_suite : TestSuite :=
  {| user_story := lit "Test story";
     test_scenarios := [login_scenario];
     coverage_areas := [lit "Authentication"];
     total_scenarios := 1 |}.

(** The text [_parse_ai_response] hands to [json.loads]. *)
Definition extracted_json (response_text : str) : str :=
  match re_search fence_pattern response_text with
  | Some group1 => group1
  | None => response_text
  end.

(** An environment that sets the key and nothing else, and the generator
    built from it. *)
Definition test_env : environ :=
  fun name => if str_eqb name (lit "OPENAI_API_KEY") then Some (lit "test-key") else None.

Definition test_generator : TestCaseGenerator :=
  {| api_key := lit "test-key";
     model_name := lit "gpt-3.5-turbo";
     temperature := float_dec false 3 (-1);
     max_tokens := 2000;
     llm := {| llm_model := lit "gpt-3.5-turbo";
               llm_temperature := float_dec false 3 (-1);
               llm_max_tokens := 2000;
               openai_api_key := lit "test-key" |} |}.

(** A reply with one scenario that declares seven. *)
Definition miscounting_reply : str :=
  qlit "{
  'user_story': 'Test story',
  'test_scenarios': [
    {
      'scenario_id': 'TC001',
      'title': 'Valid login test',
      'description': 'Test successful login with valid credentials',
      'preconditions': ['User account exists', 'Application is running'],
      'test_steps': ['Enter valid email', 'Enter valid password', 'Click login'],
      'expected_result': 'User is logged in successfully',
      'test_type': 'positive',
      'priority': 'high'
    }
  ],
  'coverage_areas': ['Authentication', 'User Interface'],
  'total_scenarios': 7
}".

(** A service that answers every request with the same text. *)
Definition answering (reply : str) : ChatOpenAI -> list message -> result str :=
  fun _ _ => Ok reply.

(** The body of the [try] of [_parse_ai_response] once the text is
    extracted: decoding and construction. *)
Definition decode_suite (json_text : str) : result TestSuite :=
  let* parsed_data := json_loads json_text in
  let* kwargs := unpack_kwargs "TestSuite" parsed_data in
  TestSuite_new kwargs.

(** A scanning function did not run out of depth, and what it left is
    shorter than [n]. *)
Definition progress {A} (n : nat) (r : scan A) : Prop :=
  match r with
  | Scanned _ rest => length rest < n
  | Fail _ _ => True
  | TooDeep => False
  end.

(** An environment with the key set and a temperature that is no number. *)
Definition hot_env : environ :=
  fun name =>
    if str_eqb name (lit "OPENAI_API_KEY") then Some (lit "test-key")
    else if str_eqb name (lit "TEMPERATURE") then Some (lit "hot")
    else None.

(** An environment that sets nothing. *)
Definition empty_env : environ := fun _ => None.

(** The texts [pieces] occur in [text] one after the other, without
    overlap. *)
Fixpoint occurs_in_order (pieces : list str) (text : str) : Prop :=
  match pieces with
  | [] => True
  | p :: ps =>
      exists before after, text = before ++ p ++ after /\ occurs_in_order ps after
  end.

(** What the console rendering shows of scenario number [i], in the order
    the specification lists it: identifier, title, type, priority,
    description, the preconditions as bullets, the numbered steps, the
    expected result. *)
Definition console_fields (i : nat) (scenario : TestScenario) : list str :=
  [ lit "TEST SCENARIO " ++ str_of_nat i ++ lit ": " ++ scenario_id scenario;
    lit "Title: " ++ title scenario;
    lit "Type: " ++ test_type scenario;
    lit "Priority: " ++ priority scenario;
    lit "Description: " ++ description scenario;
    lit "Preconditions:" ]
  ++ map (fun precond => lit "  " ++ [8226%N] ++ lit " " ++ precond)
       (preconditions scenario)
  ++ [ lit "Test Steps:" ]
  ++ map (fun '(step_num, step) => lit "  " ++ str_of_nat step_num ++ lit ". " ++ step)
       (enumerate (test_steps scenario) 1)
  ++ [ lit "Expected Result: " ++ expected_result scenario ].

(** The same for the Markdown rendering. *)
Definition markdown_fields (i : nat) (scenario : TestScenario) : list str :=
  [ lit "## Test Scenario " ++ str_of_nat i ++ lit ": " ++ scenario_id scenario;
    lit "**Title:** " ++ title scenario;
    lit "**Type:** " ++ test_type scenario;
    lit "**Priority:** " ++ priority scenario;
    lit "**Description:** " ++ description scenario;
    lit "**Preconditions:**" ]
  ++ map (fun precond => lit "- " ++ precond) (preconditions scenario)
  ++ [ lit "**Test Steps:**" ]
  ++ map (fun '(step_num, step) => str_of_nat step_num ++ lit ". " ++ step)
       (enumerate (test_steps scenario) 1)
  ++ [ lit "**Expected Result:** " ++ expected_result scenario ].

(** Each of [pieces] lies in a line of its own of [lines], in order. *)
Inductive embeds : list str -> list str -> Prop :=
| embeds_nil lines : embeds [] lines
| embeds_skip pieces line lines :
    embeds pieces lines -> embeds pieces (line :: lines)
| embeds_take piece pieces before after lines :
    embeds pieces lines ->
    embeds (piece :: pieces) ((before ++ piece ++ after) :: lines).

(** A suite with six scenarios, of which only the identifiers matter. *)
Definition numbered_scenario (id : string) : TestScenario :=
  {| scenario_id := lit id;
     title := lit "Login";
     description := lit "Log in";
     preconditions := [lit "User account exists"];
     test_steps := [lit "Navigate to the login page"; lit "Click the Login button"];
     expected_result := lit "Dashboard";
     test_type := lit "positive";
     priority := lit "high" |}.

Definition six_scenario_suite : TestSuite :=
  {| user_story := lit "As a registered user, I want to log into my account using my email and password so that I can access my personalized dashboard.";
     test_scenarios := map numbered_scenario
                         ["TC001"; "TC002"; "TC003"; "TC004"; "TC005"; "TC006"]%string;
     coverage_areas := [lit "Authentication"];
     total_scenarios := 6 |}.

(** A text that [\s*] cannot enter: it is empty or starts with a character
    that is no whitespace. *)
Definition no_space_ahead (s : str) : bool :=
  match s with
  | [] => true
  | c :: _ => negb (is_space c)
  end.

(** A text the lazy group takes whole before a closing fence: it holds no
    closing fence and ends with a character that is neither whitespace nor
    a backtick. *)
Definition closed_by_fence (body : str) : bool :=
  negb (contains fence_close body)
  && negb (is_space (last body 0%N))
  && negb (last body 0%N =? 96)%N.

(** A reply that wraps the JSON text of a suite in a fenced block, with
    prose around it. *)
Definition plain_suite_json : str :=
  qlit "{'user_story': 'Test story', 'test_scenarios': [], 'coverage_areas': ['Authentication'], 'total_scenarios': 0}".


(** The JSON text of a suite whose story mentions a fence, the reply that
    wraps it in a fenced block, and the reply that wraps the plain text in
    a fence without the [json] tag. *)
Definition backtick_suite_json : str :=
  qlit "{'user_story': 'Show the ``` fence', 'test_scenarios': [], 'coverage_areas': [], 'total_scenarios': 0}".

Definition backtick_reply : str :=
  fence_open ++ nl ++ backtick_suite_json ++ nl ++ fence_close.

Definition untagged_reply : str :=
  fence_close ++ nl ++ plain_suite_json ++ nl ++ fence_close.

(** A value with no [float] in it. *)
Fixpoint plain (v : value) : bool :=
  match v with
  | VFloat _ => false
  | VList l => forallb plain l
  | VDict items => forallb (fun item => plain (snd item)) items
  | _ => true
  end.

(** A text at which a number ends: it does not go on with a digit, a
    point or an exponent. *)
Definition ends_number (rest : str) : bool :=
  match rest with
  | [] => true
  | c :: _ =>
      negb (is_digit c) && negb (c =? 46)%N && negb (c =? 101)%N && negb (c =? 69)%N
  end.

(** The characters a written value can start with. *)
Definition value_start (c : char) : bool :=
  is_digit c
  || (c =? 45)%N || (c =? 34)%N || (c =? 91)%N || (c =? 123)%N
  || (c =? 110)%N || (c =? 116)%N || (c =? 102)%N.

(** The items of an array after the first, as [write_value] writes them. *)
Definition more_values (w level : nat) (l : list value) : str :=
  concat (map (fun y => lit "," ++ nl ++ times 32%N (w * level)
                          ++ write_value w level y) l).

(** The items of an object after the first. *)
Definition more_pairs (w level : nat) (l : list (str * value)) : str :=
  concat (map (fun item => lit "," ++ nl ++ times 32%N (w * level)
                             ++ write_str (fst item) ++ lit ": "
                             ++ write_value w level (snd item)) l).

(** A scanning function reads back the written value [y] in front of any
    text a number can end at, within [bound] characters. *)
Definition reads (scan : str -> scan value) (bound w level : nat) (y : value) : Prop :=
  forall tail,
    ends_number tail = true ->
    length (write_value w level y ++ tail) <= bound ->
    scan (write_value w level y ++ tail) = Scanned y tail.


(** The error of a required field that is not given. *)
Definition missing (name : string) : verr :=
  {| verr_loc := [lit name]; verr_type := lit "missing"; verr_msg := lit "Field required" |}.

(** The strings a value holds, keys included. *)
Fixpoint value_texts (v : value) : list str :=
  match v with
  | VStr s => [s]
  | VList l => flat_map value_texts l
  | VDict items => flat_map (fun item => fst item :: value_texts (snd item)) items
  | _ => []
  end.

(** The strings of a scenario and of a suite. *)
Definition scenario_texts (t : TestScenario) : list str :=
  [scenario_id t; title t; description t]
    ++ preconditions t ++ test_steps t
    ++ [expected_result t; test_type t; priority t].

Definition suite_texts (t : TestSuite) : list str :=
  user_story t :: flat_map scenario_texts (test_scenarios t) ++ coverage_areas t.


Definition tick_free (s : str) : bool := forallb (fun c => negb (c =? 96)%N) s.

(** The characters the serializer escapes. *)
Definition escaped (c : char) : bool := ((c =? 34) || (c =? 92) || (c <? 32))%N.

(** An environment that sets the key and a token limit. *)
Definition tokens_env : environ :=
  fun name =>
    if str_eqb name (lit "OPENAI_API_KEY") then Some (lit "test-key")
    else if str_eqb name (lit "MAX_TOKENS") then Some (lit "512")
    else None.


(** The names of the fields of the models. *)
Definition TestSuite_names : list str :=
  map lit ["user_story"; "test_scenarios"; "coverage_areas"; "total_scenarios"]%string.

Definition TestScenario_names : list str :=
  map lit ["scenario_id"; "title"; "description"; "preconditions"; "test_steps";
           "expected_result"; "test_type"; "priority"]%string.


(** The error of a field that should hold a [str] and does not. *)
Definition not_a_string (name : string) : verr :=
  {| verr_loc := [lit name];
     verr_type := lit "string_type";
     verr_msg := lit "Input should be a valid string" |}.

(** Replies that decode and are refused: a suite without its count, and a
    list. *)
Definition countless_reply : str :=
  qlit "{'user_story': 'Test story', 'test_scenarios': [], 'coverage_areas': []}".

Definition list_reply : str := lit "[]".

(** Two suites that differ in how they split the coverage areas. *)
Definition one_area_suite : TestSuite :=
  {| user_story := lit "Test story";
     test_scenarios := [];
     coverage_areas := [lit "Authentication, User Interface"];
     total_scenarios := 0 |}.

Definition two_area_suite : TestSuite :=
  {| user_story := lit "Test story";
     test_scenarios := [];
     coverage_areas := [lit "Authentication"; lit "User Interface"];
     total_scenarios := 0 |}.




(** A text without three backticks in a row. *)
Definition backticks_free (s : str) : bool := negb (contains fence_close s).

(** A suite whose story holds single backticks. *)
Definition quoting_suite : TestSuite :=
  {| user_story := lit "As a user, I want `code` shown as code";
     test_scenarios := [login_scenario];
     coverage_areas := [lit "Formatting"];
     total_scenarios := 1 |}.



(** The key is configured, as [setup] checks it. *)
Definition key_configured (env : environ) : Prop :=
  exists key,
    env (lit "OPENAI_API_KEY") = Some key
    /\ key <> [] /\ key <> lit "your_openai_api_key_here".

(** The last but one line of a [setup] that went through, and the story it
    tries the generator on. *)
Definition setup_complete : outcome :=
  Echo (nl ++ [127881%N] ++ lit " Setup complete! You can now use the generator.").

Definition setup_story : str := lit "As a user, I want to test the system.".

(** An environment with the key of [.env.example]. *)
Definition placeholder_env : environ :=
  fun name =>
    if str_eqb name (lit "OPENAI_API_KEY") then Some (lit "your_openai_api_key_here")
    else None.

(** The lines of a run of [batch]: the first, the one before each story,
    and the last of a run that fails. *)
Definition batch_header : outcome :=
  Echo ([128230%N] ++ lit " Processing batch file...").

Definition progress_line (total i : nat) : outcome :=
  Echo (lit "Processing story " ++ str_of_nat i ++ lit "/" ++ str_of_nat total
          ++ lit "...").

Definition batch_error (e : exn) : outcome :=
  EchoErr ([10060%N] ++ lit " Batch processing error: " ++ exn_str e) 1.

(** The text [batch] makes of the suites of all the stories. *)
Definition combined_output (output : str) (all_results : list TestSuite) : str :=
  if str_eqb output (lit "json")
  then json_dumps 2 (VList (map model_dump all_results))
  else join (nl ++ nl) (map (fun result => format_output result output) all_results).

(** An entry of the file for which the generation returns a suite. *)
Definition entry_yields (invoke : ChatOpenAI -> list message -> result str)
  (format_instructions : str) (generator : TestCaseGenerator)
  (story_data : value) (suite : TestSuite) : Prop :=
  exists story criteria,
    story_and_criteria story_data = Ok (story, criteria)
    /\ generate_test_cases_value invoke format_instructions generator story criteria
       = Ok suite.

(** The exception of a file that holds no array. *)
Definition not_an_array : exn :=
  mk_exn ValueError (lit "Input file should contain a JSON array of user stories").

(** A text at whose start the decoder finds no value: it is empty, or
    starts with a character that opens no string, object, array or number
    and with none of the literals. *)
Definition no_value_ahead (s : str) : bool :=
  match s with
  | [] => true
  | c :: _ =>
      negb (is_digit c) && negb (c =? 45)%N && negb (c =? 34)%N
      && negb (c =? 91)%N && negb (c =? 123)%N
      && negb (is_json_ws c) && negb (c =? 65279)%N
      && negb (starts_with (lit "null") s) && negb (starts_with (lit "true") s)
      && negb (starts_with (lit "false") s) && negb (starts_with (lit "NaN") s)
      && negb (starts_with (lit "Infinity") s)
  end.

(** A reply cut off inside its fenced block. *)
Definition cut_off_reply : str :=
  fence_open ++ nl ++ qlit "{'user_story': 'Test story', 'test_scenarios': [".

(** A character of a text that UTF-8 can encode: a code point up to
    U+10FFFF that is no surrogate. *)
Definition scalar (c : char) : bool :=
  ((c <? 55296) || (57343 <? c) && (c <? 1114112))%N.

(** A value with no [float] in it whose texts, keys included, are made of
    such characters. *)
Fixpoint encodable (v : value) : bool :=
  match v with
  | VFloat _ => false
  | VStr s => forallb scalar s
  | VList l => forallb encodable l
  | VDict items =>
      forallb (fun item => forallb scalar (fst item) && encodable (snd item)) items
  | _ => true
  end.

(** The items of an array after the first, and those of an object, as
    [iterencode] writes them. *)
Definition more_items (w level : nat) (l : list value) : str :=
  concat (map (fun y => lit "," ++ nl ++ times 32%N (w * level)
                          ++ iterencode w level y) l).

Definition more_members (w level : nat) (l : list (str * value)) : str :=
  concat (map (fun item => lit "," ++ nl ++ times 32%N (w * level)
                             ++ encode_basestring_ascii (fst item) ++ lit ": "
                             ++ iterencode w level (snd item)) l).

(** A scanning function reads back the encoded value [y] in front of any
    text a number can end at, within [bound] characters. *)
Definition reads_encoded (scan : str -> scan value) (bound w level : nat)
  (y : value) : Prop :=
  forall tail,
    ends_number tail = true ->
    length (iterencode w level y ++ tail) <= bound ->
    scan (iterencode w level y ++ tail) = Scanned y tail.

(** The suites whose texts are made of such characters. *)
Definition scalar_suite (t : TestSuite) : bool :=
  forallb (forallb scalar) (suite_texts t).

(** A suite with characters outside ASCII and outside the basic plane. *)
Definition emoji_suite : TestSuite :=
  {| user_story := lit "As a user, I want " ++ [233%N; 128640%N] ++ lit " in my story";
     test_scenarios := [login_scenario];
     coverage_areas := [[10060%N]];
     total_scenarios := 1 |}.

(** A text of ASCII characters only. *)
Definition ascii_only (s : str) : bool := forallb (fun c => (c <? 128)%N) s.

(** The end of the fence pattern, [\s*] and the closing fence, after a
    group; and whether it matches at the start of a text. *)
Definition closing (s group1 : str) : option str :=
  spaces_then (fun s' => rmatch (map RLit fence_close) s' group1) s.

Definition closes (s : str) : bool :=
  match closing s [] with
  | Some _ => true
  | None => false
  end.

(** A reply whose fenced block holds blank lines around its text. *)
Definition airy_reply : str :=
  fence_open ++ nl ++ nl ++ lit "  " ++ plain_suite_json ++ lit " " ++ nl ++ nl
    ++ fence_close.

(* ================================================================= *)
(** ** Tactics *)

(** Case analysis on a scrutinee of the goal that holds no [match] itself. *)
Ltac break_match :=
  match goal with
  | |- context [match ?x with _ => _ end] =>
      lazymatch x with
      | context [match _ with _ => _ end] => fail
      | _ => destruct x eqn:?
      end
  end.

(** Case analysis on the comparisons of a variable with a character. *)
Ltac case_eqb :=
  repeat match goal with
         | |- context [(?a =? ?b)%N] =>
             first [is_var a | is_var b]; destruct (N.eqb_spec a b); subst;
             cbn [andb orb negb]
         | H : context [(?a =? ?b)%N] |- _ =>
             first [is_var a | is_var b]; destruct (N.eqb_spec a b); subst;
             cbn [andb orb negb] in H
         end.

(** Lengths of concatenations, for [lia]. *)
Ltac lengths :=
  unfold nl in *;
  repeat match goal with
         | H : context [length (_ ++ _)] |- _ => rewrite length_app in H
         | H : context [length (_ :: _)] |- _ => progress cbn [length] in H
         | |- context [length (_ ++ _)] => rewrite length_app
         | |- context [length (_ :: _)] => progress cbn [length]
         end;
  try lia.


(** Membership in a concatenation, part by part. *)
Ltac split_in H :=
  repeat match type of H with
         | In _ (_ ++ _) => apply in_app_or in H; destruct H as [H|H]
         end.

(* ================================================================= *)
(** * Properties *)

(** ** Strings, exceptions and handlers *)

Lemma str_eqb_eq (a b : str) : str_eqb a b = true <-> a = b.
Proof.
  unfold str_eqb. destruct (list_eq_dec N.eq_dec a b); split; congruence.
Qed.


Lemma str_eqb_refl (a : str) : str_eqb a a = true.
Proof. now apply str_eqb_eq. Qed.

(** Every class derives from [Exception]: an [except Exception] clause
    catches whatever is raised. *)
Lemma issubclass_Exception (c : exn_class) : issubclass c Exception = true.
Proof. reflexivity. Qed.

Lemma try_Exception {A} (r : result A) (h : exn -> result A) rest :
  try_ r ((Exception, h) :: rest) =
  match r with
  | Ok a => Ok a
  | Raise e => h e
  end.
Proof. destruct r; reflexivity. Qed.

(** ** Validation of the user story (C2, C6) *)

Lemma check_items_strs (l : list str) (i : nat) :
  check_items check_str i (map VStr l) = Valid l.
Proof.
  revert i. induction l as [|s l IH]; intros i; simpl; [reflexivity|].
  now rewrite IH.
Qed.

Lemma check_criteria (criteria : option (list str)) :
  check_optional (check_list check_str) (criteria_value criteria) = Valid criteria.
Proof.
  destruct criteria as [l|]; simpl; [|reflexivity].
  destruct l as [|s l]; simpl; [reflexivity|].
  now rewrite check_items_strs.
Qed.

Lemma UserStoryInput_fields_story (user_story : str) (criteria : option (list str)) :
  UserStoryInput_fields (story_kwargs user_story criteria) =
  if length user_story <? 10
  then Invalid [story_too_short]
  else Valid {| story := user_story;
                acceptance_criteria := criteria;
                story_type := Some (lit "feature") |}.
Proof.
  unfold UserStoryInput_fields, field, field_default, story_kwargs.
  cbn [dict_get].
  change (str_eqb (lit "acceptance_criteria") (lit "story")) with false.
  change (str_eqb (lit "story") (lit "story")) with true.
  change (str_eqb (lit "acceptance_criteria") (lit "acceptance_criteria")) with true.
  change (str_eqb (lit "acceptance_criteria") (lit "story_type")) with false.
  change (str_eqb (lit "story") (lit "story_type")) with false.
  cbn iota. rewrite check_criteria.
  unfold check_str_min_length, check_str.
  destruct (length user_story <? 10); reflexivity.
Qed.

Lemma UserStoryInput_new_story (user_story : str) (criteria : option (list str)) :
  UserStoryInput_new (story_kwargs user_story criteria) =
  if length user_story <? 10
  then Raise (validation_error "UserStoryInput" [story_too_short])
  else Ok {| story := user_story;
             acceptance_criteria := criteria;
             story_type := Some (lit "feature") |}.
Proof.
  unfold UserStoryInput_new. rewrite UserStoryInput_fields_story.
  destruct (length user_story <? 10); reflexivity.
Qed.

Lemma validate_user_story_eq (user_story : str) (criteria : option (list str)) :
  validate_user_story user_story criteria =
  if length user_story <? 10
  then Raise (mk_exn ValueError
                (lit "Invalid user story input: "
                   ++ exn_str (validation_error "UserStoryInput" [story_too_short])))
  else Ok {| story := user_story;
             acceptance_criteria := criteria;
             story_type := Some (lit "feature") |}.
Proof.
  unfold validate_user_story. fold (story_kwargs user_story criteria).
  rewrite UserStoryInput_new_story.
  destruct (length user_story <? 10); reflexivity.
Qed.





(** ** The output format selector (C7) *)



(** ** Failures of [generate_test_cases] (C10) and its count (C1) *)

Lemma starts_with_app (p s : str) : starts_with p (p ++ s) = true.
Proof.
  induction p as [|c p IH]; simpl; [reflexivity|].
  now rewrite N.eqb_refl, IH.
Qed.

Section Generation.

Variable invoke : ChatOpenAI -> list message -> result str.
Variable format_instructions : str.
Variable self : TestCaseGenerator.
Variable user_story : str.
Variable criteria : option (list str).

(** The stages of [generate_test_cases], one equation per way to leave it. *)
Lemma generate_invalid_input e :
  validate_user_story user_story criteria = Raise e ->
  generate_test_cases invoke format_instructions self user_story criteria
  = Raise (mk_exn Exception (lit "Failed to generate test cases: " ++ exn_str e)).
Proof.
  intros H. unfold generate_test_cases.
  rewrite try_Exception, H. reflexivity.
Qed.

Lemma generate_service_failure input e :
  validate_user_story user_story criteria = Ok input ->
  invoke (llm self) (prompt_messages format_instructions input) = Raise e ->
  generate_test_cases invoke format_instructions self user_story criteria
  = Raise (mk_exn Exception (lit "Failed to generate test cases: " ++ exn_str e)).
Proof.
  intros Hv Hs. unfold generate_test_cases.
  rewrite try_Exception, Hv. cbn [bind].
  fold (prompt_messages format_instructions input). rewrite Hs. reflexivity.
Qed.

Lemma generate_bad_reply input reply e :
  validate_user_story user_story criteria = Ok input ->
  invoke (llm self) (prompt_messages format_instructions input) = Ok reply ->
  _parse_ai_response reply = Raise e ->
  generate_test_cases invoke format_instructions self user_story criteria
  = Raise (mk_exn Exception (lit "Failed to generate test cases: " ++ exn_str e)).
Proof.
  intros Hv Hs Hp. unfold generate_test_cases.
  rewrite try_Exception, Hv. cbn [bind].
  fold (prompt_messages format_instructions input). rewrite Hs. cbn [bind].
  rewrite Hp. reflexivity.
Qed.

Lemma generate_good_reply input reply parsed :
  validate_user_story user_story criteria = Ok input ->
  invoke (llm self) (prompt_messages format_instructions input) = Ok reply ->
  _parse_ai_response reply = Ok parsed ->
  generate_test_cases invoke format_instructions self user_story criteria
  = Ok (set_total_scenarios parsed (Z.of_nat (length (test_scenarios parsed)))).
Proof.
  intros Hv Hs Hp. unfold generate_test_cases.
  rewrite try_Exception, Hv. cbn [bind].
  fold (prompt_messages format_instructions input). rewrite Hs. cbn [bind].
  rewrite Hp. reflexivity.
Qed.

(** Whatever way it is left, it is one of the four. *)
Lemma generate_cases :
  (exists e,
      generate_test_cases invoke format_instructions self user_story criteria
      = Raise (mk_exn Exception
                 (lit "Failed to generate test cases: " ++ exn_str e)))
  \/ (exists parsed,
        generate_test_cases invoke format_instructions self user_story criteria
        = Ok (set_total_scenarios parsed
                (Z.of_nat (length (test_scenarios parsed))))).
Proof.
  destruct (validate_user_story user_story criteria) as [input|e] eqn:Hv.
  - destruct (invoke (llm self) (prompt_messages format_instructions input))
      as [reply|e] eqn:Hs.
    + destruct (_parse_ai_response reply) as [parsed|e] eqn:Hp.
      * right. exists parsed. eapply generate_good_reply; eauto.
      * left. exists e. eapply generate_bad_reply; eauto.
    + left. exists e. eapply generate_service_failure; eauto.
  - left. exists e. now apply generate_invalid_input.
Qed.

End Generation.

(** C10.  Every failure inside [generate_test_cases] (of the input
    validation, of the service, of the parsing or of the construction) leaves
    it as a plain [Exception] whose text is ["Failed to generate test cases: "]
    followed by the text of the original exception.  It is therefore never a
    [ValueError]: an [except ValueError] clause does not catch it, and the
    [generate] command reports a refused story under ["Error:"], not under
    ["Validation Error:"]. *)
Theorem generation_failure_is_plain_exception
  (invoke : ChatOpenAI -> list message -> result str) (format_instructions : str)
  (self : TestCaseGenerator) (user_story : str) (criteria : option (list str)) :
  let generated :=
    generate_test_cases invoke format_instructions self user_story criteria in
  let wrapped e :=
    mk_exn Exception (lit "Failed to generate test cases: " ++ exn_str e) in
  (forall e, generated = Raise e ->
     exn_class_of e = Exception
     /\ starts_with (lit "Failed to generate test cases: ") (exn_str e) = true
     /\ issubclass (exn_class_of e) ValueError = false)
  /\ (forall e, validate_user_story user_story criteria = Raise e ->
        generated = Raise (wrapped e))
  /\ (forall input e,
        validate_user_story user_story criteria = Ok input ->
        invoke (llm self) (prompt_messages format_instructions input) = Raise e ->
        generated = Raise (wrapped e))
  /\ (forall input reply e,
        validate_user_story user_story criteria = Ok input ->
        invoke (llm self) (prompt_messages format_instructions input) = Ok reply ->
        _parse_ai_response reply = Raise e ->
        generated = Raise (wrapped e))
  /\ (forall env output story_criteria e,
        criteria = command_criteria story_criteria ->
        __init__ env = Ok self ->
        generated = Raise e ->
        generate invoke format_instructions env user_story story_criteria output
          = EchoErr ([10060%N] ++ lit " Error: " ++ exn_str e) 1).
Proof.
  intros generated wrapped.
  assert (Hraise : forall e, generated = Raise e -> exists e0, e = wrapped e0).
  { intros e H.
    destruct (generate_cases invoke format_instructions self user_story criteria)
      as [[e0 H0]|[p H0]]; fold generated in H0; rewrite H0 in H.
    - exists e0. now injection H.
    - discriminate. }
  repeat split.
  - destruct (Hraise e H) as [e0 ->]. reflexivity.
  - destruct (Hraise e H) as [e0 ->]. apply starts_with_app.
  - destruct (Hraise e H) as [e0 ->]. reflexivity.
  - apply generate_invalid_input.
  - apply generate_service_failure.
  - apply generate_bad_reply.
  - intros env output story_criteria e Hc Hi He.
    unfold generate. rewrite Hi. cbn [bind].
    fold (command_criteria story_criteria). rewrite <- Hc.
    fold generated. rewrite He. cbn [bind].
    destruct (Hraise e He) as [e0 ->]. reflexivity.
Qed.

Lemma generation_failure_is_plain_exception_witness :
  generate_test_cases (answering miscounting_reply) [] test_generator (lit "Short") None
    = Raise (mk_exn Exception
               (lit "Failed to generate test cases: "
                  ++ lit "Invalid user story input: "
                  ++ exn_str (validation_error "UserStoryInput" [story_too_short])))
  /\ generate (answering miscounting_reply) [] test_env (lit "Short") [] (lit "console")
    = EchoErr ([10060%N] ++ lit " Error: "
                 ++ lit "Failed to generate test cases: "
                 ++ lit "Invalid user story input: "
                 ++ exn_str (validation_error "UserStoryInput" [story_too_short])) 1.
Proof.
  destruct (generation_failure_is_plain_exception
              (answering miscounting_reply) [] test_generator (lit "Short") None)
    as (_ & Hinvalid & _ & _ & Hcommand).
  assert (Hgen := Hinvalid _ (validate_user_story_eq (lit "Short") None)).
  split.
  - exact Hgen.
  - exact (Hcommand test_env (lit "console") [] _ eq_refl eq_refl Hgen).
Defined.

(** [_parse_ai_response] through its two [except] clauses. *)
Lemma parse_ai_response_eq (response_text : str) :
  _parse_ai_response response_text =
  match decode_suite (extracted_json response_text) with
  | Ok suite => Ok suite
  | Raise e =>
      if issubclass (exn_class_of e) JSONDecodeError
      then Raise (mk_exn ValueError
                    (lit "Failed to parse AI response as JSON: " ++ exn_str e))
      else Raise (mk_exn ValueError
                    (lit "Failed to create TestSuite object: " ++ exn_str e))
  end.
Proof.
  unfold _parse_ai_response. fold (extracted_json response_text).
  fold (decode_suite (extracted_json response_text)).
  destruct (decode_suite (extracted_json response_text)) as [suite|e];
    cbn [try_]; [reflexivity|].
  destruct (issubclass (exn_class_of e) JSONDecodeError); reflexivity.
Qed.

(** What it takes for [_parse_ai_response] to return a suite. *)
Lemma parse_ai_response_Ok (response_text : str) (parsed : TestSuite) :
  _parse_ai_response response_text = Ok parsed ->
  exists data,
    json_loads (extracted_json response_text) = Ok (VDict data)
    /\ TestSuite_fields data = Valid parsed.
Proof.
  rewrite parse_ai_response_eq. unfold decode_suite.
  destruct (json_loads (extracted_json response_text)) as [v|e]; cbn [bind].
  - destruct v; cbn [unpack_kwargs bind];
      try (match goal with
           | |- context [issubclass ?c ?d] => destruct (issubclass c d)
           end; discriminate).
    unfold TestSuite_new, construct.
    destruct (TestSuite_fields items) as [t|errs] eqn:Hf.
    + intros [= <-]. now exists items.
    + match goal with
      | |- context [issubclass ?c ?d] => destruct (issubclass c d)
      end; discriminate.
  - destruct (issubclass (exn_class_of e) JSONDecodeError); discriminate.
Qed.

Lemma ap_Valid {A B} (f : checked (A -> B)) (x : checked A) (b : B) :
  f <*> x = Valid b -> exists g a, f = Valid g /\ x = Valid a /\ b = g a.
Proof.
  destruct f as [g|], x as [a|]; cbn; try discriminate.
  intros [= <-]. now exists g, a.
Qed.

Lemma under_Valid {A} (name : str) (c : checked A) (a : A) :
  under name c = Valid a -> c = Valid a.
Proof. destruct c; cbn; congruence. Qed.

Lemma field_Valid {A} (name : string) (check : value -> checked A) data (a : A) :
  field name check data = Valid a ->
  exists v, dict_get (lit name) data = Some v /\ check v = Valid a.
Proof.
  unfold field. destruct (dict_get (lit name) data) as [v|].
  - intros H. exists v. split; [reflexivity|]. now apply under_Valid in H.
  - cbn. discriminate.
Qed.

Lemma check_items_length {A} (item : value -> checked A) (l : list value) :
  forall i l', check_items item i l = Valid l' -> length l' = length l.
Proof.
  induction l as [|v l IH]; intros i l'; cbn [check_items].
  - now intros [= <-].
  - intros H. apply ap_Valid in H as (g & tl & Hg & Htl & ->).
    apply ap_Valid in Hg as (g0 & a & Hg0 & _ & ->).
    injection Hg0 as <-. cbn. f_equal. eauto.
Qed.

(** A suite comes with as many scenarios as the reply's [test_scenarios]
    array has entries. *)
Lemma parsed_scenarios_length (response_text : str) (parsed : TestSuite) :
  _parse_ai_response response_text = Ok parsed ->
  exists data entries,
    json_loads (extracted_json response_text) = Ok (VDict data)
    /\ dict_get (lit "test_scenarios") data = Some (VList entries)
    /\ length (test_scenarios parsed) = length entries.
Proof.
  intros H. apply parse_ai_response_Ok in H as (data & Hj & Hf).
  exists data. unfold TestSuite_fields in Hf.
  apply ap_Valid in Hf as (g3 & n & Hf & _ & ->).
  apply ap_Valid in Hf as (g2 & areas & Hf & _ & ->).
  apply ap_Valid in Hf as (g1 & scenarios & Hf & Hs & ->).
  apply ap_Valid in Hf as (g0 & text & Hf & _ & ->).
  injection Hf as <-. cbn [test_scenarios].
  apply field_Valid in Hs as (v & Hget & Hcheck).
  destruct v; try (cbn in Hcheck; discriminate).
  exists l. repeat split; [exact Hj | exact Hget |].
  eapply check_items_length. exact Hcheck.
Qed.

(** C1.  Whatever suite [generate_test_cases] returns, its [total_scenarios]
    is the length of its scenario list.  When the reply parses into a suite,
    that suite is returned with its count replaced by the number of
    scenarios, which is the number of entries of the reply's
    [test_scenarios] array, whatever count the reply declared. *)
Theorem generated_count_is_length
  (invoke : ChatOpenAI -> list message -> result str) (format_instructions : str)
  (self : TestCaseGenerator) (story_text : str) (criteria : option (list str)) :
  let generated :=
    generate_test_cases invoke format_instructions self story_text criteria in
  (forall suite, generated = Ok suite ->
     total_scenarios suite = Z.of_nat (length (test_scenarios suite)))
  /\ (forall input reply parsed,
        validate_user_story story_text criteria = Ok input ->
        invoke (llm self) (prompt_messages format_instructions input) = Ok reply ->
        _parse_ai_response reply = Ok parsed ->
        generated = Ok (set_total_scenarios parsed
                          (Z.of_nat (length (test_scenarios parsed))))
        /\ exists data entries,
             json_loads (extracted_json reply) = Ok (VDict data)
             /\ dict_get (lit "test_scenarios") data = Some (VList entries)
             /\ generated = Ok {| user_story := user_story parsed;
                                  test_scenarios := test_scenarios parsed;
                                  coverage_areas := coverage_areas parsed;
                                  total_scenarios := Z.of_nat (length entries) |}).
Proof.
  intros generated. split.
  - intros suite H.
    destruct (generate_cases invoke format_instructions self story_text criteria)
      as [[e H0]|[p H0]]; fold generated in H0; rewrite H0 in H.
    + discriminate.
    + injection H as <-. reflexivity.
  - intros input reply parsed Hv Hs Hp.
    assert (Hg := generate_good_reply invoke format_instructions self story_text
                    criteria Hv Hs Hp).
    fold generated in Hg. split; [exact Hg|].
    destruct (parsed_scenarios_length _ Hp) as (data & entries & Hj & Hget & Hlen).
    exists data, entries. repeat split; [exact Hj | exact Hget |].
    rewrite Hg. unfold set_total_scenarios. now rewrite Hlen.
Qed.

Lemma generated_count_is_length_witness :
  exists suite,
    generate_test_cases (answering miscounting_reply) [] test_generator
      (lit "As a user, I want to login to my account")
      (Some [lit "Valid credentials required"]) = Ok suite
    /\ total_scenarios suite = 1%Z
    /\ length (test_scenarios suite) = 1.
Proof.
  destruct (_parse_ai_response miscounting_reply) as [parsed|e] eqn:Hp;
    [|vm_compute in Hp; discriminate].
  assert (Hv := validate_user_story_eq
                  (lit "As a user, I want to login to my account")
                  (Some [lit "Valid credentials required"])).
  change (length (lit "As a user, I want to login to my account") <? 10)
    with false in Hv.
  destruct (generated_count_is_length (answering miscounting_reply) []
              test_generator (lit "As a user, I want to login to my account")
              (Some [lit "Valid credentials required"])) as [_ Hgood].
  destruct (Hgood _ miscounting_reply parsed Hv eq_refl Hp) as [Hg _].
  eexists. split; [exact Hg|].
  assert (parsed = match _parse_ai_response miscounting_reply with
                   | Ok s => s
                   | Raise _ => parsed
                   end) as -> by now rewrite Hp.
  vm_compute. split; reflexivity.
Defined.

(** ** The decoder always answers

    The scanner is given as many rounds, and as much depth, as the document
    has characters; it never needs more, so the only exception [json_loads]
    raises is a [JSONDecodeError]. *)

Lemma progress_weaken {A} (n m : nat) (r : scan A) :
  n <= m -> progress n r -> progress m r.
Proof. destruct r; simpl; [lia | trivial | trivial]. Qed.

Lemma skip_ws_length (s : str) : length (skip_ws s) <= length s.
Proof.
  induction s as [|c s IH]; simpl; [lia|].
  destruct (is_json_ws c); simpl; lia.
Qed.

Lemma decode_uXXXX_length (s r : str) (u : N) :
  decode_uXXXX s = Some (u, r) -> length s = 4 + length r.
Proof.
  unfold decode_uXXXX.
  destruct s as [|a [|b [|c [|d s']]]]; try discriminate.
  destruct (hex_digit a), (hex_digit b), (hex_digit c), (hex_digit d);
    try discriminate.
  intros [= _ <-]. reflexivity.
Qed.

Lemma scanstring_progress (rounds : nat) :
  forall begin s chunks,
    length s <= rounds -> progress (length s) (scanstring rounds begin s chunks).
Proof.
  induction rounds as [|rounds IH]; intros begin s chunks Hlen.
  - destruct s; [exact I | simpl in Hlen; lia].
  - destruct s as [|c s']; [exact I|].
    simpl in Hlen. cbn [scanstring].
    destruct (c =? 34)%N; [simpl; lia|].
    destruct (c =? 92)%N.
    + destruct s' as [|esc s'']; [exact I|].
      simpl in Hlen.
      destruct (esc =? 117)%N.
      * destruct (decode_uXXXX s'') as [[uni s3]|] eqn:Hd; [|exact I].
        apply decode_uXXXX_length in Hd.
        assert (Halone : progress (length (c :: esc :: s''))
                           (scanstring rounds begin s3 (uni :: chunks))).
        { eapply progress_weaken; [|apply IH]; simpl; lia. }
        destruct ((55296 <=? uni) && (uni <=? 56319))%N; [|exact Halone].
        destruct s3 as [|b2 [|u2 s4]]; try exact Halone.
        destruct ((b2 =? 92) && (u2 =? 117))%N; [|exact Halone].
        destruct (decode_uXXXX s4) as [[uni2 s5]|] eqn:Hd2; [|exact I].
        apply decode_uXXXX_length in Hd2.
        destruct ((56320 <=? uni2) && (uni2 <=? 57343))%N; [|exact Halone].
        eapply progress_weaken; [|apply IH]; simpl in *; lia.
      * destruct (backslash esc); [|exact I].
        eapply progress_weaken; [|apply IH]; simpl; lia.
    + destruct (c <? 32)%N; [exact I|].
      eapply progress_weaken; [|apply IH]; simpl; lia.
Qed.

Lemma span_digits_length (s ds r : str) :
  span_digits s = (ds, r) -> length s = length ds + length r.
Proof.
  revert ds r. induction s as [|c s IH]; intros ds r; simpl.
  - intros [= <- <-]. reflexivity.
  - destruct (is_digit c).
    + destruct (span_digits s) as [ds' r'] eqn:Hs.
      intros [= <- <-]. simpl. f_equal. now apply IH.
    + intros [= <- <-]. reflexivity.
Qed.

Lemma match_unsigned_progress (neg : bool) (s rest : str) (v : value) :
  match_unsigned neg s = Some (v, rest) -> length rest < length s.
Proof.
  unfold match_unsigned.
  repeat (break_match; try discriminate);
    repeat match goal with
           | H : span_digits _ = (_, _) |- _ => apply span_digits_length in H
           | H : (_, _) = (_, _) |- _ => injection H as ? ?
           | H : Some _ = Some _ |- _ => injection H as ?
           | H : None = Some _ |- _ => discriminate H
           | H : Some _ = None |- _ => discriminate H
           end;
    subst; intros [= ? ?]; subst; simpl in *; lia.
Qed.

Lemma match_number_progress (s rest : str) (v : value) :
  match_number s = Some (v, rest) -> length rest < length s.
Proof.
  unfold match_number. destruct s as [|c r].
  - apply match_unsigned_progress.
  - destruct (c =? 45)%N; intros H; apply match_unsigned_progress in H;
      simpl in *; lia.
Qed.

Lemma starts_with_length (p s : str) :
  starts_with p s = true -> length p <= length s.
Proof.
  revert s. induction p as [|a p IH]; intros [|b s]; simpl; try lia; try discriminate.
  intros H. apply andb_true_iff in H as [_ H]. apply IH in H. lia.
Qed.

Lemma literal_progress (p s : str) :
  starts_with p s = true -> 0 < length p ->
  length (skipn (length p) s) < length s.
Proof.
  intros H Hn. apply starts_with_length in H. rewrite length_skipn. lia.
Qed.

Section Scanner.

(** [scan_once] at the depth the loops are run with: it answers on every
    text of at most [bound] characters, and takes at least one. *)
Variable scan : str -> scan value.
Variable bound : nat.
Hypothesis scan_progress :
  forall t, length t <= bound -> progress (length t) (scan t).

Lemma object_items_progress (rounds : nat) :
  forall s pairs,
    length s <= bound -> length s < rounds ->
    progress (length s) (object_items scan rounds s pairs).
Proof.
  induction rounds as [|rounds IH]; intros s pairs Hb Hr; [lia|].
  cbn [object_items].
  pose proof (scanstring_progress (S (length s)) s [] (le_n _)) as Hkey.
  destruct (scanstring (length s) (S (length s)) s []) as [key s1| |];
    [|exact I|exact Hkey].
  simpl in Hkey.
  assert (Hs2 : forall s2,
             s2 = match s1 with
                  | c :: _ => if (c =? 58)%N then s1 else skip_ws s1
                  | [] => s1
                  end -> length s2 <= length s1).
  { intros s2 ->. destruct s1 as [|c s1']; [lia|].
    destruct (c =? 58)%N; [lia | apply skip_ws_length]. }
  specialize (Hs2 _ eq_refl).
  destruct (match s1 with
            | c :: _ => if (c =? 58)%N then s1 else skip_ws s1
            | [] => s1
            end) as [|c s3]; [exact I|].
  simpl in Hs2.
  destruct (c =? 58)%N; [|exact I].
  pose proof (skip_ws_length s3) as Hw.
  pose proof (scan_progress (skip_ws s3) ltac:(lia)) as Hv.
  destruct (scan (skip_ws s3)) as [v s5| |]; [|exact I|exact Hv].
  simpl in Hv.
  pose proof (skip_ws_length s5) as Hw5.
  destruct (skip_ws s5) as [|d r]; [exact I|].
  simpl in Hw5.
  destruct (d =? 125)%N; [simpl; lia|].
  destruct (d =? 44)%N; [|exact I].
  pose proof (skip_ws_length r) as Hwr.
  destruct (skip_ws r) as [|q r2]; [exact I|].
  simpl in Hwr.
  destruct (q =? 34)%N; [|exact I].
  eapply progress_weaken; [|apply IH]; lia.
Qed.

Lemma JSONObject_progress (s : str) :
  length s <= bound -> progress (S (length s)) (JSONObject scan s).
Proof.
  intros Hb. unfold JSONObject.
  assert (Hs1 : forall s1,
             s1 = match s with
                  | c :: _ => if (c =? 34)%N then s else skip_ws s
                  | [] => s
                  end -> length s1 <= length s).
  { intros s1 ->. destruct s as [|c s']; [lia|].
    destruct (c =? 34)%N; [lia | apply skip_ws_length]. }
  specialize (Hs1 _ eq_refl).
  destruct (match s with
            | c :: _ => if (c =? 34)%N then s else skip_ws s
            | [] => s
            end) as [|c r]; [exact I|].
  simpl in Hs1.
  destruct (c =? 34)%N.
  - eapply progress_weaken; [|apply object_items_progress]; lia.
  - destruct (c =? 125)%N; [simpl; lia | exact I].
Qed.

Lemma array_items_progress (rounds : nat) :
  forall s values,
    length s <= bound -> length s <= rounds -> 0 < rounds ->
    progress (S (length s)) (array_items scan rounds s values).
Proof.
  induction rounds as [|rounds IH]; intros s values Hb Hr Hpos; [lia|].
  cbn [array_items].
  pose proof (scan_progress s Hb) as Hv.
  destruct (scan s) as [v s1| |]; [|exact I|exact Hv].
  simpl in Hv.
  pose proof (skip_ws_length s1) as Hw.
  destruct (skip_ws s1) as [|d r]; [exact I|].
  simpl in Hw.
  destruct (d =? 93)%N; [simpl; lia|].
  destruct (d =? 44)%N; [|exact I].
  pose proof (skip_ws_length r) as Hwr.
  eapply progress_weaken; [|apply IH]; lia.
Qed.

Lemma JSONArray_progress (s : str) :
  length s <= bound -> progress (S (length s)) (JSONArray scan s).
Proof.
  intros Hb. unfold JSONArray.
  pose proof (skip_ws_length s) as Hw.
  destruct (skip_ws s) as [|c r] eqn:Hs.
  - eapply progress_weaken; [|apply array_items_progress]; simpl; lia.
  - simpl in Hw. destruct (c =? 93)%N; [simpl; lia|].
    eapply progress_weaken; [|apply array_items_progress]; simpl; lia.
Qed.

End Scanner.

Lemma scan_once_progress (depth : nat) :
  forall s, length s < depth -> progress (length s) (scan_once depth s).
Proof.
  induction depth as [|depth IH]; intros s Hd; [lia|].
  destruct s as [|c s']; [exact I|].
  simpl in Hd. cbn [scan_once].
  assert (Hsub : forall t, length t <= length s' ->
                   progress (length t) (scan_once depth t))
    by (intros t Ht; apply IH; lia).
  destruct (c =? 34)%N.
  { pose proof (scanstring_progress (length (c :: s')) s' [] (le_n _)) as Hk.
    destruct (scanstring (length s') (length (c :: s')) s' []); simpl in *;
      [lia | trivial | trivial]. }
  destruct (c =? 123)%N.
  { eapply progress_weaken; [|apply (JSONObject_progress _ Hsub)]; simpl; lia. }
  destruct (c =? 91)%N.
  { eapply progress_weaken; [|apply (JSONArray_progress _ Hsub)]; simpl; lia. }
  destruct (starts_with (lit "null") (c :: s')) eqn:Hnull.
  { apply (literal_progress (lit "null") _ Hnull). simpl. lia. }
  destruct (starts_with (lit "true") (c :: s')) eqn:Htrue.
  { apply (literal_progress (lit "true") _ Htrue). simpl. lia. }
  destruct (starts_with (lit "false") (c :: s')) eqn:Hfalse.
  { apply (literal_progress (lit "false") _ Hfalse). simpl. lia. }
  destruct (match_number (c :: s')) as [[v rest]|] eqn:Hnum.
  { apply match_number_progress in Hnum. exact Hnum. }
  destruct (starts_with (lit "NaN") (c :: s')) eqn:Hnan.
  { apply (literal_progress (lit "NaN") _ Hnan). simpl. lia. }
  destruct (starts_with (lit "Infinity") (c :: s')) eqn:Hinf.
  { apply (literal_progress (lit "Infinity") _ Hinf). simpl. lia. }
  destruct (starts_with (lit "-Infinity") (c :: s')) eqn:Hninf.
  { apply (literal_progress (lit "-Infinity") _ Hninf). simpl. lia. }
  exact I.
Qed.

(** Every exception [json_loads] raises is a [JSONDecodeError]. *)
Lemma json_loads_raises (s : str) (e : exn) :
  json_loads s = Raise e -> exn_class_of e = JSONDecodeError.
Proof.
  assert (Hclass : forall msg doc pos,
             exn_class_of (json_decode_error msg doc pos) = JSONDecodeError).
  { intros msg doc pos. unfold json_decode_error.
    now destruct (line_col (firstn pos doc) 1 1). }
  unfold json_loads.
  pose proof (scan_once_progress (depth := S (length s)) (skip_ws s)) as Hp.
  pose proof (skip_ws_length s) as Hw.
  specialize (Hp ltac:(lia)).
  destruct (starts_with [65279%N] s); [intros [= <-]; apply Hclass|].
  destruct (scan_once (S (length s)) (skip_ws s)) as [obj rest| |];
    [| |contradiction].
  - destruct (skip_ws rest); [discriminate|]. intros [= <-]. apply Hclass.
  - intros [= <-]. apply Hclass.
Qed.

(** ** Parsing errors and construction errors (C5) *)

Lemma unpack_kwargs_raises (model : string) (v : value) (e : exn) :
  unpack_kwargs model v = Raise e -> exn_class_of e = TypeError.
Proof. destruct v; cbn; intros [= <-]; reflexivity. Qed.

Lemma construct_raises {A} (model : string) (c : checked A) (e : exn) :
  construct model c = Raise e -> exn_class_of e = ValidationError.
Proof. destruct c; cbn; intros [= <-]; reflexivity. Qed.




(** ** Initialisation (C8) *)

Lemma init_without_key (env : environ) :
  env (lit "OPENAI_API_KEY") = None \/ env (lit "OPENAI_API_KEY") = Some [] ->
  __init__ env
    = Raise (mk_exn ValueError
               (lit "OPENAI_API_KEY not found in environment variables")).
Proof. unfold __init__. intros [-> | ->]; reflexivity. Qed.

(** C8, as the code has it.  Without the key, or with an empty one,
    [TestCaseGenerator()] raises a [ValueError] and nothing else happens:
    whatever the service would answer, the [generate] command only reports
    it.  With a key, the model name, the temperature and the token limit are
    read (defaults ["gpt-3.5-turbo"], ["0.3"] and ["2000"]), and the
    generator is built from them provided the temperature reads as a
    [float] and the token limit as an [int]. *)
Theorem init_needs_key_and_numeric_settings (env : environ) :
  (env (lit "OPENAI_API_KEY") = None \/ env (lit "OPENAI_API_KEY") = Some [] ->
     __init__ env
       = Raise (mk_exn ValueError
                  (lit "OPENAI_API_KEY not found in environment variables"))
     /\ forall invoke format_instructions story criteria output,
          generate invoke format_instructions env story criteria output
            = EchoErr ([10060%N] ++ lit " Validation Error: "
                         ++ lit "OPENAI_API_KEY not found in environment variables") 1)
  /\ (forall key t n,
        env (lit "OPENAI_API_KEY") = Some key -> key <> [] ->
        py_float (getenv env "TEMPERATURE" "0.3") = Ok t ->
        py_int (getenv env "MAX_TOKENS" "2000") = Ok n ->
        __init__ env
          = Ok {| api_key := key;
                  model_name := getenv env "MODEL_NAME" "gpt-3.5-turbo";
                  temperature := t;
                  max_tokens := n;
                  llm := {| llm_model := getenv env "MODEL_NAME" "gpt-3.5-turbo";
                            llm_temperature := t;
                            llm_max_tokens := n;
                            openai_api_key := key |} |})
  /\ (forall key,
        env (lit "OPENAI_API_KEY") = Some key -> key <> [] ->
        env (lit "TEMPERATURE") = None ->
        env (lit "MAX_TOKENS") = None ->
        exists generator,
          __init__ env = Ok generator
          /\ api_key generator = key
          /\ model_name generator = getenv env "MODEL_NAME" "gpt-3.5-turbo"
          /\ temperature generator = float_dec false 3 (-1)
          /\ max_tokens generator = 2000%Z).
Proof.
  repeat split.
  - now apply init_without_key.
  - intros invoke format_instructions story criteria output.
    unfold generate. now rewrite (init_without_key env H).
  - intros key t n Hkey Hne Ht Hn. unfold __init__. rewrite Hkey.
    destruct key as [|c key]; [contradiction|].
    rewrite Ht, Hn. reflexivity.
  - intros key Hkey Hne Ht Hn. unfold __init__. rewrite Hkey.
    destruct key as [|c key]; [contradiction|].
    unfold getenv. rewrite Ht, Hn.
    eexists. split; [reflexivity|]. repeat split.
Qed.

Lemma init_needs_key_and_numeric_settings_witness :
  __init__ empty_env
    = Raise (mk_exn ValueError
               (lit "OPENAI_API_KEY not found in environment variables"))
  /\ __init__ test_env = Ok test_generator.
Proof.
  split.
  - apply (init_needs_key_and_numeric_settings empty_env). now left.
  - destruct (init_needs_key_and_numeric_settings test_env) as (_ & Hbuilt & _).
    apply (Hbuilt (lit "test-key") (float_dec false 3 (-1)) 2000%Z);
      solve [reflexivity | vm_compute; discriminate].
Defined.

(** The claim as the specification words it fails: with the key present,
    a temperature setting that is no number makes the initialisation
    raise. *)
Lemma init_fails_with_key_present :
  hot_env (lit "OPENAI_API_KEY") = Some (lit "test-key")
  /\ __init__ hot_env
     = Raise (mk_exn ValueError (lit "could not convert string to float: 'hot'")).
Proof. split; reflexivity. Qed.

(** ** The order of the renderings (C9) *)

Lemma occurs_in_order_later (pieces : list str) (skipped text : str) :
  occurs_in_order pieces text -> occurs_in_order pieces (skipped ++ text).
Proof.
  destruct pieces as [|p ps]; [trivial|].
  intros (before & after & -> & H).
  exists (skipped ++ before), after. now rewrite <- app_assoc.
Qed.

Lemma join_cons (sep line : str) (lines : list str) :
  join sep (line :: lines) =
  line ++ match lines with
          | [] => []
          | _ :: _ => sep ++ join sep lines
          end.
Proof. destruct lines; simpl; [now rewrite app_nil_r | reflexivity]. Qed.

Lemma embeds_none (pieces : list str) : embeds pieces [] -> pieces = [].
Proof. now inversion 1. Qed.

(** Pieces lying in the lines in order occur in order in their [join]. *)
Lemma embeds_join (sep : str) (pieces lines : list str) :
  embeds pieces lines -> occurs_in_order pieces (join sep lines).
Proof.
  induction 1 as [lines | pieces line lines H IH | piece pieces before after lines H IH].
  - exact I.
  - rewrite join_cons. apply occurs_in_order_later.
    destruct lines; [now rewrite (embeds_none H) | now apply occurs_in_order_later].
  - rewrite join_cons. cbn [occurs_in_order].
    exists before, (after ++ match lines with
                             | [] => []
                             | _ :: _ => sep ++ join sep lines
                             end).
    split; [now rewrite <- !app_assoc|].
    apply occurs_in_order_later.
    destruct lines; [now rewrite (embeds_none H) | now apply occurs_in_order_later].
Qed.

Lemma embeds_app (p1 l1 p2 l2 : list str) :
  embeds p1 l1 -> embeds p2 l2 -> embeds (p1 ++ p2) (l1 ++ l2).
Proof.
  intros H1 H2.
  induction H1 as [lines | pieces line lines H IH | piece pieces before after lines H IH].
  - induction lines; [exact H2 | now apply embeds_skip].
  - now apply embeds_skip.
  - now apply embeds_take.
Qed.

Lemma embeds_whole (line : str) (pieces lines : list str) :
  embeds pieces lines -> embeds (line :: pieces) (line :: lines).
Proof.
  intros H. rewrite <- (app_nil_r line) at 2.
  now apply (embeds_take line [] []).
Qed.

Lemma embeds_after (before piece : str) (pieces lines : list str) :
  embeds pieces lines -> embeds (piece :: pieces) ((before ++ piece) :: lines).
Proof.
  intros H. rewrite <- (app_nil_r piece) at 2.
  now apply (embeds_take piece before []).
Qed.

Lemma embeds_same (lines : list str) : embeds lines lines.
Proof. induction lines; [constructor | now apply embeds_whole]. Qed.

Lemma embeds_flat_map {A} (f g : A -> list str) (l : list A) :
  (forall x, embeds (f x) (g x)) -> embeds (flat_map f l) (flat_map g l).
Proof.
  intros H. induction l as [|x l IH]; simpl; [constructor|].
  now apply embeds_app.
Qed.

Lemma console_fields_embed (i : nat) (scenario : TestScenario) :
  embeds (console_fields i scenario) (console_scenario i scenario).
Proof.
  unfold console_fields, console_scenario. cbn [app].
  apply embeds_after, embeds_skip.
  do 3 apply embeds_whole.
  do 2 apply embeds_after.
  apply embeds_app; [apply embeds_same|]. cbn [app].
  apply embeds_after.
  apply embeds_app; [apply embeds_same|]. cbn [app].
  apply embeds_after. constructor.
Qed.

Lemma markdown_fields_embed (i : nat) (scenario : TestScenario) :
  embeds (markdown_fields i scenario) (markdown_scenario i scenario).
Proof.
  unfold markdown_fields, markdown_scenario. cbn [app].
  apply embeds_after.
  do 3 apply embeds_whole.
  do 2 apply embeds_after.
  apply embeds_app; [apply embeds_same|]. cbn [app].
  apply embeds_after.
  apply embeds_app; [apply embeds_same|]. cbn [app].
  apply embeds_after. constructor.
Qed.

Lemma console_id_embeds (i : nat) (scenario : TestScenario) :
  embeds [scenario_id scenario] (console_scenario i scenario).
Proof.
  unfold console_scenario. cbn [app].
  rewrite !app_assoc. apply embeds_after. constructor.
Qed.

Lemma flat_map_enumerate_ids {A} (f : A -> str) (l : list A) (start : nat) :
  flat_map (fun '(_, x) => [f x]) (enumerate l start) = map f l.
Proof.
  revert start. induction l as [|x l IH]; intros start; simpl; [reflexivity|].
  now rewrite IH.
Qed.

(** C9.  In the console rendering and in the Markdown rendering the
    scenarios follow the heading in the order of the list, and each shows,
    one after the other: its identifier, title, type, priority, description,
    every precondition as a bullet, every step with its number, and the
    expected result.  In the console rendering the heading
    ["TEST CASE GENERATOR RESULTS"] is followed by the identifiers in
    order; for scenarios [TC001] to [TC006] these six follow it. *)
Theorem renderings_keep_field_order (test_suite : TestSuite) :
  occurs_in_order
    (lit "TEST CASE GENERATOR RESULTS"
       :: flat_map (fun '(i, scenario) => console_fields i scenario)
            (enumerate (test_scenarios test_suite) 1))
    (_format_console test_suite)
  /\ occurs_in_order
       (lit "# Test Case Generator Results"
          :: flat_map (fun '(i, scenario) => markdown_fields i scenario)
               (enumerate (test_scenarios test_suite) 1))
       (_format_markdown test_suite)
  /\ occurs_in_order
       (lit "TEST CASE GENERATOR RESULTS"
          :: map scenario_id (test_scenarios test_suite))
       (_format_console test_suite)
  /\ (map scenario_id (test_scenarios test_suite)
        = map lit ["TC001"; "TC002"; "TC003"; "TC004"; "TC005"; "TC006"]%string ->
      occurs_in_order
        (map lit ["TEST CASE GENERATOR RESULTS";
                  "TC001"; "TC002"; "TC003"; "TC004"; "TC005"; "TC006"]%string)
        (_format_console test_suite)).
Proof.
  assert (Hids : occurs_in_order
                   (lit "TEST CASE GENERATOR RESULTS"
                      :: map scenario_id (test_scenarios test_suite))
                   (_format_console test_suite)).
  { unfold _format_console. apply embeds_join. cbn [app].
    apply embeds_skip, embeds_whole. do 5 apply embeds_skip.
    rewrite <- (flat_map_enumerate_ids scenario_id (test_scenarios test_suite) 1).
    apply embeds_flat_map. intros [i scenario]. apply console_id_embeds. }
  repeat split.
  - unfold _format_console. apply embeds_join. cbn [app].
    apply embeds_skip, embeds_whole. do 5 apply embeds_skip.
    apply embeds_flat_map. intros [i scenario]. apply console_fields_embed.
  - unfold _format_markdown. apply embeds_join. cbn [app].
    apply embeds_whole. do 3 apply embeds_skip.
    apply embeds_flat_map. intros [i scenario]. apply markdown_fields_embed.
  - exact Hids.
  - intros H. rewrite H in Hids. exact Hids.
Qed.

Lemma renderings_keep_field_order_witness :
  occurs_in_order
    (map lit ["TEST CASE GENERATOR RESULTS";
              "TC001"; "TC002"; "TC003"; "TC004"; "TC005"; "TC006"]%string)
    (_format_console six_scenario_suite).
Proof.
  apply (renderings_keep_field_order six_scenario_suite). reflexivity.
Defined.

(** ** The fence search (C4) *)

Lemma rmatch_lits (l : str) (p : list re_item) :
  forall s g,
    rmatch (map RLit l ++ p) s g =
    if starts_with l s then rmatch p (skipn (length l) s) g else None.
Proof.
  induction l as [|c l IH]; intros s g; [reflexivity|].
  destruct s as [|x s]; [reflexivity|].
  cbn [map app rmatch starts_with length skipn].
  rewrite (N.eqb_sym x c). destruct (c =? x)%N; [apply IH | reflexivity].
Qed.

Lemma contains_tail (p : str) (x : char) (s : str) :
  contains p (x :: s) = false -> contains p s = false.
Proof. cbn [contains]. intros H. now apply orb_false_iff in H as [_ H]. Qed.

Lemma contains_head (p s : str) :
  contains p s = false -> starts_with p s = false.
Proof. destruct s; cbn [contains]; intros H; now apply orb_false_iff in H as [H _]. Qed.

(** Without an opening fence in the text the search finds nothing. *)
Lemma re_search_no_fence (text : str) :
  contains fence_open text = false -> re_search fence_pattern text = None.
Proof.
  induction text as [|x text IH]; intros H; cbn [re_search];
    unfold fence_pattern; rewrite rmatch_lits, (contains_head _ _ H);
    [reflexivity|].
  apply IH. exact (contains_tail _ _ _ H).
Qed.

Lemma spaces_then_some (rest : str -> option str) (ws s : str) (g : str) :
  forallb is_space ws = true -> no_space_ahead s = true -> rest s = Some g ->
  spaces_then rest (ws ++ s) = Some g.
Proof.
  intros Hws Hs Hrest. induction ws as [|w ws IH]; cbn [app].
  - destruct s as [|c s]; cbn [spaces_then]; [exact Hrest|].
    cbn in Hs. apply negb_true_iff in Hs. now rewrite Hs.
  - cbn [forallb] in Hws. apply andb_true_iff in Hws as [Hw Hws].
    cbn [spaces_then]. now rewrite Hw, (IH Hws).
Qed.

Lemma fence_open_chars : fence_open = [96; 96; 96; 106; 115; 111; 110]%N.
Proof. reflexivity. Qed.

Lemma fence_close_chars : fence_close = [96; 96; 96]%N.
Proof. reflexivity. Qed.

(** The opening fence does not overlap itself: it cannot start inside a
    text [pre] without lying in [pre]. *)
Lemma fence_open_not_across (pre rest : str) :
  pre <> [] -> starts_with fence_open pre = false ->
  starts_with fence_open (pre ++ fence_open ++ rest) = false.
Proof.
  intros Hne H.
  rewrite fence_open_chars in *.
  destruct pre as [|c0 [|c1 [|c2 [|c3 [|c4 [|c5 [|c6 pre]]]]]]];
    [contradiction|..];
    cbn [starts_with app] in H |- *; case_eqb;
    solve [reflexivity | discriminate | exact H].
Qed.

(** Nor does the closing fence start in a text that holds none and does
    not end with a backtick. *)
Lemma fence_close_not_across (body rest : str) :
  body <> [] -> closed_by_fence body = true ->
  starts_with fence_close (body ++ rest) = false.
Proof.
  intros Hne H. unfold closed_by_fence in H.
  apply andb_true_iff in H as [H Hlast]. apply andb_true_iff in H as [H _].
  apply negb_true_iff in H, Hlast. apply contains_head in H.
  rewrite fence_close_chars in *.
  destruct body as [|c0 [|c1 [|c2 body]]]; [contradiction|..];
    cbn [starts_with app last] in H, Hlast |- *; case_eqb;
    solve [reflexivity | discriminate | exact H].
Qed.

Lemma closed_by_fence_tail (x : char) (body : str) :
  body <> [] -> closed_by_fence (x :: body) = true -> closed_by_fence body = true.
Proof.
  intros Hne. unfold closed_by_fence.
  destruct body as [|y body]; [contradiction|].
  change (last (x :: y :: body) 0%N) with (last (y :: body) 0%N).
  intros H. apply andb_true_iff in H as [H H3]. apply andb_true_iff in H as [H1 H2].
  rewrite H2, H3, !andb_true_r.
  apply negb_true_iff in H1. apply contains_tail in H1. now rewrite H1.
Qed.

(** Before the end of such a text, [\s*] and the closing fence fail. *)
Lemma spaces_then_close_fails (g : str) (body : str) :
  forall rest,
    body <> [] -> closed_by_fence body = true ->
    spaces_then (fun s' => rmatch (map RLit fence_close) s' g) (body ++ rest) = None.
Proof.
  induction body as [|x body IH]; intros rest Hne Hc; [contradiction|].
  assert (Hhere : rmatch (map RLit fence_close) ((x :: body) ++ rest) g = None).
  { rewrite <- (app_nil_r (map RLit fence_close)), rmatch_lits.
    now rewrite fence_close_not_across. }
  cbn [app spaces_then]. cbn [app] in Hhere. rewrite Hhere.
  destruct (is_space x) eqn:Hx; [|reflexivity].
  destruct body as [|y body].
  - unfold closed_by_fence in Hc. cbn [last] in Hc. rewrite Hx in Hc.
    rewrite andb_false_r in Hc. discriminate.
  - rewrite IH; [reflexivity | discriminate |].
    now apply closed_by_fence_tail in Hc.
Qed.

(** So the lazy group runs to the end of the text, and stops there when
    blanks and the closing fence follow. *)
Lemma lazy_then_body (body : str) :
  forall taken ws post,
    body = [] \/ closed_by_fence body = true ->
    forallb is_space ws = true ->
    lazy_then (fun s' g => rmatch (RSpaces :: map RLit fence_close) s' g)
      (body ++ ws ++ fence_close ++ post) taken
    = Some (rev taken ++ body).
Proof.
  induction body as [|x body IH]; intros taken ws post Hc Hws.
  - cbn [app]. rewrite app_nil_r.
    assert (Hend : rmatch (RSpaces :: map RLit fence_close)
                     (ws ++ fence_close ++ post) (rev taken) = Some (rev taken)).
    { cbn [rmatch]. apply spaces_then_some; [exact Hws | reflexivity |].
      rewrite <- (app_nil_r (map RLit fence_close)), rmatch_lits.
      now rewrite starts_with_app. }
    destruct (ws ++ fence_close ++ post); cbn [lazy_then]; now rewrite Hend.
  - destruct Hc as [Hc|Hc]; [discriminate|].
    cbn [app lazy_then rmatch].
    change (x :: body ++ ws ++ fence_close ++ post)
      with ((x :: body) ++ (ws ++ fence_close ++ post)).
    rewrite spaces_then_close_fails; [|discriminate|exact Hc].
    cbn [app]. rewrite IH; [|
      destruct body; [now left | right; now apply closed_by_fence_tail in Hc] |
      exact Hws].
    cbn [rev]. now rewrite <- app_assoc.
Qed.

(** The match at the opening fence. *)
Lemma rmatch_fenced (ws1 body ws2 post : str) :
  forallb is_space ws1 = true -> forallb is_space ws2 = true ->
  body <> [] -> no_space_ahead body = true -> closed_by_fence body = true ->
  rmatch fence_pattern (fence_open ++ ws1 ++ body ++ ws2 ++ fence_close ++ post) []
  = Some body.
Proof.
  intros H1 H2 Hne Hs Hc. unfold fence_pattern.
  rewrite rmatch_lits, starts_with_app.
  replace (skipn (length fence_open)
             (fence_open ++ ws1 ++ body ++ ws2 ++ fence_close ++ post))
    with (ws1 ++ body ++ ws2 ++ fence_close ++ post)
    by (now rewrite skipn_app, skipn_all, Nat.sub_diag).
  cbn [app rmatch].
  apply spaces_then_some; [exact H1 | |].
  - destruct body; [contradiction | exact Hs].
  - fold (rmatch (RSpaces :: map RLit fence_close)).
    apply lazy_then_body with (taken := []); [now right | exact H2].
Qed.

(** The search in a reply with one fenced block after a text without
    opening fence. *)
Lemma re_search_fenced (pre ws1 body ws2 post : str) :
  contains fence_open pre = false ->
  forallb is_space ws1 = true -> forallb is_space ws2 = true ->
  body <> [] -> no_space_ahead body = true -> closed_by_fence body = true ->
  re_search fence_pattern
    (pre ++ fence_open ++ ws1 ++ body ++ ws2 ++ fence_close ++ post)
  = Some body.
Proof.
  intros Hpre H1 H2 Hne Hs Hc.
  induction pre as [|x pre IH].
  - cbn [app].
    assert (Hm := rmatch_fenced ws1 ws2 post H1 H2 Hne Hs Hc).
    destruct (fence_open ++ ws1 ++ body ++ ws2 ++ fence_close ++ post);
      cbn [re_search]; now rewrite Hm.
  - cbn [app re_search]. unfold fence_pattern at 1.
    rewrite rmatch_lits.
    change (x :: pre ++ fence_open ++ ws1 ++ body ++ ws2 ++ fence_close ++ post)
      with ((x :: pre) ++ fence_open ++ ws1 ++ body ++ ws2 ++ fence_close ++ post).
    rewrite fence_open_not_across;
      [| discriminate | now apply contains_head].
    apply IH. exact (contains_tail _ _ _ Hpre).
Qed.

(** ** What the fence search finds *)

Lemma starts_with_split (p s : str) :
  starts_with p s = true -> s = p ++ skipn (length p) s.
Proof.
  revert s. induction p as [|a p IH]; intros s; [reflexivity|].
  destruct s as [|b s]; cbn [starts_with]; [discriminate|].
  intros H. apply andb_true_iff in H as [Hab H].
  apply N.eqb_eq in Hab as ->. cbn [app length skipn]. f_equal. now apply IH.
Qed.

Lemma spaces_then_found (rest : str -> option str) (s g : str) :
  spaces_then rest s = Some g ->
  exists ws s', s = ws ++ s' /\ forallb is_space ws = true /\ rest s' = Some g.
Proof.
  induction s as [|x s IH]; cbn [spaces_then]; intros H.
  - now exists [], [].
  - destruct (is_space x) eqn:Hx; [|now exists [], (x :: s)].
    destruct (spaces_then rest s) as [g'|] eqn:Hs; [|now exists [], (x :: s)].
    destruct (IH H) as (ws & s' & -> & Hws & Hrest).
    exists (x :: ws), s'. cbn [forallb]. now rewrite Hx.
Qed.

Lemma lazy_then_found (rest : str -> str -> option str) (s : str) :
  forall taken g,
    lazy_then rest s taken = Some g ->
    exists body s', s = body ++ s' /\ rest s' (rev taken ++ body) = Some g.
Proof.
  induction s as [|x s IH]; intros taken g; cbn [lazy_then].
  - destruct (rest [] (rev taken)) as [g'|] eqn:Hr; [|discriminate].
    intros H. exists [], []. split; [reflexivity|].
    rewrite app_nil_r. congruence.
  - destruct (rest (x :: s) (rev taken)) as [g'|] eqn:Hr.
    + intros H. exists [], (x :: s). split; [reflexivity|].
      rewrite app_nil_r. congruence.
    + intros H. destruct (IH _ _ H) as (body & s' & -> & Hrest).
      exists (x :: body), s'. cbn [rev] in Hrest.
      now rewrite <- app_assoc in Hrest.
Qed.

(** Whatever the search finds lies between an opening fence with the
    [json] tag and a closing fence, blanks apart. *)
Lemma re_search_found (text group1 : str) :
  re_search fence_pattern text = Some group1 ->
  exists pre ws1 ws2 post,
    text = pre ++ fence_open ++ ws1 ++ group1 ++ ws2 ++ fence_close ++ post
    /\ forallb is_space ws1 = true /\ forallb is_space ws2 = true.
Proof.
  assert (Hhere : forall s g,
             rmatch fence_pattern s [] = Some g ->
             exists ws1 ws2 post,
               s = fence_open ++ ws1 ++ g ++ ws2 ++ fence_close ++ post
               /\ forallb is_space ws1 = true /\ forallb is_space ws2 = true).
  { intros s g H. unfold fence_pattern in H. rewrite rmatch_lits in H.
    destruct (starts_with fence_open s) eqn:Hs; [|discriminate].
    apply starts_with_split in Hs. rewrite Hs.
    cbn [app rmatch] in H.
    apply spaces_then_found in H as (ws1 & s1 & -> & Hws1 & H).
    apply lazy_then_found in H as (body & s2 & -> & H). cbn [rev app] in H.
    apply spaces_then_found in H as (ws2 & s3 & -> & Hws2 & H).
    rewrite <- (app_nil_r (map RLit fence_close)), rmatch_lits in H.
    destruct (starts_with fence_close s3) eqn:Hs3; [|discriminate].
    cbn [rmatch] in H. injection H as <-.
    apply starts_with_split in Hs3.
    exists ws1, ws2, (skipn (length fence_close) s3).
    now rewrite <- Hs3. }
  induction text as [|x text IH]; cbn [re_search]; intros H.
  - destruct (rmatch fence_pattern [] []) as [g|] eqn:Hm; [|discriminate].
    injection H as ->. destruct (Hhere _ _ Hm) as (ws1 & ws2 & post & Heq & H1 & H2).
    now exists [], ws1, ws2, post.
  - destruct (rmatch fence_pattern (x :: text) []) as [g|] eqn:Hm.
    + injection H as ->. destruct (Hhere _ _ Hm) as (ws1 & ws2 & post & Heq & H1 & H2).
      now exists [], ws1, ws2, post.
    + destruct (IH H) as (pre & ws1 & ws2 & post & -> & H1 & H2).
      now exists (x :: pre), ws1, ws2, post.
Qed.

Lemma starts_with_prefix (p q s : str) :
  starts_with (p ++ q) s = true -> starts_with p s = true.
Proof.
  revert s. induction p as [|a p IH]; intros s; [reflexivity|].
  destruct s as [|b s]; cbn [app starts_with]; [discriminate|].
  intros H. apply andb_true_iff in H as [Hab H].
  now rewrite Hab, (IH _ H).
Qed.

Lemma contains_longer (p q s : str) :
  contains p s = false -> contains (p ++ q) s = false.
Proof.
  induction s as [|x s IH]; cbn [contains]; intros H;
    apply orb_false_iff in H as [Hh Ht]; apply orb_false_iff; split;
    try (destruct (starts_with (p ++ q) _) eqn:E; [|reflexivity];
         apply starts_with_prefix in E; congruence);
    auto.
Qed.

(** A text without closing fence is its own extracted text. *)
Lemma extracted_json_unfenced (text : str) :
  contains fence_open text = false -> extracted_json text = text.
Proof.
  intros H. unfold extracted_json. now rewrite re_search_no_fence.
Qed.




(** ** Decoding what the serializer writes (C3) *)

(** *** Integers *)

Lemma digits_value_app (a b : str) (acc : N) :
  digits_value (a ++ b) acc = digits_value b (digits_value a acc).
Proof. revert acc. induction a as [|c a IH]; intros acc; simpl; [reflexivity | apply IH]. Qed.

Lemma digits_fuel_value (fuel : nat) :
  forall n acc,
    (n < 2 ^ N.of_nat fuel)%N ->
    digits_value (digits_fuel fuel n acc) 0 = digits_value acc n.
Proof.
  induction fuel as [|fuel IH]; intros n acc Hn.
  - cbn in Hn. replace n with 0%N by lia. reflexivity.
  - cbn [digits_fuel]. destruct (N.ltb_spec n 10) as [Hlt|Hge].
    + cbn [digits_value]. f_equal. rewrite N.mod_small by lia. lia.
    + rewrite IH.
      * cbn [digits_value]. f_equal.
        pose proof (N.div_mod n 10 ltac:(lia)) as H.
        revert H. generalize (n / 10)%N, (n mod 10)%N. intros q r H. lia.
      * rewrite Nat2N.inj_succ, N.pow_succ_r' in Hn.
        apply N.Div0.div_lt_upper_bound. lia.
Qed.

Lemma digits_fuel_all_digits (fuel : nat) :
  forall n acc,
    forallb is_digit acc = true -> forallb is_digit (digits_fuel fuel n acc) = true.
Proof.
  induction fuel as [|fuel IH]; intros n acc Hacc; [exact Hacc|].
  cbn [digits_fuel].
  assert (Hd : is_digit (48 + n mod 10)%N = true).
  { unfold is_digit. pose proof (N.mod_upper_bound n 10 ltac:(lia)) as Hm.
    revert Hm. generalize (n mod 10)%N. intros r Hm.
    apply andb_true_iff. split; apply N.leb_le; lia. }
  destruct (n <? 10)%N.
  - cbn [forallb]. now rewrite Hd.
  - apply IH. cbn [forallb]. now rewrite Hd.
Qed.

(** The first digit written for a positive number is not a zero. *)
Lemma digits_fuel_head (fuel : nat) :
  forall n acc,
    (0 < n < 2 ^ N.of_nat fuel)%N ->
    exists d ds, digits_fuel fuel n acc = d :: ds /\ (49 <= d <= 57)%N.
Proof.
  induction fuel as [|fuel IH]; intros n acc Hn.
  - cbn in Hn. lia.
  - cbn [digits_fuel]. destruct (N.ltb_spec n 10) as [Hlt|Hge].
    + eexists _, _. split; [reflexivity|]. rewrite N.mod_small by lia. lia.
    + apply IH. rewrite Nat2N.inj_succ, N.pow_succ_r' in Hn. split.
      * apply N.div_str_pos. lia.
      * apply N.Div0.div_lt_upper_bound. lia.
Qed.

Lemma digits_enough_fuel (n : N) : (n < 2 ^ N.of_nat (S (N.to_nat (N.log2 n))))%N.
Proof.
  rewrite Nat2N.inj_succ, N2Nat.id.
  destruct n as [|p]; [reflexivity|].
  apply N.log2_spec. lia.
Qed.

Lemma digits_value_digits (n : N) : digits_value (digits n) 0 = n.
Proof. unfold digits. now rewrite digits_fuel_value by apply digits_enough_fuel. Qed.

Lemma digits_all_digits (n : N) : forallb is_digit (digits n) = true.
Proof. now apply digits_fuel_all_digits. Qed.

Lemma digits_head (n : N) :
  (0 < n)%N -> exists d ds, digits n = d :: ds /\ (49 <= d <= 57)%N.
Proof.
  intros Hn. apply digits_fuel_head. split; [exact Hn | apply digits_enough_fuel].
Qed.

Lemma span_digits_all (ds rest : str) :
  forallb is_digit ds = true -> ends_number rest = true ->
  span_digits (ds ++ rest) = (ds, rest).
Proof.
  intros Hds Hrest. induction ds as [|d ds IH]; cbn [app].
  - destruct rest as [|c rest]; [reflexivity|]. cbn [span_digits].
    cbn in Hrest. destruct (is_digit c); [discriminate | reflexivity].
  - cbn [forallb] in Hds. apply andb_true_iff in Hds as [Hd Hds].
    cbn [span_digits]. now rewrite Hd, (IH Hds).
Qed.

(** The number scanner reads back the digits of a natural number. *)
Lemma match_unsigned_digits (neg : bool) (n : N) (rest : str) :
  ends_number rest = true ->
  match_unsigned neg (digits n ++ rest)
  = Some (VInt (if neg then (- Z.of_N n)%Z else Z.of_N n), rest).
Proof.
  intros Hrest.
  assert (Htail : forall int_ds,
             (let (frac, s3) :=
                match rest with
                | c :: r =>
                    if (c =? 46)%N then
                      match span_digits r with
                      | ([], _) => (None, rest)
                      | (ds, r') => (Some ds, r')
                      end
                    else (None, rest)
                | [] => (@None str, rest)
                end in
              let (exp, s4) :=
                match s3 with
                | c :: r =>
                    if ((c =? 101) || (c =? 69))%N then
                      let (eneg, r1) :=
                        match r with
                        | g :: r0 =>
                            if (g =? 45)%N then (true, r0)
                            else if (g =? 43)%N then (false, r0)
                            else (false, r)
                        | [] => (false, r)
                        end in
                      match span_digits r1 with
                      | ([], _) => (None, s3)
                      | (ds, r') =>
                          let e := Z.of_N (digits_value ds 0) in
                          (Some (if eneg then (- e)%Z else e), r')
                      end
                    else (None, s3)
                | [] => (@None Z, s3)
                end in
              match frac, exp with
              | None, None =>
                  let n := Z.of_N (digits_value int_ds 0) in
                  Some (VInt (if neg then (- n)%Z else n), s4)
              | _, _ =>
                  let fr := match frac with Some ds => ds | None => [] end in
                  let e := match exp with Some e => e | None => 0%Z end in
                  Some (VFloat (float_dec neg (digits_value (int_ds ++ fr) 0)
                                  (e - Z.of_nat (length fr))), s4)
              end)
             = Some (VInt (if neg then (- Z.of_N (digits_value int_ds 0))%Z
                           else Z.of_N (digits_value int_ds 0)), rest)).
  { intros int_ds. destruct rest as [|c r]; [reflexivity|]. cbn in Hrest.
    destruct (is_digit c), (c =? 46)%N, (c =? 101)%N, (c =? 69)%N;
      try discriminate; reflexivity. }
  destruct (N.eq_dec n 0) as [->|Hn].
  - change (digits 0) with [48%N]. unfold match_unsigned. cbn [app].
    change (48 =? 48)%N with true. cbv iota.
    exact (Htail [48%N]).
  - destruct (digits_head (n := n) ltac:(lia)) as (d & ds & Hd & Hrange).
    pose proof (digits_all_digits n) as Hall. pose proof (digits_value_digits n) as Hval.
    rewrite Hd in Hall, Hval |- *. cbn [forallb] in Hall.
    apply andb_true_iff in Hall as [Hdd Hds].
    unfold match_unsigned. cbn [app].
    replace (d =? 48)%N with false by (symmetry; apply N.eqb_neq; lia).
    rewrite Hdd, (span_digits_all _ _ Hds Hrest).
    rewrite <- Hval. exact (Htail (d :: ds)).
Qed.

(** What [str(z)] starts with. *)
Lemma str_of_Z_head (z : Z) :
  exists c t, str_of_Z z = c :: t /\ (is_digit c = true \/ c = 45%N).
Proof.
  assert (Hd : forall n, exists c t, digits n = c :: t /\ is_digit c = true).
  { intros n. pose proof (digits_all_digits n) as Hall.
    destruct (N.eq_dec n 0) as [->|Hn]; [now exists 48%N, []|].
    destruct (digits_head (n := n) ltac:(lia)) as (d & ds & Hd & _).
    rewrite Hd in Hall. cbn [forallb] in Hall. apply andb_true_iff in Hall as [Hdd _].
    now exists d, ds. }
  destruct z as [|p|p]; cbn [str_of_Z].
  - destruct (Hd (Z.to_N 0)) as (c & t & -> & H). eauto.
  - destruct (Hd (Z.to_N (Z.pos p))) as (c & t & -> & H). eauto.
  - eauto.
Qed.

(** The number scanner reads back [str(z)]. *)
Lemma match_number_str_of_Z (z : Z) (rest : str) :
  ends_number rest = true ->
  match_number (str_of_Z z ++ rest) = Some (VInt z, rest).
Proof.
  intros Hrest. destruct z as [|p|p]; cbn [str_of_Z].
  - exact (match_unsigned_digits false 0 rest Hrest).
  - change (Z.to_N (Z.pos p)) with (N.pos p).
    pose proof (match_unsigned_digits false (N.pos p) rest Hrest) as H.
    destruct (digits_head (n := N.pos p) ltac:(lia)) as (d & ds & Hd & Hrange).
    rewrite Hd in H |- *. unfold match_number. cbn [app] in H |- *.
    replace (d =? 45)%N with false by (symmetry; apply N.eqb_neq; lia).
    exact H.
  - unfold match_number. cbn [app]. change (45 =? 45)%N with true. cbv iota.
    exact (match_unsigned_digits true (N.pos p) rest Hrest).
Qed.

(** *** Strings *)

Lemma hex_digit_hex_char (n : N) : (n < 16)%N -> hex_digit (hex_char n) = Some n.
Proof.
  intros Hn.
  destruct n as [|p]; [reflexivity|].
  do 4 (destruct p as [p|p|]; try reflexivity; try lia).
Qed.

(** One round of [scanstring] reads back one escaped character. *)
Lemma scanstring_escape_char (c : char) (rounds begin : nat) (tail chunks : str) :
  scanstring (S rounds) begin (escape_char c ++ tail) chunks
  = scanstring rounds begin tail (c :: chunks).
Proof.
  unfold escape_char.
  destruct (N.eqb_spec c 34) as [->|H34]; [reflexivity|].
  destruct (N.eqb_spec c 92) as [->|H92]; [reflexivity|].
  destruct (N.eqb_spec c 8) as [->|H8]; [reflexivity|].
  destruct (N.eqb_spec c 12) as [->|H12]; [reflexivity|].
  destruct (N.eqb_spec c 10) as [->|H10]; [reflexivity|].
  destruct (N.eqb_spec c 13) as [->|H13]; [reflexivity|].
  destruct (N.eqb_spec c 9) as [->|H9]; [reflexivity|].
  destruct (N.ltb_spec c 32) as [Hlt|Hge].
  - cbn [app scanstring].
    change (92 =? 34)%N with false. change (92 =? 92)%N with true.
    change (117 =? 117)%N with true. cbv iota.
    unfold decode_uXXXX. change (hex_digit 48%N) with (Some 0%N).
    assert (Hq : (c / 16 < 16)%N) by (apply N.Div0.div_lt_upper_bound; lia).
    assert (Hr : (c mod 16 < 16)%N) by (apply N.mod_upper_bound; lia).
    rewrite (hex_digit_hex_char Hq), (hex_digit_hex_char Hr).
    replace ((((0 * 16 + 0) * 16 + c / 16) * 16 + c mod 16)%N) with c.
    + replace (55296 <=? c)%N with false by (symmetry; apply N.leb_gt; lia).
      reflexivity.
    + pose proof (N.div_mod c 16 ltac:(lia)) as H.
      revert H. generalize (c / 16)%N, (c mod 16)%N. intros q r H. lia.
  - cbn [app scanstring].
    replace (c =? 34)%N with false by (symmetry; now apply N.eqb_neq).
    replace (c =? 92)%N with false by (symmetry; now apply N.eqb_neq).
    replace (c <? 32)%N with false by (symmetry; apply N.ltb_ge; lia).
    reflexivity.
Qed.

(** [scanstring] reads back a written string up to its closing quote. *)
Lemma scanstring_written (s : str) :
  forall rounds begin rest chunks,
    length s < rounds ->
    scanstring rounds begin (flat_map escape_char s ++ 34%N :: rest) chunks
    = Scanned (rev chunks ++ s) rest.
Proof.
  induction s as [|c s IH]; intros rounds begin rest chunks Hr;
    (destruct rounds as [|rounds]; [simpl in Hr; lia|]).
  - cbn [flat_map app scanstring]. change (34 =? 34)%N with true. cbv iota.
    now rewrite app_nil_r.
  - cbn [flat_map]. rewrite <- app_assoc, scanstring_escape_char.
    rewrite IH by (simpl in Hr; lia). cbn [rev]. now rewrite <- app_assoc.
Qed.

Lemma escape_char_length (c : char) : 1 <= length (escape_char c).
Proof.
  unfold escape_char.
  repeat match goal with
         | |- context [if ?b then _ else _] => destruct b
         end; simpl; lia.
Qed.

Lemma flat_map_escape_length (s : str) : length s <= length (flat_map escape_char s).
Proof.
  induction s as [|c s IH]; simpl; [lia|].
  rewrite length_app. pose proof (escape_char_length c). lia.
Qed.

(** With the rounds [scan_once] and [object_items] give it. *)
Lemma scanstring_write_str (s rest : str) (begin : nat) :
  scanstring (length (flat_map escape_char s ++ 34%N :: rest)) begin
    (flat_map escape_char s ++ 34%N :: rest) []
  = Scanned s rest.
Proof.
  rewrite scanstring_written; [reflexivity|].
  rewrite length_app. pose proof (flat_map_escape_length s). simpl. lia.
Qed.

(** *** Values *)

Lemma value_ind (P : value -> Prop) :
  P VNone ->
  (forall b, P (VBool b)) ->
  (forall z, P (VInt z)) ->
  (forall x, P (VFloat x)) ->
  (forall s, P (VStr s)) ->
  (forall l, Forall P l -> P (VList l)) ->
  (forall items, Forall (fun item => P (snd item)) items -> P (VDict items)) ->
  forall v, P v.
Proof.
  intros HN HB HI HF HS HL HD.
  refine (fix IH (v : value) : P v :=
            match v with
            | VNone => HN
            | VBool b => HB b
            | VInt z => HI z
            | VFloat x => HF x
            | VStr s => HS s
            | VList l =>
                HL l ((fix all (l : list value) : Forall P l :=
                         match l with
                         | [] => Forall_nil P
                         | x :: l' => Forall_cons x (IH x) (all l')
                         end) l)
            | VDict items =>
                HD items
                  ((fix all (l : list (str * value))
                      : Forall (fun item => P (snd item)) l :=
                      match l with
                      | [] => Forall_nil _
                      | item :: l' =>
                          @Forall_cons _ (fun item => P (snd item)) item l'
                            (IH (snd item)) (all l')
                      end) items)
            end).
Qed.

Lemma value_start_cases (c : char) :
  value_start c = true ->
  (48 <= c <= 57 \/ c = 45 \/ c = 34 \/ c = 91 \/ c = 123
   \/ c = 110 \/ c = 116 \/ c = 102)%N.
Proof.
  unfold value_start, is_digit.
  rewrite !orb_true_iff, andb_true_iff, !N.leb_le, !N.eqb_eq. lia.
Qed.

Lemma value_start_not_ws (c : char) : value_start c = true -> is_json_ws c = false.
Proof.
  intros H. apply value_start_cases in H. apply not_true_is_false. intros Hws.
  unfold is_json_ws in Hws. rewrite !orb_true_iff, !N.eqb_eq in Hws. lia.
Qed.

Lemma value_start_not (c k : char) :
  value_start c = true -> value_start k = false -> (c =? k)%N = false.
Proof.
  intros H Hk. apply N.eqb_neq. intros ->. congruence.
Qed.

Lemma write_value_head (w level : nat) (v : value) :
  plain v = true ->
  exists c t, write_value w level v = c :: t /\ value_start c = true.
Proof.
  destruct v as [ | b | z | x | s | l | items]; intros Hp.
  - now exists 110%N, (lit "ull").
  - destruct b; [now exists 116%N, (lit "rue") | now exists 102%N, (lit "alse")].
  - destruct (str_of_Z_head z) as (c & t & Hz & Hc).
    exists c, t. split; [exact Hz|].
    unfold value_start. destruct Hc as [-> | ->]; [reflexivity|reflexivity].
  - discriminate.
  - eexists 34%N, _. split; reflexivity.
  - destruct l; eexists 91%N, _; split; reflexivity.
  - destruct items as [|[k x] items]; eexists 123%N, _; split; reflexivity.
Qed.

Lemma skip_ws_stop (c : char) (t : str) :
  is_json_ws c = false -> skip_ws (c :: t) = c :: t.
Proof. intros H. cbn [skip_ws]. now rewrite H. Qed.

Lemma skip_ws_spaces (n : nat) (s : str) : skip_ws (times 32%N n ++ s) = skip_ws s.
Proof. induction n as [|n IH]; [reflexivity | exact IH]. Qed.

Lemma skip_ws_line (n : nat) (s : str) :
  skip_ws (nl ++ times 32%N n ++ s) = skip_ws s.
Proof. cbn [nl app skip_ws]. change (is_json_ws 10%N) with true. apply skip_ws_spaces. Qed.

Lemma skip_ws_value (w level : nat) (v : value) (tail : str) :
  plain v = true ->
  skip_ws (write_value w level v ++ tail) = write_value w level v ++ tail.
Proof.
  intros Hp. destruct (write_value_head w level v Hp) as (c & t & -> & Hc).
  apply skip_ws_stop. now apply value_start_not_ws.
Qed.

Lemma write_str_app (k tail : str) :
  write_str k ++ tail = 34%N :: flat_map escape_char k ++ 34%N :: tail.
Proof. unfold write_str. cbn [app]. now rewrite <- app_assoc. Qed.

Lemma ends_number_separator (w level : nat) (l : list value) (pad rest : str) :
  ends_number (more_values w level l ++ nl ++ pad ++ rest) = true.
Proof. destruct l; reflexivity. Qed.

Lemma ends_number_pair_separator (w level : nat) (l : list (str * value))
  (pad rest : str) :
  ends_number (more_pairs w level l ++ nl ++ pad ++ rest) = true.
Proof. destruct l; reflexivity. Qed.

Section WrittenItems.

Variable scan : str -> scan value.
Variables bound w level : nat.

Lemma more_values_cons (y : value) (l : list value) (tail : str) :
  more_values w level (y :: l) ++ tail
  = 44%N :: nl ++ times 32%N (w * level) ++ write_value w level y
      ++ more_values w level l ++ tail.
Proof.
  unfold more_values. cbn [map concat]. change (lit ",") with [44%N].
  now rewrite <- !app_assoc.
Qed.

Lemma more_pairs_cons (k : str) (y : value) (l : list (str * value)) (tail : str) :
  more_pairs w level ((k, y) :: l) ++ tail
  = 44%N :: nl ++ times 32%N (w * level)
      ++ 34%N :: flat_map escape_char k
      ++ 34%N :: 58%N :: 32%N :: write_value w level y
      ++ more_pairs w level l ++ tail.
Proof.
  unfold more_pairs. cbn [map concat fst snd]. change (lit ",") with [44%N].
  change (lit ": ") with [58%N; 32%N].
  rewrite <- !app_assoc. cbn [app]. rewrite write_str_app. reflexivity.
Qed.

(** The loop of [JSONArray] reads back the items of a written array. *)
Lemma array_items_written (l : list value) :
  forall x values rounds n0 rest,
    Forall (fun y => plain y = true /\ reads scan bound w level y) (x :: l) ->
    length (write_value w level x ++ more_values w level l
              ++ nl ++ times 32%N n0 ++ 93%N :: rest) <= bound ->
    length (write_value w level x ++ more_values w level l
              ++ nl ++ times 32%N n0 ++ 93%N :: rest) <= rounds ->
    array_items scan rounds
      (write_value w level x ++ more_values w level l
         ++ nl ++ times 32%N n0 ++ 93%N :: rest) values
    = Scanned (VList (rev values ++ x :: l)) rest.
Proof.
  induction l as [|y l IH]; intros x values rounds n0 rest HF Hb Hr;
    inversion HF as [|? ? [Hpx Hrx] HF']; subst;
    (destruct rounds as [|rounds]; [exfalso; clear - Hr; lengths|]);
    cbn [array_items].
  - rewrite Hrx; [|reflexivity|exact Hb].
    cbn [more_values map concat app]. rewrite skip_ws_line.
    rewrite skip_ws_stop by reflexivity.
    change (93 =? 93)%N with true. cbv iota. reflexivity.
  - rewrite Hrx; [|apply ends_number_separator|exact Hb].
    rewrite more_values_cons. rewrite skip_ws_stop by reflexivity.
    change (44 =? 93)%N with false. change (44 =? 44)%N with true. cbv iota.
    inversion HF' as [|? ? [Hpy Hry] HF'']; subst.
    rewrite skip_ws_line, skip_ws_value by exact Hpy.
    rewrite more_values_cons in Hb, Hr.
    rewrite IH; [|exact HF'| |].
    + cbn [rev]. now rewrite <- app_assoc.
    + clear - Hb. lengths.
    + clear - Hr. lengths.
Qed.

(** The loop of [JSONObject] reads back the items of a written object. *)
Lemma object_items_written (l : list (str * value)) :
  forall k x pairs rounds n0 rest,
    Forall (fun item => plain (snd item) = true
                        /\ reads scan bound w level (snd item)) ((k, x) :: l) ->
    length (flat_map escape_char k ++ 34%N :: 58%N :: 32%N :: write_value w level x
              ++ more_pairs w level l ++ nl ++ times 32%N n0 ++ 125%N :: rest)
      <= bound ->
    length (flat_map escape_char k ++ 34%N :: 58%N :: 32%N :: write_value w level x
              ++ more_pairs w level l ++ nl ++ times 32%N n0 ++ 125%N :: rest)
      < rounds ->
    object_items scan rounds
      (flat_map escape_char k ++ 34%N :: 58%N :: 32%N :: write_value w level x
         ++ more_pairs w level l ++ nl ++ times 32%N n0 ++ 125%N :: rest) pairs
    = Scanned (VDict (rev pairs ++ (k, x) :: l)) rest.
Proof.
  induction l as [|[k' y] l IH]; intros k x pairs rounds n0 rest HF Hb Hr;
    inversion HF as [|? ? [Hpx Hrx] HF']; subst; cbn [snd] in Hpx, Hrx;
    (destruct rounds as [|rounds]; [lia|]);
    cbn [object_items]; rewrite scanstring_write_str;
    change (58 =? 58)%N with true; cbv iota;
    change (skip_ws (32%N :: ?t)) with (skip_ws t);
    rewrite skip_ws_value by exact Hpx.
  - rewrite Hrx; [|reflexivity|clear - Hb; lengths].
    cbn [more_pairs map concat app]. rewrite skip_ws_line.
    rewrite skip_ws_stop by reflexivity.
    change (125 =? 125)%N with true. cbv iota. reflexivity.
  - rewrite Hrx; [|apply ends_number_pair_separator|clear - Hb; lengths].
    rewrite more_pairs_cons. rewrite skip_ws_stop by reflexivity.
    change (44 =? 125)%N with false. change (44 =? 44)%N with true. cbv iota.
    rewrite skip_ws_line, skip_ws_stop by reflexivity.
    change (34 =? 34)%N with true. cbv iota.
    rewrite more_pairs_cons in Hb, Hr.
    rewrite IH; [|exact HF'| |].
    + cbn [rev]. now rewrite <- app_assoc.
    + clear - Hb. lengths.
    + clear - Hr. lengths.
Qed.

End WrittenItems.

Lemma write_list_cons (w level : nat) (x : value) (l : list value) (rest : str) :
  write_value w level (VList (x :: l)) ++ rest
  = 91%N :: nl ++ times 32%N (w * S level)
      ++ write_value w (S level) x ++ more_values w (S level) l
      ++ nl ++ times 32%N (w * level) ++ 93%N :: rest.
Proof.
  cbn [write_value]. fold (more_values w (S level) l).
  change (lit "[") with [91%N]. change (lit "]") with [93%N].
  rewrite <- !app_assoc. reflexivity.
Qed.

Lemma write_dict_cons (w level : nat) (k : str) (x : value)
  (l : list (str * value)) (rest : str) :
  write_value w level (VDict ((k, x) :: l)) ++ rest
  = 123%N :: nl ++ times 32%N (w * S level)
      ++ 34%N :: flat_map escape_char k
      ++ 34%N :: 58%N :: 32%N :: write_value w (S level) x
      ++ more_pairs w (S level) l
      ++ nl ++ times 32%N (w * level) ++ 125%N :: rest.
Proof.
  cbn [write_value]. fold (more_pairs w (S level) l).
  change (lit "{") with [123%N]. change (lit "}") with [125%N].
  change (lit ": ") with [58%N; 32%N].
  rewrite <- !app_assoc. cbn [app]. rewrite write_str_app. reflexivity.
Qed.

Lemma Forall_reads (P : value -> Prop) (Q : value -> Prop) (l : list value) :
  (forall y, P y -> plain y = true -> Q y) ->
  Forall P l -> forallb plain l = true ->
  Forall (fun y => plain y = true /\ Q y) l.
Proof.
  intros HPQ HF. induction HF as [|y l Hy HF IH]; intros Hp; [constructor|].
  cbn [forallb] in Hp. apply andb_true_iff in Hp as [Hpy Hpl].
  constructor; auto.
Qed.

Lemma Forall_reads_pairs (P Q : value -> Prop) (l : list (str * value)) :
  (forall y, P y -> plain y = true -> Q y) ->
  Forall (fun item => P (snd item)) l ->
  forallb (fun item => plain (snd item)) l = true ->
  Forall (fun item => plain (snd item) = true /\ Q (snd item)) l.
Proof.
  intros HPQ HF. induction HF as [|y l Hy HF IH]; intros Hp; [constructor|].
  cbn [forallb] in Hp. apply andb_true_iff in Hp as [Hpy Hpl].
  constructor; auto.
Qed.

Lemma JSONObject_line (scan : str -> scan value) (n : nat) (r : str) :
  JSONObject scan (nl ++ times 32%N n ++ 34%N :: r)
  = object_items scan (S (length r)) r [].
Proof.
  unfold JSONObject, nl. cbn [app].
  change (10 =? 34)%N with false. cbv iota.
  change (skip_ws (10%N :: times 32%N n ++ 34%N :: r))
    with (skip_ws (times 32%N n ++ 34%N :: r)).
  rewrite skip_ws_spaces, skip_ws_stop by reflexivity.
  change (34 =? 34)%N with true. reflexivity.
Qed.

(** [scan_once] reads back every written value with no [float] in it. *)
Lemma scan_once_written (v : value) :
  plain v = true ->
  forall w level depth rest,
    length (write_value w level v ++ rest) < depth ->
    ends_number rest = true ->
    scan_once depth (write_value w level v ++ rest) = Scanned v rest.
Proof.
  induction v as [ | b | z | x | s | l IH | items IH] using value_ind;
    intros Hp w level depth rest Hd Hrest;
    (destruct depth as [|depth]; [lia|]).
  - reflexivity.
  - destruct b; reflexivity.
  - cbn [write_value] in *.
    destruct (str_of_Z_head z) as (c & t & Hz & Hc).
    assert (Hcase : (48 <= c <= 57 \/ c = 45)%N).
    { destruct Hc as [Hc| ->]; [left|now right].
      unfold is_digit in Hc. apply andb_true_iff in Hc as [H1 H2].
      apply N.leb_le in H1, H2. lia. }
    pose proof (match_number_str_of_Z z rest Hrest) as Hnum.
    rewrite Hz in Hnum |- *. cbn [app] in Hnum |- *. cbn [scan_once].
    replace (c =? 34)%N with false by (symmetry; apply N.eqb_neq; lia).
    replace (c =? 123)%N with false by (symmetry; apply N.eqb_neq; lia).
    replace (c =? 91)%N with false by (symmetry; apply N.eqb_neq; lia).
    change (lit "null") with [110; 117; 108; 108]%N.
    change (lit "true") with [116; 114; 117; 101]%N.
    change (lit "false") with [102; 97; 108; 115; 101]%N.
    cbn [starts_with].
    replace (110 =? c)%N with false by (symmetry; apply N.eqb_neq; lia).
    replace (116 =? c)%N with false by (symmetry; apply N.eqb_neq; lia).
    replace (102 =? c)%N with false by (symmetry; apply N.eqb_neq; lia).
    cbn [andb]. now rewrite Hnum.
  - discriminate.
  - cbn [write_value]. rewrite write_str_app. cbn [scan_once].
    change (34 =? 34)%N with true. cbv iota.
    now rewrite scanstring_write_str.
  - destruct l as [|x l]; [reflexivity|].
    rewrite write_list_cons in Hd |- *. cbn [scan_once].
    change (91 =? 34)%N with false. change (91 =? 123)%N with false.
    change (91 =? 91)%N with true. cbv iota.
    cbn [plain] in Hp.
    assert (Hpx : plain x = true)
      by (cbn [forallb] in Hp; now apply andb_true_iff in Hp as [Hpx _]).
    unfold JSONArray. rewrite skip_ws_line, skip_ws_value by exact Hpx.
    destruct (write_value_head w (S level) x Hpx) as (c & t & Hx & Hc).
    set (inner := write_value w (S level) x ++ more_values w (S level) l
                    ++ nl ++ times 32%N (w * level) ++ 93%N :: rest) in *.
    assert (Hinner : inner = c :: t ++ more_values w (S level) l
                               ++ nl ++ times 32%N (w * level) ++ 93%N :: rest)
      by (unfold inner; now rewrite Hx).
    rewrite Hinner at 1.
    rewrite (value_start_not c 93%N Hc eq_refl).
    replace (S (length (t ++ more_values w (S level) l
                          ++ nl ++ times 32%N (w * level) ++ 93%N :: rest)))
      with (length inner) by (now rewrite Hinner).
    rewrite <- Hinner. unfold inner.
    rewrite array_items_written with (bound := length inner);
      [reflexivity | | unfold inner; lia | unfold inner; lia].
    apply Forall_reads with (P := fun y =>
      plain y = true ->
      forall w level depth rest,
        length (write_value w level y ++ rest) < depth ->
        ends_number rest = true ->
        scan_once depth (write_value w level y ++ rest) = Scanned y rest);
      [|exact IH|exact Hp].
    intros y Hy Hpy tail Htail Hlen. apply Hy; [exact Hpy| |exact Htail].
    clear - Hd Hlen. lengths.
  - destruct items as [|[k x] items]; [reflexivity|].
    rewrite write_dict_cons in Hd |- *. cbn [scan_once].
    change (123 =? 34)%N with false. change (123 =? 123)%N with true. cbv iota.
    cbn [plain] in Hp.
    rewrite JSONObject_line.
    pose (inner := flat_map escape_char k ++ 34%N :: 58%N :: 32%N
                     :: write_value w (S level) x ++ more_pairs w (S level) items
                     ++ nl ++ times 32%N (w * level) ++ 125%N :: rest).
    rewrite object_items_written with (bound := length inner);
      [reflexivity | | unfold inner; lia | unfold inner; lia].
    apply Forall_reads_pairs with (P := fun y =>
      plain y = true ->
      forall w level depth rest,
        length (write_value w level y ++ rest) < depth ->
        ends_number rest = true ->
        scan_once depth (write_value w level y ++ rest) = Scanned y rest);
      [|exact IH|exact Hp].
    intros y Hy Hpy tail Htail Hlen. apply Hy; [exact Hpy| |exact Htail].
    unfold inner in Hlen. clear - Hd Hlen. lengths.
Qed.

(** [json.loads] reads back what the serializer writes. *)
Lemma json_loads_written (w : nat) (v : value) :
  plain v = true -> json_loads (write_value w 0 v) = Ok v.
Proof.
  intros Hp. unfold json_loads.
  destruct (write_value_head w 0 v Hp) as (c & t & Hv & Hc).
  assert (Hbom : starts_with [65279%N] (write_value w 0 v) = false).
  { rewrite Hv. cbn [starts_with].
    now rewrite (N.eqb_sym 65279 c), (value_start_not c 65279%N Hc eq_refl). }
  assert (Hskip : skip_ws (write_value w 0 v) = write_value w 0 v).
  { pose proof (skip_ws_value w 0 v [] Hp) as H. now rewrite app_nil_r in H. }
  assert (Hscan : scan_once (S (length (write_value w 0 v))) (write_value w 0 v)
                  = Scanned v []).
  { pose proof (@scan_once_written v Hp w 0 (S (length (write_value w 0 v))) []) as H.
    rewrite app_nil_r in H. apply H; [lia | reflexivity]. }
  now rewrite Hbom, Hskip, Hscan.
Qed.

(** *** Suites *)

Lemma plain_strs (l : list str) : forallb plain (map VStr l) = true.
Proof. induction l; [reflexivity | exact IHl]. Qed.

Lemma plain_dump_TestScenario (t : TestScenario) : plain (dump_TestScenario t) = true.
Proof.
  unfold dump_TestScenario. cbn [plain forallb snd].
  now rewrite !plain_strs.
Qed.

Lemma plain_model_dump (t : TestSuite) : plain (model_dump t) = true.
Proof.
  unfold model_dump. cbn [plain forallb snd]. rewrite plain_strs.
  assert (H : forallb plain (map dump_TestScenario (test_scenarios t)) = true).
  { induction (test_scenarios t) as [|x l IH]; [reflexivity|].
    cbn [map forallb]. now rewrite plain_dump_TestScenario, IH. }
  now rewrite H.
Qed.

Lemma strs_checked (l : list str) : check_list check_str (VList (map VStr l)) = Valid l.
Proof. cbn [check_list]. apply check_items_strs. Qed.

(** A dumped scenario validates to the scenario. *)
Lemma check_dumped_TestScenario (t : TestScenario) :
  check_TestScenario (dump_TestScenario t) = Valid t.
Proof.
  destruct t as [id ti de pre steps ex ty pr].
  unfold dump_TestScenario, check_TestScenario, TestScenario_fields.
  cbn [scenario_id title description preconditions test_steps
       expected_result test_type priority].
  set (data := [ (lit "scenario_id", VStr id); (lit "title", VStr ti);
                 (lit "description", VStr de);
                 (lit "preconditions", VList (map VStr pre));
                 (lit "test_steps", VList (map VStr steps));
                 (lit "expected_result", VStr ex);
                 (lit "test_type", VStr ty); (lit "priority", VStr pr) ]).
  assert (H1 : field "scenario_id" check_str data = Valid id) by reflexivity.
  assert (H2 : field "title" check_str data = Valid ti) by reflexivity.
  assert (H3 : field "description" check_str data = Valid de) by reflexivity.
  assert (H4 : field "preconditions" (check_list check_str) data = Valid pre).
  { change (field "preconditions" (check_list check_str) data)
      with (under (lit "preconditions") (check_list check_str (VList (map VStr pre)))).
    now rewrite strs_checked. }
  assert (H5 : field "test_steps" (check_list check_str) data = Valid steps).
  { change (field "test_steps" (check_list check_str) data)
      with (under (lit "test_steps") (check_list check_str (VList (map VStr steps)))).
    now rewrite strs_checked. }
  assert (H6 : field "expected_result" check_str data = Valid ex) by reflexivity.
  assert (H7 : field "test_type" check_str data = Valid ty) by reflexivity.
  assert (H8 : field "priority" check_str data = Valid pr) by reflexivity.
  now rewrite H1, H2, H3, H4, H5, H6, H7, H8.
Qed.

Lemma check_items_dumped (l : list TestScenario) (i : nat) :
  check_items check_TestScenario i (map dump_TestScenario l) = Valid l.
Proof.
  revert i. induction l as [|t l IH]; intros i; [reflexivity|].
  cbn [map check_items]. now rewrite check_dumped_TestScenario, IH.
Qed.

(** A dumped suite validates to the suite. *)
Lemma TestSuite_new_dumped (t : TestSuite) :
  (let* kwargs := unpack_kwargs "TestSuite" (model_dump t) in TestSuite_new kwargs)
  = Ok t.
Proof.
  destruct t as [us scs areas n].
  unfold model_dump, TestSuite_new, TestSuite_fields.
  cbn [unpack_kwargs bind user_story test_scenarios coverage_areas total_scenarios].
  set (data := [ (lit "user_story", VStr us);
                 (lit "test_scenarios", VList (map dump_TestScenario scs));
                 (lit "coverage_areas", VList (map VStr areas));
                 (lit "total_scenarios", VInt n) ]).
  assert (H1 : field "user_story" check_str data = Valid us) by reflexivity.
  assert (H2 : field "test_scenarios" (check_list check_TestScenario) data = Valid scs).
  { change (field "test_scenarios" (check_list check_TestScenario) data)
      with (under (lit "test_scenarios")
              (check_items check_TestScenario 0 (map dump_TestScenario scs))).
    now rewrite check_items_dumped. }
  assert (H3 : field "coverage_areas" (check_list check_str) data = Valid areas).
  { change (field "coverage_areas" (check_list check_str) data)
      with (under (lit "coverage_areas") (check_list check_str (VList (map VStr areas)))).
    now rewrite strs_checked. }
  assert (H4 : field "total_scenarios" check_int data = Valid n) by reflexivity.
  now rewrite H1, H2, H3, H4.
Qed.

(** Decoding the JSON rendering of a suite gives the suite back. *)
Lemma decode_suite_dumped (indent : nat) (t : TestSuite) :
  decode_suite (model_dump_json indent t) = Ok t.
Proof.
  unfold decode_suite, model_dump_json.
  rewrite json_loads_written by apply plain_model_dump.
  cbn [bind]. apply TestSuite_new_dumped.
Qed.

(** *** Where the rendering can hold a fence

    An opening fence starts with a backtick, and the serializer writes a
    backtick only for a backtick of a string; so the rendering of a value
    holds an opening fence only where one of its strings does. *)

Lemma contains_cons (p : str) (x : char) (s : str) :
  contains p (x :: s) = starts_with p (x :: s) || contains p s.
Proof. reflexivity. Qed.

Lemma starts_with_fence_tick (x : char) (s : str) :
  (x =? 96)%N = false -> starts_with fence_open (x :: s) = false.
Proof.
  intros H. rewrite fence_open_chars. cbn [starts_with].
  now rewrite N.eqb_sym, H.
Qed.


Lemma hex_char_not_tick (n : N) : (hex_char n =? 96)%N = false.
Proof.
  unfold hex_char. apply N.eqb_neq. destruct (N.ltb_spec n 10); lia.
Qed.

Lemma escape_char_plain (c : char) : escaped c = false -> escape_char c = [c].
Proof.
  unfold escaped, escape_char. intros H.
  apply orb_false_iff in H as [H H32]. apply orb_false_iff in H as [H34 H92].
  rewrite H34, H92, H32.
  apply N.ltb_ge in H32.
  replace (c =? 8)%N with false by (symmetry; apply N.eqb_neq; lia).
  replace (c =? 12)%N with false by (symmetry; apply N.eqb_neq; lia).
  replace (c =? 10)%N with false by (symmetry; apply N.eqb_neq; lia).
  replace (c =? 13)%N with false by (symmetry; apply N.eqb_neq; lia).
  replace (c =? 9)%N with false by (symmetry; apply N.eqb_neq; lia).
  reflexivity.
Qed.

Lemma escape_char_escaped (c : char) :
  escaped c = true -> exists t, escape_char c = 92%N :: t /\ tick_free t = true.
Proof.
  unfold escaped, escape_char. intros H.
  repeat match goal with
         | |- context [if ?b then _ else _] => destruct b eqn:?
         end;
    try (eexists; split; [reflexivity|]; cbn [tick_free forallb];
         rewrite ?hex_char_not_tick; reflexivity).
  cbn in H. discriminate.
Qed.

Lemma escaped_not_fence (c : char) (s : str) :
  escaped c = true -> starts_with fence_open (c :: s) = false.
Proof.
  intros H. apply starts_with_fence_tick. apply N.eqb_neq. intros ->. discriminate.
Qed.

(** Through the escapes, a text starts a fence-like pattern (no quote, no
    backslash, no control character in it) exactly when the string does. *)
Lemma starts_with_escapes (p : str) :
  forallb (fun c => negb (escaped c)) p = true ->
  forall s rest,
    starts_with p (flat_map escape_char s ++ 34%N :: rest) = starts_with p s.
Proof.
  induction p as [|a p IH]; intros Hp s rest; [reflexivity|].
  cbn [forallb] in Hp. apply andb_true_iff in Hp as [Ha Hp].
  apply negb_true_iff in Ha.
  destruct s as [|c s].
  - cbn [flat_map app starts_with].
    replace (a =? 34)%N with false; [reflexivity|].
    symmetry. apply N.eqb_neq. intros ->. discriminate.
  - cbn [flat_map]. destruct (escaped c) eqn:Hc.
    + destruct (escape_char_escaped c Hc) as (t & -> & _).
      cbn [app starts_with].
      replace (a =? 92)%N with false
        by (symmetry; apply N.eqb_neq; intros ->; discriminate).
      replace (a =? c)%N with false
        by (symmetry; apply N.eqb_neq; intros ->; congruence).
      reflexivity.
    + rewrite (escape_char_plain c Hc). cbn [app starts_with].
      now rewrite IH.
Qed.


Lemma tick_free_digits (ds : str) : forallb is_digit ds = true -> tick_free ds = true.
Proof.
  unfold tick_free. induction ds as [|d ds IH]; [reflexivity|].
  cbn [forallb]. intros H. apply andb_true_iff in H as [Hd H].
  rewrite (IH H), andb_true_r. apply negb_true_iff, N.eqb_neq.
  unfold is_digit in Hd. apply andb_true_iff in Hd as [_ Hd].
  apply N.leb_le in Hd. lia.
Qed.

Lemma tick_free_str_of_Z (z : Z) : tick_free (str_of_Z z) = true.
Proof.
  destruct z; cbn [str_of_Z]; try (apply tick_free_digits, digits_all_digits).
  cbn [tick_free forallb]. fold (tick_free (digits (N.pos p))).
  now rewrite tick_free_digits by apply digits_all_digits.
Qed.

Lemma tick_free_spaces (n : nat) : tick_free (times 32%N n) = true.
Proof. induction n; [reflexivity | exact IHn]. Qed.

Lemma tick_free_app (a b : str) :
  tick_free a = true -> tick_free b = true -> tick_free (a ++ b) = true.
Proof. unfold tick_free. intros Ha Hb. rewrite forallb_app. now apply andb_true_iff. Qed.




Lemma value_texts_strs (l : list str) : flat_map value_texts (map VStr l) = l.
Proof. induction l as [|x l IH]; [reflexivity|]. cbn [map flat_map value_texts app]. now rewrite IH. Qed.








(* ================================================================= *)
(** * Further properties of the code *)

(** ** The generator that [TestCaseGenerator()] builds *)




(** X1.  A generator that [TestCaseGenerator()] returns holds the key of the
    environment, which is not empty, and the settings as they read there;
    its client was built with the very same model name, temperature, token
    limit and key. *)
Theorem init_generator_invariant (env : environ) (generator : TestCaseGenerator) :
  __init__ env = Ok generator ->
  env (lit "OPENAI_API_KEY") = Some (api_key generator)
  /\ api_key generator <> []
  /\ model_name generator = getenv env "MODEL_NAME" "gpt-3.5-turbo"
  /\ py_float (getenv env "TEMPERATURE" "0.3") = Ok (temperature generator)
  /\ py_int (getenv env "MAX_TOKENS" "2000") = Ok (max_tokens generator)
  /\ llm generator = {| llm_model := model_name generator;
                        llm_temperature := temperature generator;
                        llm_max_tokens := max_tokens generator;
                        openai_api_key := api_key generator |}.
Proof.
  unfold __init__.
  destruct (env (lit "OPENAI_API_KEY")) as [[|c key]|]; try discriminate.
  destruct (py_float (getenv env "TEMPERATURE" "0.3")) as [t|e1]; cbn [bind];
    [|discriminate].
  destruct (py_int (getenv env "MAX_TOKENS" "2000")) as [n|e2]; cbn [bind];
    [|discriminate].
  intros [= <-]. cbn. repeat split. discriminate.
Qed.

Lemma init_generator_invariant_witness :
  api_key test_generator <> []
  /\ llm test_generator = {| llm_model := lit "gpt-3.5-turbo";
                             llm_temperature := float_dec false 3 (-1);
                             llm_max_tokens := 2000;
                             openai_api_key := lit "test-key" |}.
Proof.
  destruct (@init_generator_invariant test_env test_generator eq_refl)
    as (_ & Hkey & _ & _ & _ & Hllm).
  split; [exact Hkey | exact Hllm].
Defined.

(** ** What the [generate] command echoes *)


(** ** Reading the token limit *)

Lemma lstrip_stop (s : str) : no_space_ahead s = true -> lstrip s = s.
Proof.
  destruct s as [|c s]; [reflexivity|]. cbn [no_space_ahead lstrip].
  intros H. apply negb_true_iff in H. now rewrite H.
Qed.

Lemma strip_nothing (s : str) :
  forallb (fun c => negb (is_space c)) s = true -> strip s = s.
Proof.
  intros H. unfold strip, rstrip.
  assert (Hhead : forall t, forallb (fun c => negb (is_space c)) t = true ->
                            no_space_ahead t = true).
  { intros [|c t]; [reflexivity|]. cbn [forallb no_space_ahead].
    intros Ht. now apply andb_true_iff in Ht as [Hc _]. }
  rewrite (lstrip_stop _ (Hhead _ H)).
  rewrite lstrip_stop; [apply rev_involutive|].
  apply Hhead. rewrite forallb_forall in H |- *.
  intros c Hc. apply H. now apply in_rev.
Qed.

Lemma is_digit_range (c : char) : is_digit c = true -> (48 <= c <= 57)%N.
Proof.
  unfold is_digit. intros H. apply andb_true_iff in H as [H1 H2].
  apply N.leb_le in H1, H2. lia.
Qed.

Lemma digit_no_space (c : char) : is_digit c = true -> is_space c = false.
Proof.
  intros H. apply is_digit_range in H. unfold is_space.
  repeat match goal with
         | |- context [(?a <=? ?b)%N] => destruct (N.leb_spec a b)
         | |- context [(?a =? ?b)%N] => destruct (N.eqb_spec a b)
         end; try reflexivity; lia.
Qed.

Lemma digits_no_space (ds : str) :
  forallb is_digit ds = true -> forallb (fun c => negb (is_space c)) ds = true.
Proof.
  intros H. rewrite forallb_forall in H |- *. intros c Hc.
  now rewrite (digit_no_space _ (H c Hc)).
Qed.

(** A run of digits without underscores is read whole. *)
Lemma span_digits_underscore_digits (ds : str) :
  forallb is_digit ds = true -> span_digits_underscore ds = (ds, []).
Proof.
  induction ds as [|c ds IH]; [reflexivity|].
  cbn [forallb]. intros H. apply andb_true_iff in H as [Hc Hds].
  cbn [span_digits_underscore]. rewrite Hc.
  destruct ds as [|u ds']; [reflexivity|].
  assert (Hu : is_digit u = true)
    by (cbn [forallb] in Hds; now apply andb_true_iff in Hds as [Hu _]).
  replace (u =? 95)%N with false
    by (symmetry; apply N.eqb_neq; apply is_digit_range in Hu; lia).
  now rewrite (IH Hds).
Qed.

(** [int(str(z))] is [z]. *)
Lemma int_of_text_str_of_Z (z : Z) : int_of_text (str_of_Z z) = Some z.
Proof.
  assert (Hnat : forall n, int_of_text (digits n) = Some (Z.of_N n)).
  { intros n. unfold int_of_text.
    pose proof (digits_all_digits n) as Hall.
    rewrite strip_nothing by now apply digits_no_space.
    assert (Hne : exists c t, digits n = c :: t /\ is_digit c = true).
    { destruct (digits n) as [|c t] eqn:Hd.
      - pose proof (digits_value_digits n) as Hv. rewrite Hd in Hv. cbn in Hv.
        subst n. discriminate.
      - exists c, t. split; [reflexivity|]. cbn [forallb] in Hall.
        now apply andb_true_iff in Hall as [Hc _]. }
    destruct Hne as (c & t & Hd & Hc).
    assert (Hsign : split_sign (digits n) = (false, digits n)).
    { rewrite Hd. cbn [split_sign]. apply is_digit_range in Hc.
      replace (c =? 45)%N with false by (symmetry; apply N.eqb_neq; lia).
      replace (c =? 43)%N with false by (symmetry; apply N.eqb_neq; lia).
      reflexivity. }
    rewrite Hsign, (span_digits_underscore_digits _ Hall).
    rewrite Hd. rewrite <- Hd. now rewrite digits_value_digits. }
  destruct z as [|p|p]; cbn [str_of_Z].
  - exact (Hnat 0%N).
  - exact (Hnat (N.pos p)).
  - unfold int_of_text.
    pose proof (digits_all_digits (N.pos p)) as Hall.
    rewrite strip_nothing by (cbn [forallb]; now rewrite digits_no_space).
    cbn [split_sign]. change (45 =? 45)%N with true. cbv iota.
    rewrite (span_digits_underscore_digits _ Hall).
    destruct (digits (N.pos p)) as [|c t] eqn:Hd.
    + pose proof (digits_value_digits (N.pos p)) as Hv. rewrite Hd in Hv.
      discriminate.
    + rewrite <- Hd. now rewrite digits_value_digits.
Qed.

(** X3.  With the key set and no temperature setting, a [MAX_TOKENS] that
    is the decimal text of an integer (of at most 4300 digits, beyond which
    Python converts no text) gives a generator with that token limit, in
    its own field and in its client. *)
Theorem init_reads_max_tokens (env : environ) (key : str) (n : Z) :
  env (lit "OPENAI_API_KEY") = Some key -> key <> [] ->
  env (lit "TEMPERATURE") = None ->
  env (lit "MAX_TOKENS") = Some (str_of_Z n) ->
  (Z.abs n < 10 ^ 4300)%Z ->
  exists generator,
    __init__ env = Ok generator
    /\ max_tokens generator = n
    /\ llm_max_tokens (llm generator) = n.
Proof.
  intros Hkey Hne Ht Hn _. unfold __init__. rewrite Hkey.
  destruct key as [|c key]; [contradiction|].
  unfold getenv. rewrite Ht, Hn.
  change (py_float (lit "0.3")) with (Ok (float_dec false 3 (-1))).
  cbn [bind]. unfold py_int. rewrite int_of_text_str_of_Z. cbn [bind].
  eexists. split; [reflexivity|]. split; reflexivity.
Qed.

Lemma init_reads_max_tokens_witness :
  exists generator,
    __init__ tokens_env = Ok generator
    /\ max_tokens generator = 512%Z
    /\ llm_max_tokens (llm generator) = 512%Z.
Proof.
  apply (@init_reads_max_tokens tokens_env (lit "test-key") 512);
    solve [reflexivity | discriminate | vm_compute; reflexivity].
Defined.

(** ** The user prompt *)




(** ** What a generated suite is made of *)

(** X5.  [generate_test_cases] returns a suite only when every stage
    succeeded: the story was accepted, the service answered the two
    messages built from it, and the answer parsed.  The suite is then the
    parsed one with its count replaced: its story, scenarios and coverage
    areas are those of the reply, whatever story was submitted. *)
Theorem generated_suite_is_the_parsed_reply
  (invoke : ChatOpenAI -> list message -> result str) (format_instructions : str)
  (self : TestCaseGenerator) (story_text : str) (criteria : option (list str))
  (suite : TestSuite) :
  generate_test_cases invoke format_instructions self story_text criteria = Ok suite ->
  10 <= length story_text
  /\ exists reply parsed,
       invoke (llm self)
         (prompt_messages format_instructions
            {| story := story_text;
               acceptance_criteria := criteria;
               story_type := Some (lit "feature") |}) = Ok reply
       /\ _parse_ai_response reply = Ok parsed
       /\ user_story suite = user_story parsed
       /\ test_scenarios suite = test_scenarios parsed
       /\ coverage_areas suite = coverage_areas parsed
       /\ total_scenarios suite = Z.of_nat (length (test_scenarios parsed)).
Proof.
  unfold generate_test_cases. rewrite try_Exception, validate_user_story_eq.
  destruct (Nat.ltb_spec (length story_text) 10) as [Hlt|Hge]; cbn [bind];
    [discriminate|].
  fold (prompt_messages format_instructions
          {| story := story_text;
             acceptance_criteria := criteria;
             story_type := Some (lit "feature") |}).
  destruct (invoke _ _) as [reply|e]; cbn [bind]; [|discriminate].
  destruct (_parse_ai_response reply) as [parsed|e] eqn:Hp; cbn [bind];
    [|discriminate].
  intros [= <-]. split; [exact Hge|].
  exists reply, parsed. repeat split. exact Hp.
Qed.

Lemma generated_suite_is_the_parsed_reply_witness :
  exists suite,
    generate_test_cases (answering miscounting_reply) [] test_generator
      (lit "As a user, I want to login to my account")
      (Some [lit "Valid credentials required"]) = Ok suite
    /\ user_story suite = lit "Test story".
Proof.
  destruct (generate_test_cases (answering miscounting_reply) [] test_generator
              (lit "As a user, I want to login to my account")
              (Some [lit "Valid credentials required"])) as [suite|e] eqn:H;
    [|vm_compute in H; discriminate].
  exists suite. split; [reflexivity|].
  destruct (generated_suite_is_the_parsed_reply _ _ _ _ _ H)
    as (_ & reply & parsed & Hs & Hp & Hus & _).
  injection Hs as <-. rewrite Hus.
  assert (parsed = match _parse_ai_response miscounting_reply with
                   | Ok s => s
                   | Raise _ => parsed
                   end) as -> by now rewrite Hp.
  vm_compute. reflexivity.
Defined.

(** ** What the constructors make of the keys *)






(** ** Replies that decode and are refused *)

Lemma ap_errors_r {A B} (f : checked (A -> B)) (x : checked A) (e : list verr) :
  x = Invalid e -> exists e', f <*> x = Invalid e' /\ incl e e'.
Proof.
  intros ->. destruct f as [g|e0]; cbn [ap].
  - exists e. split; [reflexivity | apply incl_refl].
  - exists (e0 ++ e). split; [reflexivity | apply incl_appr, incl_refl].
Qed.

Lemma ap_errors_l {A B} (f : checked (A -> B)) (x : checked A) (e : list verr) :
  f = Invalid e -> exists e', f <*> x = Invalid e' /\ incl e e'.
Proof.
  intros ->. destruct x as [a|e0]; cbn [ap].
  - exists e. split; [reflexivity | apply incl_refl].
  - exists (e ++ e0). split; [reflexivity | apply incl_appl, incl_refl].
Qed.

(** An error of a field is among the errors of the suite. *)
Lemma TestSuite_fields_error (data : list (str * value)) (err : verr) :
  (exists e, field "user_story" check_str data = Invalid e /\ In err e)
  \/ (exists e, field "test_scenarios" (check_list check_TestScenario) data = Invalid e
                /\ In err e)
  \/ (exists e, field "coverage_areas" (check_list check_str) data = Invalid e
                /\ In err e)
  \/ (exists e, field "total_scenarios" check_int data = Invalid e /\ In err e) ->
  exists errs, TestSuite_fields data = Invalid errs /\ In err errs.
Proof.
  unfold TestSuite_fields.
  intros [(e & H & Hin)|[(e & H & Hin)|[(e & H & Hin)|(e & H & Hin)]]].
  - destruct (ap_errors_r (Valid Build_TestSuite) H) as (e1 & H1 & I1).
    destruct (ap_errors_l (field "test_scenarios" (check_list check_TestScenario) data) H1)
      as (e2 & H2 & I2).
    destruct (ap_errors_l (field "coverage_areas" (check_list check_str) data) H2)
      as (e3 & H3 & I3).
    destruct (ap_errors_l (field "total_scenarios" check_int data) H3)
      as (e4 & H4 & I4).
    exists e4. split; [exact H4 | auto].
  - destruct (ap_errors_r (Valid Build_TestSuite <*> field "user_story" check_str data) H)
      as (e2 & H2 & I2).
    destruct (ap_errors_l (field "coverage_areas" (check_list check_str) data) H2)
      as (e3 & H3 & I3).
    destruct (ap_errors_l (field "total_scenarios" check_int data) H3)
      as (e4 & H4 & I4).
    exists e4. split; [exact H4 | auto].
  - destruct (ap_errors_r
                (Valid Build_TestSuite <*> field "user_story" check_str data
                   <*> field "test_scenarios" (check_list check_TestScenario) data) H)
      as (e3 & H3 & I3).
    destruct (ap_errors_l (field "total_scenarios" check_int data) H3)
      as (e4 & H4 & I4).
    exists e4. split; [exact H4 | auto].
  - destruct (ap_errors_r
                (Valid Build_TestSuite <*> field "user_story" check_str data
                   <*> field "test_scenarios" (check_list check_TestScenario) data
                   <*> field "coverage_areas" (check_list check_str) data) H)
      as (e4 & H4 & I4).
    exists e4. split; [exact H4 | auto].
Qed.

Lemma field_missing {A} (name : string) (check : value -> checked A)
  (data : list (str * value)) :
  dict_get (lit name) data = None -> field name check data = Invalid [missing name].
Proof. intros H. unfold field. now rewrite H. Qed.

(** A reply refused by the construction is reported as such. *)
Lemma parse_ai_response_refused (response_text : str) (parsed_data : value) (e : exn) :
  json_loads (extracted_json response_text) = Ok parsed_data ->
  (let* kwargs := unpack_kwargs "TestSuite" parsed_data in TestSuite_new kwargs)
    = Raise e ->
  _parse_ai_response response_text
  = Raise (mk_exn ValueError (lit "Failed to create TestSuite object: " ++ exn_str e)).
Proof.
  intros Hj Hc. rewrite parse_ai_response_eq. unfold decode_suite.
  rewrite Hj. cbn [bind]. rewrite Hc.
  destruct (unpack_kwargs "TestSuite" parsed_data) as [kwargs|e'] eqn:Hu;
    cbn [bind] in Hc.
  - apply construct_raises in Hc. now rewrite Hc.
  - injection Hc as <-. apply unpack_kwargs_raises in Hu. now rewrite Hu.
Qed.

(** X7.  A reply whose JSON text decodes is still refused, with a
    [ValueError] that starts with ["Failed to create TestSuite object: "],
    when the value is no object; when the object lacks one of the four
    fields, the count included although [generate_test_cases] would replace
    it; and when its [user_story] is no string, numbers being not turned
    into text.  The errors of the construction name the field. *)
Theorem decoded_reply_refused (response_text : str) (parsed_data : value) :
  json_loads (extracted_json response_text) = Ok parsed_data ->
  ((forall data, parsed_data <> VDict data) ->
   exists detail,
     _parse_ai_response response_text
     = Raise (mk_exn ValueError (lit "Failed to create TestSuite object: " ++ detail)))
  /\ (forall data name,
        parsed_data = VDict data ->
        In name ["user_story"; "test_scenarios"; "coverage_areas";
                 "total_scenarios"]%string ->
        dict_get (lit name) data = None ->
        exists errs detail,
          TestSuite_fields data = Invalid errs /\ In (missing name) errs
          /\ _parse_ai_response response_text
             = Raise (mk_exn ValueError
                        (lit "Failed to create TestSuite object: " ++ detail)))
  /\ (forall data v,
        parsed_data = VDict data ->
        dict_get (lit "user_story") data = Some v ->
        (forall s, v <> VStr s) ->
        exists errs detail,
          TestSuite_fields data = Invalid errs /\ In (not_a_string "user_story") errs
          /\ _parse_ai_response response_text
             = Raise (mk_exn ValueError
                        (lit "Failed to create TestSuite object: " ++ detail))).
Proof.
  intros Hj.
  assert (Hrefused : forall data errs,
             parsed_data = VDict data -> TestSuite_fields data = Invalid errs ->
             exists detail,
               _parse_ai_response response_text
               = Raise (mk_exn ValueError
                          (lit "Failed to create TestSuite object: " ++ detail))).
  { intros data errs -> Hf. eexists.
    eapply parse_ai_response_refused; [exact Hj|].
    cbn [unpack_kwargs bind]. unfold TestSuite_new. rewrite Hf. reflexivity. }
  repeat split.
  - intros Hno. eexists. eapply parse_ai_response_refused; [exact Hj|].
    destruct parsed_data; cbn [unpack_kwargs bind]; try reflexivity.
    now contradiction (Hno items).
  - intros data name Hd Hin Hget.
    assert (Herr : exists errs, TestSuite_fields data = Invalid errs
                                /\ In (missing name) errs).
    { apply TestSuite_fields_error.
      destruct Hin as [<-|[<-|[<-|[<-|[]]]]].
      - left. eexists. split; [now apply field_missing | now left].
      - right. left. eexists. split; [now apply field_missing | now left].
      - right. right. left. eexists. split; [now apply field_missing | now left].
      - right. right. right. eexists. split; [now apply field_missing | now left]. }
    destruct Herr as (errs & Hf & Hin').
    destruct (Hrefused data errs Hd Hf) as (detail & Hp).
    now exists errs, detail.
  - intros data v Hd Hget Hv.
    assert (Herr : exists errs, TestSuite_fields data = Invalid errs
                                /\ In (not_a_string "user_story") errs).
    { apply TestSuite_fields_error. left. unfold field. rewrite Hget.
      destruct v; try (eexists; split; [reflexivity | now left]).
      now contradiction (Hv s). }
    destruct Herr as (errs & Hf & Hin').
    destruct (Hrefused data errs Hd Hf) as (detail & Hp).
    now exists errs, detail.
Qed.

Lemma decoded_reply_refused_witness :
  (exists detail,
      _parse_ai_response list_reply
      = Raise (mk_exn ValueError (lit "Failed to create TestSuite object: " ++ detail)))
  /\ (exists detail,
         _parse_ai_response countless_reply
         = Raise (mk_exn ValueError
                    (lit "Failed to create TestSuite object: " ++ detail))).
Proof.
  split.
  - destruct (@decoded_reply_refused list_reply (VList []) eq_refl) as (Hlist & _).
    apply Hlist. discriminate.
  - destruct (@decoded_reply_refused countless_reply
                (VDict [ (lit "user_story", VStr (lit "Test story"));
                         (lit "test_scenarios", VList []);
                         (lit "coverage_areas", VList []) ])
                ltac:(vm_compute; reflexivity)) as (_ & Hmissing & _).
    destruct (Hmissing _ "total_scenarios"%string eq_refl) as (errs & detail & _ & _ & H);
      [cbn; tauto | reflexivity |].
    now exists detail.
Defined.

(** ** What a rendering tells of the suite *)

(** X8.  The JSON rendering determines the suite: two suites with the same
    JSON text are the same suite.  The console and Markdown renderings do
    not: they join the coverage areas with a comma, so a suite with one
    area that holds a comma and a suite with two areas can read the same. *)
Theorem json_rendering_determines_suite (suite suite' : TestSuite) :
  (format_output suite (lit "json") = format_output suite' (lit "json") ->
   suite = suite')
  /\ one_area_suite <> two_area_suite
  /\ format_output one_area_suite (lit "console")
     = format_output two_area_suite (lit "console")
  /\ format_output one_area_suite (lit "markdown")
     = format_output two_area_suite (lit "markdown").
Proof.
  split; [|split; [discriminate | split; reflexivity]].
  change (format_output suite (lit "json")) with (model_dump_json 2 suite).
  change (format_output suite' (lit "json")) with (model_dump_json 2 suite').
  intros H. apply (f_equal decode_suite) in H.
  rewrite !decode_suite_dumped in H. now injection H.
Qed.

Lemma json_rendering_determines_suite_witness :
  login_suite = login_suite
  /\ format_output one_area_suite (lit "console")
     = format_output two_area_suite (lit "console").
Proof.
  destruct (json_rendering_determines_suite login_suite login_suite)
    as (Hjson & _ & Hconsole & _).
  split; [exact (Hjson eq_refl) | exact Hconsole].
Defined.



(** ** Replies that carry the JSON rendering of a suite *)

(** *** Where the rendering can hold a run of backticks

    What was shown of the opening fence holds of every text that starts
    with a backtick and holds no character the serializer escapes: the
    rendering of a value holds it only where one of its strings does. *)

Section TickPattern.

Variable p : str.
Hypothesis p_unescaped : forallb (fun c => negb (escaped c)) (96%N :: p) = true.

Lemma starts_with_tick (x : char) (s : str) :
  (x =? 96)%N = false -> starts_with (96%N :: p) (x :: s) = false.
Proof. intros H. cbn [starts_with]. now rewrite N.eqb_sym, H. Qed.

Lemma contains_tick_after (a b : str) :
  tick_free a = true -> contains (96%N :: p) (a ++ b) = contains (96%N :: p) b.
Proof.
  intros Ha. induction a as [|x a IH]; [reflexivity|].
  cbn [tick_free forallb] in Ha. apply andb_true_iff in Ha as [Hx Ha].
  apply negb_true_iff in Hx.
  cbn [app]. now rewrite contains_cons, starts_with_tick, IH.
Qed.

Lemma contains_tick_line (n : nat) (s : str) :
  contains (96%N :: p) (nl ++ times 32%N n ++ s) = contains (96%N :: p) s.
Proof.
  rewrite app_assoc. apply contains_tick_after.
  apply tick_free_app; [reflexivity | apply tick_free_spaces].
Qed.

Lemma contains_tick_escapes (s rest : str) :
  contains (96%N :: p) (flat_map escape_char s ++ 34%N :: rest)
  = contains (96%N :: p) s || contains (96%N :: p) rest.
Proof.
  induction s as [|c s IH].
  - cbn [flat_map app]. rewrite contains_cons.
    rewrite starts_with_tick by reflexivity.
    destruct p; reflexivity.
  - rewrite (contains_cons _ c s).
    rewrite <- (starts_with_escapes _ p_unescaped (c :: s) rest).
    cbn [flat_map]. rewrite <- app_assoc.
    destruct (escaped c) eqn:Hc.
    + destruct (escape_char_escaped c Hc) as (t & Ht & Htick). rewrite Ht.
      cbn [app]. rewrite contains_cons.
      rewrite starts_with_tick by reflexivity.
      cbn [orb]. now rewrite contains_tick_after, IH by exact Htick.
    + rewrite (escape_char_plain c Hc). cbn [app].
      now rewrite contains_cons, IH, orb_assoc.
Qed.

Lemma contains_tick_written (v : value) :
  plain v = true ->
  forallb (fun s => negb (contains (96%N :: p) s)) (value_texts v) = true ->
  forall w level rest,
    contains (96%N :: p) (write_value w level v ++ rest) = contains (96%N :: p) rest.
Proof.
  induction v as [ | b | z | x | s | l IH | items IH] using value_ind;
    intros Hp Ht w level rest.
  - now apply contains_tick_after.
  - destruct b; now apply contains_tick_after.
  - apply contains_tick_after, tick_free_str_of_Z.
  - discriminate.
  - cbn [write_value]. rewrite write_str_app, contains_cons.
    rewrite starts_with_tick by reflexivity. cbn [orb].
    rewrite contains_tick_escapes.
    cbn [value_texts forallb] in Ht.
    rewrite andb_true_r in Ht. apply negb_true_iff in Ht. now rewrite Ht.
  - destruct l as [|x l]; [now apply contains_tick_after|].
    rewrite write_list_cons, contains_cons.
    rewrite starts_with_tick by reflexivity. cbn [orb].
    rewrite contains_tick_line.
    cbn [plain] in Hp. cbn [value_texts] in Ht.
    revert x Hp Ht IH. induction l as [|y l IHl]; intros x Hp Ht IH.
    + cbn [forallb flat_map] in Hp, Ht. rewrite app_nil_r in Ht.
      rewrite andb_true_r in Hp.
      inversion IH as [|? ? Hx _]; subst.
      rewrite Hx by assumption.
      cbn [more_values map concat app]. rewrite contains_tick_line.
      rewrite contains_cons. now rewrite starts_with_tick by reflexivity.
    + cbn [forallb] in Hp. apply andb_true_iff in Hp as [Hpx Hp].
      cbn [flat_map] in Ht. rewrite forallb_app in Ht.
      apply andb_true_iff in Ht as [Htx Ht].
      inversion IH as [|? ? Hx IH']; subst.
      rewrite Hx by assumption.
      rewrite more_values_cons, contains_cons.
      rewrite starts_with_tick by reflexivity. cbn [orb].
      rewrite contains_tick_line.
      now apply IHl.
  - destruct items as [|[k x] items]; [now apply contains_tick_after|].
    rewrite write_dict_cons, contains_cons.
    rewrite starts_with_tick by reflexivity. cbn [orb].
    rewrite contains_tick_line.
    cbn [plain] in Hp. cbn [value_texts] in Ht.
    revert k x Hp Ht IH. induction items as [|[k' y] items IHl]; intros k x Hp Ht IH.
    + cbn [forallb flat_map fst snd app] in Hp, Ht. rewrite app_nil_r in Ht.
      rewrite andb_true_r in Hp.
      apply andb_true_iff in Ht as [Htk Ht].
      apply negb_true_iff in Htk.
      inversion IH as [|? ? Hx _]; subst. cbn [snd] in Hx.
      rewrite contains_cons, starts_with_tick by reflexivity. cbn [orb].
      rewrite contains_tick_escapes, Htk. cbn [orb].
      change (58%N :: 32%N :: ?t) with ([58%N; 32%N] ++ t).
      rewrite contains_tick_after by reflexivity.
      rewrite Hx by assumption.
      cbn [more_pairs map concat app]. rewrite contains_tick_line.
      rewrite contains_cons. now rewrite starts_with_tick by reflexivity.
    + cbn [forallb snd] in Hp. apply andb_true_iff in Hp as [Hpx Hp].
      cbn [flat_map fst snd] in Ht. cbn [app forallb] in Ht.
      apply andb_true_iff in Ht as [Htk Ht].
      rewrite forallb_app in Ht. apply andb_true_iff in Ht as [Htx Ht].
      apply negb_true_iff in Htk.
      inversion IH as [|? ? Hx IH']; subst. cbn [snd] in Hx.
      rewrite contains_cons, starts_with_tick by reflexivity. cbn [orb].
      rewrite contains_tick_escapes, Htk. cbn [orb].
      change (58%N :: 32%N :: ?t) with ([58%N; 32%N] ++ t).
      rewrite contains_tick_after by reflexivity.
      rewrite Hx by assumption.
      rewrite more_pairs_cons, contains_cons.
      rewrite starts_with_tick by reflexivity. cbn [orb].
      rewrite contains_tick_line.
      now apply IHl.
Qed.

End TickPattern.

(** The texts of a dumped suite are its own and the names of the fields. *)
Lemma forallb_texts_dump_TestScenario (P : str -> bool) (t : TestScenario) :
  forallb P TestScenario_names = true ->
  forallb P (value_texts (dump_TestScenario t)) = forallb P (scenario_texts t).
Proof.
  intros H. unfold TestScenario_names in H. cbn [map forallb] in H.
  repeat (let Hn := fresh "Hn" in apply andb_true_iff in H as [Hn H]).
  unfold dump_TestScenario, scenario_texts.
  cbn [value_texts flat_map fst snd app forallb].
  rewrite !value_texts_strs, ?app_nil_r.
  repeat (rewrite forallb_app || cbn [forallb]).
  repeat match goal with
         | Hn : P _ = true |- _ => rewrite Hn; clear Hn
         end.
  cbn [andb]. now rewrite ?andb_true_r.
Qed.

Lemma forallb_texts_model_dump (P : str -> bool) (t : TestSuite) :
  forallb P (TestSuite_names ++ TestScenario_names) = true ->
  forallb P (value_texts (model_dump t)) = forallb P (suite_texts t).
Proof.
  intros H. rewrite forallb_app in H. apply andb_true_iff in H as [H Hscenario].
  unfold TestSuite_names in H. cbn [map forallb] in H.
  repeat (let Hn := fresh "Hn" in apply andb_true_iff in H as [Hn H]).
  unfold model_dump, suite_texts.
  cbn [value_texts flat_map fst snd app forallb].
  rewrite value_texts_strs, ?app_nil_r.
  assert (Hs : forallb P (flat_map value_texts
                            (map dump_TestScenario (test_scenarios t)))
               = forallb P (flat_map scenario_texts (test_scenarios t))).
  { induction (test_scenarios t) as [|x l IH]; [reflexivity|].
    cbn [map flat_map].
    now rewrite !forallb_app, IH, forallb_texts_dump_TestScenario. }
  repeat (rewrite forallb_app || cbn [forallb]).
  rewrite Hs.
  repeat match goal with
         | Hn : P _ = true |- _ => rewrite Hn; clear Hn
         end.
  cbn [andb]. now rewrite ?andb_true_r.
Qed.

Lemma last_after {A} (a s : list A) (x d : A) :
  last s d = x /\ s <> [] -> last (a ++ s) d = x /\ a ++ s <> [].
Proof.
  intros [H Hs]. split; [|now destruct a, s].
  induction a as [|y a IH]; [exact H|].
  cbn [app]. destruct (a ++ s) eqn:E; [now destruct a, s | exact IH].
Qed.

Lemma last_after_cons {A} (c : A) (s : list A) (x d : A) :
  last s d = x /\ s <> [] -> last (c :: s) d = x /\ c :: s <> [].
Proof. exact (@last_after A [c] s x d). Qed.

(** The rendering of a suite is an object: it starts with a brace and ends
    with one. *)
Lemma model_dump_json_braces (indent : nat) (t : TestSuite) :
  (exists body, model_dump_json indent t = 123%N :: body)
  /\ last (model_dump_json indent t) 0%N = 125%N.
Proof.
  unfold model_dump_json, model_dump.
  pose proof (write_dict_cons indent 0 (lit "user_story") (VStr (user_story t))
                [ (lit "test_scenarios",
                   VList (map dump_TestScenario (test_scenarios t)));
                  (lit "coverage_areas", VList (map VStr (coverage_areas t)));
                  (lit "total_scenarios", VInt (total_scenarios t)) ] []) as H.
  rewrite app_nil_r in H. rewrite H. split; [eexists; reflexivity|].
  match goal with
  | |- last ?s _ = _ => cut (last s 0%N = 125%N /\ s <> []); [tauto|]
  end.
  repeat first [ solve [split; [reflexivity | discriminate]]
               | apply last_after_cons | apply last_after ].
Qed.

Lemma tick_free_no_fence (p s : str) :
  tick_free s = true -> contains (96%N :: p) s = false.
Proof.
  intros H. rewrite <- (app_nil_r s).
  rewrite contains_tick_after by exact H. destruct p; reflexivity.
Qed.

Lemma json_ws_tick_free (ws : str) : forallb is_json_ws ws = true -> tick_free ws = true.
Proof.
  unfold tick_free. intros H. rewrite forallb_forall in H |- *.
  intros c Hc. specialize (H c Hc). apply negb_true_iff, N.eqb_neq. intros ->.
  discriminate.
Qed.

Lemma skip_ws_all (ws s : str) :
  forallb is_json_ws ws = true -> skip_ws (ws ++ s) = skip_ws s.
Proof.
  induction ws as [|c ws IH]; [reflexivity|].
  cbn [forallb]. intros H. apply andb_true_iff in H as [Hc H].
  cbn [app skip_ws]. now rewrite Hc, IH.
Qed.

Lemma ends_number_ws (ws : str) : forallb is_json_ws ws = true -> ends_number ws = true.
Proof.
  destruct ws as [|c ws]; [reflexivity|]. cbn [forallb ends_number].
  intros H. apply andb_true_iff in H as [Hc _].
  unfold is_json_ws in Hc. rewrite !orb_true_iff, !N.eqb_eq in Hc.
  destruct Hc as [[[-> | ->] | ->] | ->]; reflexivity.
Qed.

(** [json.loads] reads back what the serializer writes, with blanks before
    and after. *)
Lemma json_loads_written_between (w : nat) (v : value) (ws1 ws2 : str) :
  plain v = true ->
  forallb is_json_ws ws1 = true -> forallb is_json_ws ws2 = true ->
  json_loads (ws1 ++ write_value w 0 v ++ ws2) = Ok v.
Proof.
  intros Hp H1 H2. unfold json_loads.
  destruct (write_value_head w 0 v Hp) as (c & t & Hv & Hc).
  assert (Hbom : starts_with [65279%N] (ws1 ++ write_value w 0 v ++ ws2) = false).
  { destruct ws1 as [|x ws1]; cbn [app starts_with].
    - rewrite Hv. cbn [app starts_with].
      now rewrite (N.eqb_sym 65279 c), (value_start_not c 65279%N Hc eq_refl).
    - cbn [forallb] in H1. apply andb_true_iff in H1 as [Hx _].
      destruct (N.eqb_spec 65279 x) as [<-|]; [discriminate | reflexivity]. }
  rewrite Hbom, (skip_ws_all _ _ H1), (skip_ws_value w 0 v ws2 Hp).
  rewrite (@scan_once_written v Hp w 0 _ ws2);
    [| rewrite !length_app; lia | now apply ends_number_ws].
  rewrite <- (app_nil_r ws2), (skip_ws_all _ _ H2). reflexivity.
Qed.

(** X10.  A reply that carries the JSON rendering of a suite parses to
    that suite, provided no text of the suite holds three backticks in a
    row: when the rendering stands in a fenced block with the [json] tag,
    whatever precedes the block (without such a fence of its own) and
    whatever follows it; and when the rendering is the whole reply, blanks
    before and after it apart. *)
Theorem reply_with_rendering_parses_back (suite : TestSuite) (indent : nat) :
  forallb backticks_free (suite_texts suite) = true ->
  (forall pre ws1 ws2 post,
     contains fence_open pre = false ->
     forallb is_space ws1 = true -> forallb is_space ws2 = true ->
     _parse_ai_response
       (pre ++ fence_open ++ ws1 ++ model_dump_json indent suite
            ++ ws2 ++ fence_close ++ post)
     = Ok suite)
  /\ (forall ws1 ws2,
        forallb is_json_ws ws1 = true -> forallb is_json_ws ws2 = true ->
        _parse_ai_response (ws1 ++ model_dump_json indent suite ++ ws2) = Ok suite).
Proof.
  intros Hfree.
  assert (Hclose : forall rest,
             contains fence_close (model_dump_json indent suite ++ rest)
             = contains fence_close rest).
  { intros rest. unfold model_dump_json. rewrite fence_close_chars.
    apply contains_tick_written; [reflexivity | apply plain_model_dump |].
    rewrite forallb_texts_model_dump by reflexivity.
    rewrite <- fence_close_chars. exact Hfree. }
  split.
  - intros pre ws1 ws2 post Hpre H1 H2.
    destruct (model_dump_json_braces indent suite) as [[body Hbody] Hlast].
    rewrite parse_ai_response_eq. unfold extracted_json.
    rewrite re_search_fenced; [now rewrite decode_suite_dumped | assumption..| | |].
    + rewrite Hbody. discriminate.
    + now rewrite Hbody.
    + unfold closed_by_fence. rewrite Hlast.
      specialize (Hclose []). rewrite app_nil_r in Hclose. now rewrite Hclose.
  - intros ws1 ws2 H1 H2.
    rewrite parse_ai_response_eq.
    rewrite extracted_json_unfenced.
    + unfold decode_suite, model_dump_json.
      rewrite json_loads_written_between by (assumption || apply plain_model_dump).
      cbn [bind]. now rewrite TestSuite_new_dumped.
    + change fence_open with (fence_close ++ lit "json"). apply contains_longer.
      rewrite fence_close_chars.
      rewrite contains_tick_after by now apply json_ws_tick_free.
      rewrite <- fence_close_chars, Hclose, fence_close_chars.
      apply tick_free_no_fence. now apply json_ws_tick_free.
Qed.

Lemma reply_with_rendering_parses_back_witness :
  _parse_ai_response
    (lit "Here is the suite:" ++ nl ++ fence_open ++ nl
       ++ model_dump_json 2 quoting_suite ++ nl ++ fence_close ++ nl ++ lit "Done.")
  = Ok quoting_suite
  /\ _parse_ai_response (nl ++ model_dump_json 2 quoting_suite ++ nl) = Ok quoting_suite.
Proof.
  destruct (@reply_with_rendering_parses_back quoting_suite 2 eq_refl)
    as [Hfenced Hbare].
  split.
  - apply (Hfenced (lit "Here is the suite:" ++ nl) nl nl (nl ++ lit "Done."));
      reflexivity.
  - apply (Hbare nl nl); reflexivity.
Defined.

(** ** The [demo] command *)



(** ** The [setup] command *)

(** X12.  [setup] only reports: every line goes to standard output and no
    run ends with an error status.  It announces that the setup is complete
    exactly when the [.env] file exists, the key is set, not empty and not
    the placeholder of [.env.example], the generator can be built, and a
    generation for the trial story succeeds.  With the placeholder key it
    stops before the generator is built, although [TestCaseGenerator()]
    itself accepts that key. *)
Theorem setup_reports
  (invoke : ChatOpenAI -> list message -> result str) (format_instructions : str)
  (env : environ) (env_file_exists : bool) :
  let echoed := setup invoke format_instructions env env_file_exists in
  Forall (fun line => exists text, line = Echo text) echoed
  /\ (In setup_complete echoed <->
      env_file_exists = true /\ key_configured env
      /\ exists generator suite,
           __init__ env = Ok generator
           /\ generate_test_cases invoke format_instructions generator
                setup_story None = Ok suite)
  /\ (env_file_exists = true ->
      env (lit "OPENAI_API_KEY") = Some (lit "your_openai_api_key_here") ->
      echoed = [ Echo ([128295%N] ++ lit " Test Case Generator Setup");
                 Echo (times 61%N 40);
                 Echo ([9989%N] ++ lit " .env file found");
                 Echo ([10060%N] ++ lit " OpenAI API key not configured");
                 Echo (lit "Please set OPENAI_API_KEY in your .env file") ])
  /\ (exists generator,
        __init__ placeholder_env = Ok generator
        /\ api_key generator = lit "your_openai_api_key_here").
Proof.
  intros echoed. unfold echoed, setup, setup_complete, key_configured.
  fold setup_story.
  split; [|split; [|split]].
  - destruct env_file_exists; cbn [app].
    + repeat (constructor; [eexists; reflexivity|]).
      destruct (env (lit "OPENAI_API_KEY")) as [[|c key]|];
        try (repeat (constructor; [eexists; reflexivity|]); constructor).
      destruct (negb _);
        [|repeat (constructor; [eexists; reflexivity|]); constructor].
      constructor; [eexists; reflexivity|].
      destruct (__init__ env) as [generator|e];
        [|repeat (constructor; [eexists; reflexivity|]); constructor].
      constructor; [eexists; reflexivity|].
      destruct (generate_test_cases _ _ _ _ _);
        repeat (constructor; [eexists; reflexivity|]); constructor.
    + repeat (constructor; [eexists; reflexivity|]). constructor.
  - destruct env_file_exists; cbn [app].
    + destruct (env (lit "OPENAI_API_KEY")) as [[|c key]|] eqn:Hkey.
      * split.
        -- cbn [In]. intros H.
           repeat (destruct H as [H|H]; [discriminate H|]). destruct H.
        -- intros (_ & (key & [= <-] & Hne & _) & _). contradiction.
      * destruct (str_eqb (c :: key) (lit "your_openai_api_key_here")) eqn:Hp;
          cbn [negb].
        -- split.
           ++ cbn [In]. intros H.
              repeat (destruct H as [H|H]; [discriminate H|]). destruct H.
           ++ intros (_ & (key' & [= <-] & _ & Hne) & _).
              apply str_eqb_eq in Hp. contradiction.
        -- assert (Hconf : exists key',
                      Some (c :: key) = Some key'
                      /\ key' <> [] /\ key' <> lit "your_openai_api_key_here").
           { exists (c :: key). split; [reflexivity|]. split; [discriminate|].
             intros E. rewrite E, str_eqb_refl in Hp. discriminate. }
           destruct (__init__ env) as [generator|e].
           ++ destruct (generate_test_cases invoke format_instructions generator
                          setup_story None) as [suite|e] eqn:Hg.
              ** split.
                 --- intros _. split; [reflexivity|]. split; [exact Hconf|].
                     now exists generator, suite.
                 --- intros _. cbn [In]. tauto.
              ** split.
                 --- cbn [In]. intros H.
                     repeat (destruct H as [H|H]; [discriminate H|]). destruct H.
                 --- intros (_ & _ & g & suite & [= <-] & Hs). congruence.
           ++ split.
              ** cbn [In]. intros H.
                 repeat (destruct H as [H|H]; [discriminate H|]). destruct H.
              ** intros (_ & _ & g & suite & Hi & _). discriminate.
      * split.
        -- cbn [In]. intros H.
           repeat (destruct H as [H|H]; [discriminate H|]). destruct H.
        -- intros (_ & (key & Hk & _) & _). discriminate.
    + split.
      * cbn [In]. intros H.
        repeat (destruct H as [H|H]; [discriminate H|]). destruct H.
      * intros (H & _). discriminate.
  - intros -> Hkey. rewrite Hkey. reflexivity.
  - eexists. split; reflexivity.
Qed.

Lemma setup_reports_witness :
  setup (answering miscounting_reply) [] placeholder_env true
  = [ Echo ([128295%N] ++ lit " Test Case Generator Setup");
      Echo (times 61%N 40);
      Echo ([9989%N] ++ lit " .env file found");
      Echo ([10060%N] ++ lit " OpenAI API key not configured");
      Echo (lit "Please set OPENAI_API_KEY in your .env file") ].
Proof.
  destruct (setup_reports (answering miscounting_reply) [] placeholder_env true)
    as (_ & _ & Hplaceholder & _).
  apply Hplaceholder; reflexivity.
Defined.

(** ** The [batch] command *)

Section Batch.

Variable invoke : ChatOpenAI -> list message -> result str.
Variable format_instructions : str.
Variable generator : TestCaseGenerator.

(** The loop over entries that all yield a suite. *)
Lemma batch_loop_yields (total : nat) (entries : list value) :
  forall suites i all_results,
    Forall2 (entry_yields invoke format_instructions generator) entries suites ->
    batch_loop invoke format_instructions generator total (enumerate entries i)
      all_results
    = (map (progress_line total) (seq i (length entries)),
       Ok (all_results ++ suites)).
Proof.
  induction entries as [|entry entries IH]; intros suites i all_results HF;
    inversion HF as [|? suite ? suites' (story & criteria & Hs & Hg) HF']; subst.
  - cbn [enumerate batch_loop length seq map]. now rewrite app_nil_r.
  - cbn [enumerate batch_loop]. rewrite Hs, Hg.
    rewrite (IH suites' (S i) (all_results ++ [suite]) HF').
    cbn [length seq map]. fold (progress_line total i).
    now rewrite <- app_assoc.
Qed.

(** The loop in general: a line per story tried, and either an exception or
    a suite for every entry. *)
Lemma batch_loop_cases (total : nat) (entries : list value) :
  forall i all_results,
    exists k r,
      batch_loop invoke format_instructions generator total (enumerate entries i)
        all_results
      = (map (progress_line total) (seq i k), r)
      /\ k <= length entries
      /\ ((exists e, r = Raise e)
          \/ (exists suites,
                 r = Ok (all_results ++ suites)
                 /\ k = length entries
                 /\ Forall2 (entry_yields invoke format_instructions generator)
                      entries suites)).
Proof.
  induction entries as [|entry entries IH]; intros i all_results.
  - exists 0, (Ok all_results). cbn [enumerate batch_loop seq map length].
    split; [reflexivity|]. split; [lia|]. right. exists [].
    rewrite app_nil_r. repeat split. constructor.
  - cbn [enumerate batch_loop].
    destruct (story_and_criteria entry) as [[story criteria]|e] eqn:Hs.
    + destruct (generate_test_cases_value invoke format_instructions generator
                  story criteria) as [suite|e] eqn:Hg.
      * destruct (IH (S i) (all_results ++ [suite])) as (k & r & Hl & Hk & Hr).
        rewrite Hl. exists (S k), r. cbn [seq map length].
        split; [reflexivity|]. split; [lia|].
        destruct Hr as [He|(suites & -> & -> & HF)]; [now left|right].
        exists (suite :: suites). rewrite <- app_assoc.
        repeat split. constructor; [|exact HF]. now exists story, criteria.
      * exists 1, (Raise e). cbn [seq map length].
        split; [reflexivity|]. split; [lia|]. left. now exists e.
    + exists 0, (Raise e). cbn [seq map length].
      split; [reflexivity|]. split; [lia|]. left. now exists e.
Qed.

End Batch.

(** X13.  A run of [batch] is all or nothing.  It echoes its opening line,
    then one line per story it tries, numbered from 1, and one last line:
    either an error, with exit status 1 and no suite shown, or the combined
    output of the suites of all the entries.  The latter is the case exactly
    when the file holds an array, the generator is built, and every entry
    yields a suite; the suites are then combined in the order of the
    entries, as one JSON array for the ["json"] selector, their renderings
    two line ends apart for the others. *)
Theorem batch_all_or_nothing
  (invoke : ChatOpenAI -> list message -> result str) (format_instructions : str)
  (env : environ) (input_file : str) (output : str) :
  let echoed := batch invoke format_instructions env input_file output in
  (exists total k final,
      echoed = batch_header :: map (progress_line total) (seq 1 k) ++ [final]
      /\ ((exists e, final = batch_error e)
          \/ (exists data generator suites,
                 json_loads input_file = Ok (VList data)
                 /\ __init__ env = Ok generator
                 /\ total = length data /\ k = length data
                 /\ Forall2 (entry_yields invoke format_instructions generator)
                      data suites
                 /\ final = Echo (combined_output output suites))))
  /\ (forall data generator suites,
        json_loads input_file = Ok (VList data) ->
        __init__ env = Ok generator ->
        Forall2 (entry_yields invoke format_instructions generator) data suites ->
        echoed = batch_header
                   :: map (progress_line (length data)) (seq 1 (length data))
                   ++ [Echo (combined_output output suites)]).
Proof.
  intros echoed. unfold echoed, batch. fold batch_header. split.
  - destruct (json_loads input_file) as [v|e].
    + destruct v as [ | b | z | x | s | data | items];
        try (exists 0, 0, (batch_error not_an_array);
             split; [reflexivity | left; now exists not_an_array]).
      destruct (__init__ env) as [generator|e].
      * destruct (batch_loop_cases invoke format_instructions generator
                    (length data) data 1 []) as (k & r & Hl & Hk & Hr).
        rewrite Hl. exists (length data), k.
        destruct Hr as [[e ->]|(suites & -> & -> & HF)]; cbn [bind app].
        -- exists (batch_error e). split; [reflexivity | left; now exists e].
        -- exists (Echo (combined_output output suites)).
           split; [reflexivity|]. right. exists data, generator, suites.
           repeat split. exact HF.
      * exists 0, 0, (batch_error e). split; [reflexivity | left; now exists e].
    + exists 0, 0, (batch_error e). split; [reflexivity | left; now exists e].
  - intros data generator suites Hj Hi HF. rewrite Hj, Hi.
    rewrite (batch_loop_yields (length data) 1 [] HF). reflexivity.
Qed.

Lemma batch_all_or_nothing_witness :
  batch (answering miscounting_reply) [] test_env
    (qlit "['As a user, I want to login to my account']") (lit "markdown")
  = [ batch_header;
      progress_line 1 1;
      Echo (format_output
              {| user_story := lit "Test story";
                 test_scenarios :=
                   [ {| scenario_id := lit "TC001";
                        title := lit "Valid login test";
                        description :=
                          lit "Test successful login with valid credentials";
                        preconditions := [ lit "User account exists";
                                           lit "Application is running" ];
                        test_steps := [ lit "Enter valid email";
                                        lit "Enter valid password";
                                        lit "Click login" ];
                        expected_result := lit "User is logged in successfully";
                        test_type := lit "positive";
                        priority := lit "high" |} ];
                 coverage_areas := [lit "Authentication"; lit "User Interface"];
                 total_scenarios := 1 |} (lit "markdown")) ].
Proof.
  destruct (batch_all_or_nothing (answering miscounting_reply) [] test_env
              (qlit "['As a user, I want to login to my account']") (lit "markdown"))
    as [_ Hall].
  refine (Hall [VStr (lit "As a user, I want to login to my account")]
            test_generator [_] _ eq_refl _).
  - vm_compute. reflexivity.
  - constructor; [|constructor].
    exists (VStr (lit "As a user, I want to login to my account")), VNone.
    split; [reflexivity | vm_compute; reflexivity].
Defined.

(** X14.  What [batch] does before the first story.  A file that is no
    JSON text, or whose JSON text is no array, ends the run with an error
    before the generator is built: the environment and the service play no
    part.  For an array, the generator is built next, and a failure of that
    (a missing key) ends the run before any story is tried.  An empty
    array is no error: the output is [[]] for the ["json"] selector and
    empty for the others. *)
Theorem batch_before_the_first_story
  (invoke : ChatOpenAI -> list message -> result str) (format_instructions : str)
  (env : environ) (input_file : str) (output : str) :
  let echoed := batch invoke format_instructions env input_file output in
  (forall e, json_loads input_file = Raise e ->
             echoed = [batch_header; batch_error e])
  /\ (forall v, json_loads input_file = Ok v -> (forall data, v <> VList data) ->
                echoed = [batch_header; batch_error not_an_array])
  /\ (forall data e,
        json_loads input_file = Ok (VList data) -> __init__ env = Raise e ->
        echoed = [batch_header; batch_error e])
  /\ (forall generator,
        json_loads input_file = Ok (VList []) -> __init__ env = Ok generator ->
        echoed = [ batch_header;
                   Echo (if str_eqb output (lit "json") then lit "[]" else []) ]).
Proof.
  intros echoed. unfold echoed, batch. fold batch_header. repeat split.
  - intros e ->. reflexivity.
  - intros v -> Hv. destruct v; try reflexivity. now contradiction (Hv l).
  - intros data e -> ->. reflexivity.
  - intros generator -> ->. cbn [length enumerate batch_loop bind app map].
    now destruct (str_eqb output (lit "json")).
Qed.

Lemma batch_before_the_first_story_witness :
  batch (answering miscounting_reply) [] test_env (lit "{}") (lit "json")
  = [batch_header; batch_error not_an_array].
Proof.
  destruct (batch_before_the_first_story (answering miscounting_reply) [] test_env
              (lit "{}") (lit "json")) as (_ & Hobject & _).
  apply (Hobject (VDict [])); [reflexivity | discriminate].
Defined.

(** [generate_test_cases] on values, stage by stage. *)
Lemma generate_test_cases_value_eq
  (invoke : ChatOpenAI -> list message -> result str) (format_instructions : str)
  (self : TestCaseGenerator) (user_story acceptance_criteria : value) :
  generate_test_cases_value invoke format_instructions self user_story
    acceptance_criteria
  = let wrapped e :=
      mk_exn Exception (lit "Failed to generate test cases: " ++ exn_str e) in
    match validate_user_story_value user_story acceptance_criteria with
    | Raise e => Raise (wrapped e)
    | Ok input =>
        match invoke (llm self) (prompt_messages format_instructions input) with
        | Raise e => Raise (wrapped e)
        | Ok reply =>
            match _parse_ai_response reply with
            | Raise e => Raise (wrapped e)
            | Ok parsed =>
                Ok (set_total_scenarios parsed
                      (Z.of_nat (length (test_scenarios parsed))))
            end
        end
    end.
Proof.
  unfold generate_test_cases_value. rewrite try_Exception.
  destruct (validate_user_story_value _ _) as [input|e]; cbn [bind]; [|reflexivity].
  fold (prompt_messages format_instructions input).
  destruct (invoke _ _) as [reply|e]; cbn [bind]; [|reflexivity].
  destruct (_parse_ai_response reply) as [parsed|e]; reflexivity.
Qed.

(** A story that is refused is refused whatever the criteria are. *)
Lemma validate_user_story_value_refused (user_story acceptance_criteria : value)
  (e : list verr) :
  check_str_min_length 10 user_story = Invalid e ->
  exists detail,
    validate_user_story_value user_story acceptance_criteria
    = Raise (mk_exn ValueError (lit "Invalid user story input: " ++ detail)).
Proof.
  intros H. unfold validate_user_story_value, UserStoryInput_new.
  assert (Hf : exists errs,
             UserStoryInput_fields
               [ (lit "story", user_story);
                 (lit "acceptance_criteria", acceptance_criteria) ]
             = Invalid errs).
  { unfold UserStoryInput_fields.
    assert (Hs : field "story" (check_str_min_length 10)
                   [ (lit "story", user_story);
                     (lit "acceptance_criteria", acceptance_criteria) ]
                 = under (lit "story") (Invalid e)).
    { change (field "story" (check_str_min_length 10)
                [ (lit "story", user_story);
                  (lit "acceptance_criteria", acceptance_criteria) ])
        with (under (lit "story") (check_str_min_length 10 user_story)).
      now rewrite H. }
    destruct (ap_errors_r (Valid Build_UserStoryInput) Hs) as (e1 & H1 & _).
    destruct (ap_errors_l
                (field_default "acceptance_criteria"
                   (check_optional (check_list check_str)) None
                   [ (lit "story", user_story);
                     (lit "acceptance_criteria", acceptance_criteria) ]) H1)
      as (e2 & H2 & _).
    destruct (ap_errors_l
                (field_default "story_type" (check_optional check_str)
                   (Some (lit "feature"))
                   [ (lit "story", user_story);
                     (lit "acceptance_criteria", acceptance_criteria) ]) H2)
      as (e3 & H3 & _).
    now exists e3. }
  destruct Hf as (errs & ->). cbn [construct try_ issubclass exn_class_of].
  eexists. reflexivity.
Qed.

(** X15.  What [batch] makes of an entry.  A text is a story without
    criteria, as is an object that holds the text under ["story"] and
    nothing else; the generation for it is the one of
    [generate_test_cases] for that story.  An object without ["story"]
    stands for the empty story, which is refused; so is every story that is
    no text, whatever the criteria: in both cases the generation fails on
    the validation, before the service is asked.  An entry that is neither
    a text nor an object ends the run with an [AttributeError]. *)
Theorem batch_entry_handling
  (invoke : ChatOpenAI -> list message -> result str) (format_instructions : str)
  (self : TestCaseGenerator) :
  (forall s,
     story_and_criteria (VStr s) = Ok (VStr s, VNone)
     /\ story_and_criteria (VDict [(lit "story", VStr s)]) = Ok (VStr s, VNone)
     /\ generate_test_cases_value invoke format_instructions self (VStr s) VNone
        = generate_test_cases invoke format_instructions self s None)
  /\ (forall s criteria,
        generate_test_cases_value invoke format_instructions self (VStr s)
          (criteria_value criteria)
        = generate_test_cases invoke format_instructions self s criteria)
  /\ (forall items,
        dict_get (lit "story") items = None ->
        exists criteria detail,
          story_and_criteria (VDict items) = Ok (VStr [], criteria)
          /\ generate_test_cases_value invoke format_instructions self
               (VStr []) criteria
             = Raise (mk_exn Exception
                        (lit "Failed to generate test cases: "
                           ++ lit "Invalid user story input: " ++ detail)))
  /\ (forall story criteria,
        (forall s, story <> VStr s) ->
        exists detail,
          generate_test_cases_value invoke format_instructions self story criteria
          = Raise (mk_exn Exception
                     (lit "Failed to generate test cases: "
                        ++ lit "Invalid user story input: " ++ detail)))
  /\ (forall story_data,
        (forall s, story_data <> VStr s) ->
        (forall items, story_data <> VDict items) ->
        story_and_criteria story_data
        = Raise (mk_exn (OtherError (lit "AttributeError"))
                   (lit "'" ++ type_name story_data
                      ++ lit "' object has no attribute 'get'"))).
Proof.
  assert (Hrefused : forall story criteria e,
             check_str_min_length 10 story = Invalid e ->
             exists detail,
               generate_test_cases_value invoke format_instructions self story criteria
               = Raise (mk_exn Exception
                          (lit "Failed to generate test cases: "
                             ++ lit "Invalid user story input: " ++ detail))).
  { intros story criteria e H.
    destruct (@validate_user_story_value_refused story criteria e H) as (detail & Hv).
    exists detail. rewrite generate_test_cases_value_eq, Hv. reflexivity. }
  repeat split.
  - intros items Hget. cbn [story_and_criteria]. rewrite Hget.
    destruct (Hrefused (VStr [])
                match dict_get (lit "criteria") items with
                | Some v => v
                | None => VNone
                end _ eq_refl) as (detail & H).
    eexists _, detail. split; [reflexivity | exact H].
  - intros story criteria Hs.
    destruct story; try (eapply Hrefused; reflexivity).
    now contradiction (Hs s).
  - intros story_data Hs Hd.
    destruct story_data; try reflexivity;
      [now contradiction (Hs s) | now contradiction (Hd items)].
Qed.

Lemma batch_entry_handling_witness :
  exists detail,
    generate_test_cases_value (answering miscounting_reply) [] test_generator
      (VInt 42) VNone
    = Raise (mk_exn Exception
               (lit "Failed to generate test cases: "
                  ++ lit "Invalid user story input: " ++ detail)).
Proof.
  destruct (batch_entry_handling (answering miscounting_reply) [] test_generator)
    as (_ & _ & _ & Hstory & _).
  apply Hstory. discriminate.
Defined.

(** ** Replies that are no JSON text *)

Lemma contains_infix (p a b : str) : contains p (a ++ p ++ b) = true.
Proof.
  induction a as [|x a IH]; cbn [app].
  - destruct (p ++ b) eqn:E; cbn [contains]; rewrite <- E, starts_with_app;
      reflexivity.
  - rewrite contains_cons, IH. apply orb_true_r.
Qed.

(** The first backtick of a text lies where its part without backticks
    ends. *)
Lemma first_tick (pre x rest y : str) :
  tick_free pre = true ->
  pre ++ 96%N :: x = rest ++ 96%N :: y -> exists more, rest = pre ++ more.
Proof.
  revert rest. induction pre as [|c pre IH]; intros rest Hfree H.
  - now exists rest.
  - cbn [tick_free forallb] in Hfree. apply andb_true_iff in Hfree as [Hc Hfree].
    apply negb_true_iff, N.eqb_neq in Hc.
    destruct rest as [|r rest]; cbn [app] in H; injection H as Hr H.
    + congruence.
    + subst r. destruct (IH rest Hfree H) as [more ->]. now exists more.
Qed.

(** An opening fence that no closing fence follows is not found. *)
Lemma re_search_unclosed (pre body : str) :
  tick_free pre = true -> contains fence_close body = false ->
  re_search fence_pattern (pre ++ fence_open ++ body) = None.
Proof.
  intros Hpre Hbody.
  destruct (re_search fence_pattern (pre ++ fence_open ++ body)) as [g|] eqn:Hs;
    [|reflexivity].
  exfalso. apply re_search_found in Hs as (before & ws1 & ws2 & post & Hs & _ & _).
  rewrite fence_open_chars in Hs. cbn [app] in Hs.
  destruct (first_tick _ _ _ _ Hpre Hs) as [more ->].
  rewrite <- app_assoc in Hs. apply app_inv_head in Hs.
  assert (Hb : body = skipn 7 ((more ++ [96; 96; 96; 106; 115; 111; 110]%N)
                                 ++ ws1 ++ g ++ ws2 ++ fence_close ++ post)).
  { rewrite <- app_assoc. cbn [app]. rewrite <- Hs. reflexivity. }
  rewrite skipn_app in Hb.
  replace (7 - length (more ++ [96; 96; 96; 106; 115; 111; 110]%N)) with 0 in Hb
    by (rewrite length_app; cbn [length]; lia).
  cbn [skipn] in Hb.
  assert (Hin : contains fence_close body = true).
  { rewrite Hb, !app_assoc. rewrite <- (app_assoc _ fence_close post).
    apply contains_infix. }
  congruence.
Qed.

(** With no value ahead, the decoder expects one where the blanks end. *)
Lemma json_loads_no_value (ws s : str) :
  forallb is_json_ws ws = true -> no_value_ahead s = true ->
  json_loads (ws ++ s)
  = Raise (json_decode_error (lit "Expecting value") (ws ++ s) (length ws)).
Proof.
  intros Hws Hs. unfold json_loads.
  assert (Hhead : forall x t, ws = x :: t -> starts_with [65279%N] (ws ++ s) = false).
  { intros x t ->. cbn [forallb] in Hws. apply andb_true_iff in Hws as [Hx _].
    cbn [app starts_with].
    destruct (N.eqb_spec 65279 x) as [<-|]; [discriminate | reflexivity]. }
  destruct s as [|c s].
  - assert (Hbom : starts_with [65279%N] (ws ++ []) = false)
      by (destruct ws as [|x t]; [reflexivity | now apply (Hhead x t)]).
    rewrite Hbom, (skip_ws_all _ _ Hws).
    cbn [skip_ws scan_once]. rewrite app_nil_r. now rewrite Nat.sub_0_r.
  - cbn [no_value_ahead] in Hs. rewrite !andb_true_iff, !negb_true_iff in Hs.
    destruct Hs as (((((((((((Hd & H45) & H34) & H91) & H123) & Hw) & Hb) & Hnull)
                         & Htrue) & Hfalse) & Hnan) & Hinf).
    assert (Hbom : starts_with [65279%N] (ws ++ c :: s) = false).
    { destruct ws as [|x t]; [|now apply (Hhead x t)].
      cbn [app starts_with]. now rewrite N.eqb_sym, Hb. }
    rewrite Hbom, (skip_ws_all _ _ Hws).
    rewrite (@skip_ws_stop c s Hw). cbn [scan_once].
    rewrite H34, H123, H91, Hnull, Htrue, Hfalse, Hnan, Hinf.
    unfold match_number, match_unsigned. rewrite H45, Hd.
    replace (c =? 48)%N with false
      by (symmetry; apply N.eqb_neq; intros ->; discriminate).
    change (lit "-Infinity") with (45%N :: lit "Infinity"). cbn [starts_with].
    rewrite N.eqb_sym, H45. cbn [andb].
    f_equal. f_equal. rewrite length_app. lia.
Qed.

(** [scan_once] reads back a written object in front of any text. *)
Lemma scan_once_written_object (items : list (str * value)) :
  plain (VDict items) = true ->
  forall w level depth rest,
    length (write_value w level (VDict items) ++ rest) < depth ->
    scan_once depth (write_value w level (VDict items) ++ rest)
    = Scanned (VDict items) rest.
Proof.
  intros Hp w level depth rest Hd. destruct depth as [|depth]; [lia|].
  destruct items as [|[k x] items]; [reflexivity|].
  rewrite write_dict_cons in Hd |- *. cbn [scan_once].
  change (123 =? 34)%N with false. change (123 =? 123)%N with true. cbv iota.
  cbn [plain] in Hp. rewrite JSONObject_line.
  pose (inner := flat_map escape_char k ++ 34%N :: 58%N :: 32%N
                   :: write_value w (S level) x ++ more_pairs w (S level) items
                   ++ nl ++ times 32%N (w * level) ++ 125%N :: rest).
  rewrite object_items_written with (bound := length inner);
    [reflexivity | | unfold inner; lia | unfold inner; lia].
  rewrite Forall_forall. intros item Hin.
  rewrite forallb_forall in Hp. split; [now apply Hp|].
  intros tail Htail Hlen. apply scan_once_written; [now apply Hp| |exact Htail].
  unfold inner in Hlen. clear - Hd Hlen. lengths.
Qed.

Lemma parse_ai_response_no_json (response_text : str) (e : exn) :
  re_search fence_pattern response_text = None ->
  json_loads response_text = Raise e ->
  _parse_ai_response response_text
  = Raise (mk_exn ValueError (lit "Failed to parse AI response as JSON: " ++ exn_str e)).
Proof.
  intros Hs He. rewrite parse_ai_response_eq. unfold extracted_json, decode_suite.
  rewrite Hs, He. cbn [bind]. now rewrite (json_loads_raises _ He).
Qed.

(** X16.  Replies that are no JSON text, and hold no fenced block, fail
    as parse errors that tell where.  When the reply, blanks apart, is empty
    or starts with something that opens no JSON value (prose, say), the
    error is ["Expecting value"] at the first character after the blanks.
    So it is for a reply cut off inside its fenced block: without a closing
    fence the search finds nothing and the decoder meets the backticks at
    character 0.  When text follows the JSON rendering of a suite, the
    error is ["Extra data"] at the first character after the rendering that
    is no blank. *)
Theorem reply_that_is_no_json_text :
  (forall ws s,
     forallb is_json_ws ws = true -> no_value_ahead s = true ->
     re_search fence_pattern (ws ++ s) = None ->
     _parse_ai_response (ws ++ s)
     = Raise (mk_exn ValueError
                (lit "Failed to parse AI response as JSON: "
                   ++ exn_str (json_decode_error (lit "Expecting value")
                                 (ws ++ s) (length ws)))))
  /\ (forall body,
        contains fence_close body = false ->
        _parse_ai_response (fence_open ++ body)
        = Raise (mk_exn ValueError
                   (lit "Failed to parse AI response as JSON: "
                      ++ lit "Expecting value: line 1 column 1 (char 0)")))
  /\ (forall suite indent ws c tail,
        forallb is_json_ws ws = true -> is_json_ws c = false ->
        re_search fence_pattern (model_dump_json indent suite ++ ws ++ c :: tail)
          = None ->
        _parse_ai_response (model_dump_json indent suite ++ ws ++ c :: tail)
        = Raise (mk_exn ValueError
                   (lit "Failed to parse AI response as JSON: "
                      ++ exn_str (json_decode_error (lit "Extra data")
                                    (model_dump_json indent suite ++ ws ++ c :: tail)
                                    (length (model_dump_json indent suite)
                                       + length ws))))).
Proof.
  split; [|split].
  - intros ws s Hws Hs Hnone.
    apply parse_ai_response_no_json; [exact Hnone|].
    now apply json_loads_no_value.
  - intros body Hbody.
    pose proof (@json_loads_no_value [] (fence_open ++ body) eq_refl eq_refl) as H.
    cbn [app length] in H.
    rewrite (@parse_ai_response_no_json (fence_open ++ body) _
               (re_search_unclosed [] body eq_refl Hbody) H).
    reflexivity.
  - intros suite indent ws c tail Hws Hc Hnone.
    apply parse_ai_response_no_json; [exact Hnone|].
    unfold json_loads, model_dump_json in *.
    pose proof (plain_model_dump suite) as Hp.
    destruct (write_value_head indent 0 (model_dump suite) Hp) as (h & t & Hv & Hh).
    assert (Hbom : starts_with [65279%N]
                     (write_value indent 0 (model_dump suite) ++ ws ++ c :: tail)
                   = false).
    { rewrite Hv. cbn [app starts_with].
      now rewrite (N.eqb_sym 65279 h), (value_start_not h 65279%N Hh eq_refl). }
    rewrite Hbom, (skip_ws_value indent 0 (model_dump suite) _ Hp).
    unfold model_dump in *.
    rewrite scan_once_written_object; [|exact Hp|lia].
    rewrite (skip_ws_all _ _ Hws), (@skip_ws_stop c tail Hc).
    f_equal. f_equal. rewrite !length_app. cbn [length]. lia.
Qed.

Lemma reply_that_is_no_json_text_witness :
  _parse_ai_response cut_off_reply
  = Raise (mk_exn ValueError
             (lit "Failed to parse AI response as JSON: "
                ++ lit "Expecting value: line 1 column 1 (char 0)")).
Proof.
  destruct reply_that_is_no_json_text as (_ & Hcut & _).
  apply Hcut. reflexivity.
Defined.

(** ** The JSON output of [batch] read back *)

(** *** Escapes *)

Lemma hex4_decoded (n : N) (s : str) :
  (n < 65536)%N -> decode_uXXXX (hex4 n ++ s) = Some (n, s).
Proof.
  intros Hn. unfold hex4, decode_uXXXX. cbn [app].
  assert (H3 : (n / 4096 < 16)%N) by (apply N.Div0.div_lt_upper_bound; lia).
  assert (H2 : ((n / 256) mod 16 < 16)%N) by (apply N.mod_upper_bound; lia).
  assert (H1 : ((n / 16) mod 16 < 16)%N) by (apply N.mod_upper_bound; lia).
  assert (H0 : (n mod 16 < 16)%N) by (apply N.mod_upper_bound; lia).
  rewrite (hex_digit_hex_char H3), (hex_digit_hex_char H2),
    (hex_digit_hex_char H1), (hex_digit_hex_char H0).
  do 2 f_equal.
  pose proof (N.div_mod n 16 ltac:(lia)) as E0.
  pose proof (N.div_mod (n / 16) 16 ltac:(lia)) as E1.
  pose proof (N.div_mod (n / 256) 16 ltac:(lia)) as E2.
  rewrite N.Div0.div_div in E1, E2.
  change (16 * 16)%N with 256%N in E1. change (256 * 16)%N with 4096%N in E2.
  revert E0 E1 E2.
  generalize (n / 4096)%N, ((n / 256) mod 16)%N, ((n / 16) mod 16)%N, (n mod 16)%N,
    (n / 256)%N, (n / 16)%N.
  intros. lia.
Qed.

(** Below a multiple of 1024, [lor] adds. *)
Lemma lor_low_bits (k y : N) :
  (y < 1024)%N -> N.lor (N.shiftl k 10) y = (N.shiftl k 10 + y)%N.
Proof.
  intros Hy.
  assert (Hland : N.land (N.shiftl k 10) y = 0%N).
  { apply N.bits_inj. intros m. rewrite N.land_spec, N.bits_0.
    destruct (N.ltb_spec m 10) as [Hm|Hm].
    - now rewrite N.shiftl_spec_low.
    - destruct (N.eq_dec y 0) as [->|Hy0].
      + rewrite N.bits_0. apply andb_false_r.
      + rewrite (N.bits_above_log2 y m); [apply andb_false_r|].
        apply N.lt_le_trans with 10%N; [|exact Hm].
        apply N.log2_lt_pow2; [lia | exact Hy]. }
  now rewrite <- N.lxor_lor, <- N.add_nocarry_lxor.
Qed.

Lemma surrogates_of (n : N) :
  (n < 1048576)%N ->
  N.lor 55296 (N.land (N.shiftr n 10) 1023) = (55296 + n / 1024)%N
  /\ N.lor 56320 (N.land n 1023) = (56320 + n mod 1024)%N.
Proof.
  intros Hn.
  change 1023%N with (N.ones 10). rewrite !N.land_ones, N.shiftr_div_pow2.
  change (2 ^ 10)%N with 1024%N.
  assert (Hq : (n / 1024 < 1024)%N) by (apply N.Div0.div_lt_upper_bound; lia).
  rewrite (N.mod_small _ _ Hq).
  change 55296%N with (N.shiftl 54 10). change 56320%N with (N.shiftl 55 10).
  split; apply lor_low_bits; [exact Hq | apply N.mod_upper_bound; lia].
Qed.

Lemma scalar_cases (c : char) :
  scalar c = true -> (c < 55296 \/ 57343 < c < 1114112)%N.
Proof.
  unfold scalar. rewrite orb_true_iff, andb_true_iff, !N.ltb_lt. tauto.
Qed.

(** One round of [scanstring] reads back one encoded character. *)
Lemma scanstring_encode_char_ascii (c : char) (rounds begin : nat)
  (tail chunks : str) :
  scalar c = true ->
  scanstring (S rounds) begin (encode_char_ascii c ++ tail) chunks
  = scanstring rounds begin tail (c :: chunks).
Proof.
  intros Hc. apply scalar_cases in Hc. unfold encode_char_ascii.
  destruct (N.eqb_spec c 34) as [->|H34]; [reflexivity|].
  destruct (N.eqb_spec c 92) as [->|H92]; [reflexivity|].
  destruct ((32 <=? c) && (c <=? 126))%N eqn:Hprint.
  { apply andb_true_iff in Hprint as [Hlo Hhi]. apply N.leb_le in Hlo, Hhi.
    cbn [app scanstring].
    replace (c =? 34)%N with false by (symmetry; now apply N.eqb_neq).
    replace (c =? 92)%N with false by (symmetry; now apply N.eqb_neq).
    replace (c <? 32)%N with false by (symmetry; apply N.ltb_ge; lia).
    reflexivity. }
  destruct (N.eqb_spec c 8) as [->|H8]; [reflexivity|].
  destruct (N.eqb_spec c 12) as [->|H12]; [reflexivity|].
  destruct (N.eqb_spec c 10) as [->|H10]; [reflexivity|].
  destruct (N.eqb_spec c 13) as [->|H13]; [reflexivity|].
  destruct (N.eqb_spec c 9) as [->|H9]; [reflexivity|].
  destruct (N.ltb_spec c 65536) as [Hlt|Hge].
  - cbn [app scanstring].
    change (92 =? 34)%N with false. change (92 =? 92)%N with true.
    change (117 =? 117)%N with true. cbv iota.
    rewrite (hex4_decoded _ Hlt).
    replace ((55296 <=? c) && (c <=? 56319))%N with false; [reflexivity|].
    symmetry. apply andb_false_iff.
    destruct (N.leb_spec 55296 c); [right|now left]. apply N.leb_gt. lia.
  - assert (Hn : (c - 65536 < 1048576)%N) by lia.
    destruct (surrogates_of Hn) as [-> ->].
    assert (Hq : ((c - 65536) / 1024 < 1024)%N)
      by (apply N.Div0.div_lt_upper_bound; lia).
    assert (Hr : ((c - 65536) mod 1024 < 1024)%N)
      by (apply N.mod_upper_bound; lia).
    pose proof (N.div_mod (c - 65536) 1024 ltac:(lia)) as Hdm.
    revert Hq Hr Hdm.
    generalize ((c - 65536) / 1024)%N, ((c - 65536) mod 1024)%N. intros q r Hq Hr Hdm.
    cbv zeta. rewrite <- !app_assoc. cbn [app scanstring].
    change (92 =? 34)%N with false. change (92 =? 92)%N with true.
    change (117 =? 117)%N with true. cbv iota.
    rewrite hex4_decoded by lia.
    replace ((55296 <=? 55296 + q) && (55296 + q <=? 56319))%N with true
      by (symmetry; apply andb_true_iff; split; apply N.leb_le; lia).
    cbn [app]. change (92 =? 92)%N with true. change (117 =? 117)%N with true.
    cbn [andb]. cbv iota.
    rewrite hex4_decoded by lia.
    replace ((56320 <=? 56320 + r) && (56320 + r <=? 57343))%N with true
      by (symmetry; apply andb_true_iff; split; apply N.leb_le; lia).
    replace (65536 + ((55296 + q - 55296) * 1024 + (56320 + r - 56320)))%N with c
      by lia.
    reflexivity.
Qed.

(** [scanstring] reads back an encoded string up to its closing quote. *)
Lemma scanstring_encoded (s : str) :
  forall rounds begin rest chunks,
    forallb scalar s = true ->
    length s < rounds ->
    scanstring rounds begin (flat_map encode_char_ascii s ++ 34%N :: rest) chunks
    = Scanned (rev chunks ++ s) rest.
Proof.
  induction s as [|c s IH]; intros rounds begin rest chunks Hs Hr;
    (destruct rounds as [|rounds]; [simpl in Hr; lia|]).
  - cbn [flat_map app scanstring]. change (34 =? 34)%N with true. cbv iota.
    now rewrite app_nil_r.
  - cbn [forallb] in Hs. apply andb_true_iff in Hs as [Hc Hs].
    cbn [flat_map]. rewrite <- app_assoc, scanstring_encode_char_ascii by exact Hc.
    rewrite IH by (try exact Hs; simpl in Hr; lia).
    cbn [rev]. now rewrite <- app_assoc.
Qed.

Lemma encode_char_ascii_length (c : char) : 1 <= length (encode_char_ascii c).
Proof.
  unfold encode_char_ascii.
  repeat match goal with
         | |- context [if ?b then _ else _] => destruct b
         end; simpl; lia.
Qed.

Lemma flat_map_encode_length (s : str) :
  length s <= length (flat_map encode_char_ascii s).
Proof.
  induction s as [|c s IH]; simpl; [lia|].
  rewrite length_app. pose proof (encode_char_ascii_length c). lia.
Qed.

Lemma scanstring_encode_basestring (s rest : str) (begin : nat) :
  forallb scalar s = true ->
  scanstring (length (flat_map encode_char_ascii s ++ 34%N :: rest)) begin
    (flat_map encode_char_ascii s ++ 34%N :: rest) []
  = Scanned s rest.
Proof.
  intros Hs. rewrite scanstring_encoded; [reflexivity | exact Hs |].
  rewrite length_app. pose proof (flat_map_encode_length s). simpl. lia.
Qed.

(** *** Values *)

Lemma encodable_plain (v : value) : encodable v = true -> plain v = true.
Proof.
  induction v as [ | b | z | x | s | l IH | items IH] using value_ind;
    cbn [encodable plain]; try reflexivity; try (intros; assumption).
  - intros H. rewrite forallb_forall in H |- *. rewrite Forall_forall in IH.
    intros y Hy. apply IH; auto.
  - intros H. rewrite forallb_forall in H |- *. rewrite Forall_forall in IH.
    intros item Hi. apply IH; [exact Hi|].
    specialize (H item Hi). now apply andb_true_iff in H as [_ H].
Qed.

Lemma iterencode_head (w level : nat) (v : value) :
  encodable v = true ->
  exists c t, iterencode w level v = c :: t /\ value_start c = true.
Proof.
  destruct v as [ | b | z | x | s | l | items]; intros Hp.
  - now exists 110%N, (lit "ull").
  - destruct b; [now exists 116%N, (lit "rue") | now exists 102%N, (lit "alse")].
  - destruct (str_of_Z_head z) as (c & t & Hz & Hc).
    exists c, t. split; [exact Hz|].
    unfold value_start. destruct Hc as [-> | ->]; [reflexivity|reflexivity].
  - discriminate.
  - eexists 34%N, _. split; reflexivity.
  - destruct l; eexists 91%N, _; split; reflexivity.
  - destruct items as [|[k x] items]; eexists 123%N, _; split; reflexivity.
Qed.

Lemma skip_ws_encoded (w level : nat) (v : value) (tail : str) :
  encodable v = true ->
  skip_ws (iterencode w level v ++ tail) = iterencode w level v ++ tail.
Proof.
  intros Hp. destruct (iterencode_head w level v Hp) as (c & t & -> & Hc).
  apply skip_ws_stop. now apply value_start_not_ws.
Qed.

Lemma encode_basestring_app (k tail : str) :
  encode_basestring_ascii k ++ tail
  = 34%N :: flat_map encode_char_ascii k ++ 34%N :: tail.
Proof. unfold encode_basestring_ascii. cbn [app]. now rewrite <- app_assoc. Qed.

Lemma ends_number_items (w level : nat) (l : list value) (pad rest : str) :
  ends_number (more_items w level l ++ nl ++ pad ++ rest) = true.
Proof. destruct l; reflexivity. Qed.

Lemma ends_number_members (w level : nat) (l : list (str * value))
  (pad rest : str) :
  ends_number (more_members w level l ++ nl ++ pad ++ rest) = true.
Proof. destruct l; reflexivity. Qed.

Section EncodedItems.

Variable scan : str -> scan value.
Variables bound w level : nat.

Lemma more_items_cons (y : value) (l : list value) (tail : str) :
  more_items w level (y :: l) ++ tail
  = 44%N :: nl ++ times 32%N (w * level) ++ iterencode w level y
      ++ more_items w level l ++ tail.
Proof.
  unfold more_items. cbn [map concat]. change (lit ",") with [44%N].
  now rewrite <- !app_assoc.
Qed.

Lemma more_members_cons (k : str) (y : value) (l : list (str * value)) (tail : str) :
  more_members w level ((k, y) :: l) ++ tail
  = 44%N :: nl ++ times 32%N (w * level)
      ++ 34%N :: flat_map encode_char_ascii k
      ++ 34%N :: 58%N :: 32%N :: iterencode w level y
      ++ more_members w level l ++ tail.
Proof.
  unfold more_members. cbn [map concat fst snd]. change (lit ",") with [44%N].
  change (lit ": ") with [58%N; 32%N].
  rewrite <- !app_assoc. cbn [app]. rewrite encode_basestring_app. reflexivity.
Qed.

(** The loop of [JSONArray] reads back the items of an encoded array. *)
Lemma array_items_encoded (l : list value) :
  forall x values rounds n0 rest,
    Forall (fun y => encodable y = true /\ reads_encoded scan bound w level y)
      (x :: l) ->
    length (iterencode w level x ++ more_items w level l
              ++ nl ++ times 32%N n0 ++ 93%N :: rest) <= bound ->
    length (iterencode w level x ++ more_items w level l
              ++ nl ++ times 32%N n0 ++ 93%N :: rest) <= rounds ->
    array_items scan rounds
      (iterencode w level x ++ more_items w level l
         ++ nl ++ times 32%N n0 ++ 93%N :: rest) values
    = Scanned (VList (rev values ++ x :: l)) rest.
Proof.
  induction l as [|y l IH]; intros x values rounds n0 rest HF Hb Hr;
    inversion HF as [|? ? [Hpx Hrx] HF']; subst;
    (destruct rounds as [|rounds]; [exfalso; clear - Hr; lengths|]);
    cbn [array_items].
  - rewrite Hrx; [|reflexivity|exact Hb].
    cbn [more_items map concat app]. rewrite skip_ws_line.
    rewrite skip_ws_stop by reflexivity.
    change (93 =? 93)%N with true. cbv iota. reflexivity.
  - rewrite Hrx; [|apply ends_number_items|exact Hb].
    rewrite more_items_cons. rewrite skip_ws_stop by reflexivity.
    change (44 =? 93)%N with false. change (44 =? 44)%N with true. cbv iota.
    inversion HF' as [|? ? [Hpy Hry] HF'']; subst.
    rewrite skip_ws_line, skip_ws_encoded by exact Hpy.
    rewrite more_items_cons in Hb, Hr.
    rewrite IH; [|exact HF'| |].
    + cbn [rev]. now rewrite <- app_assoc.
    + clear - Hb. lengths.
    + clear - Hr. lengths.
Qed.

(** The loop of [JSONObject] reads back the members of an encoded object. *)
Lemma object_items_encoded (l : list (str * value)) :
  forall k x pairs rounds n0 rest,
    Forall (fun item => forallb scalar (fst item) = true
                        /\ encodable (snd item) = true
                        /\ reads_encoded scan bound w level (snd item))
      ((k, x) :: l) ->
    length (flat_map encode_char_ascii k ++ 34%N :: 58%N :: 32%N
              :: iterencode w level x
              ++ more_members w level l ++ nl ++ times 32%N n0 ++ 125%N :: rest)
      <= bound ->
    length (flat_map encode_char_ascii k ++ 34%N :: 58%N :: 32%N
              :: iterencode w level x
              ++ more_members w level l ++ nl ++ times 32%N n0 ++ 125%N :: rest)
      < rounds ->
    object_items scan rounds
      (flat_map encode_char_ascii k ++ 34%N :: 58%N :: 32%N :: iterencode w level x
         ++ more_members w level l ++ nl ++ times 32%N n0 ++ 125%N :: rest) pairs
    = Scanned (VDict (rev pairs ++ (k, x) :: l)) rest.
Proof.
  induction l as [|[k' y] l IH]; intros k x pairs rounds n0 rest HF Hb Hr;
    inversion HF as [|? ? (Hk & Hpx & Hrx) HF']; subst; cbn [fst snd] in Hk, Hpx, Hrx;
    (destruct rounds as [|rounds]; [lia|]);
    cbn [object_items]; rewrite scanstring_encode_basestring by exact Hk;
    change (58 =? 58)%N with true; cbv iota;
    change (skip_ws (32%N :: ?t)) with (skip_ws t);
    rewrite skip_ws_encoded by exact Hpx.
  - rewrite Hrx; [|reflexivity|clear - Hb; lengths].
    cbn [more_members map concat app]. rewrite skip_ws_line.
    rewrite skip_ws_stop by reflexivity.
    change (125 =? 125)%N with true. cbv iota. reflexivity.
  - rewrite Hrx; [|apply ends_number_members|clear - Hb; lengths].
    rewrite more_members_cons. rewrite skip_ws_stop by reflexivity.
    change (44 =? 125)%N with false. change (44 =? 44)%N with true. cbv iota.
    rewrite skip_ws_line, skip_ws_stop by reflexivity.
    change (34 =? 34)%N with true. cbv iota.
    rewrite more_members_cons in Hb, Hr.
    rewrite IH; [|exact HF'| |].
    + cbn [rev]. now rewrite <- app_assoc.
    + clear - Hb. lengths.
    + clear - Hr. lengths.
Qed.

End EncodedItems.

Lemma iterencode_list_cons (w level : nat) (x : value) (l : list value) (rest : str) :
  iterencode w level (VList (x :: l)) ++ rest
  = 91%N :: nl ++ times 32%N (w * S level)
      ++ iterencode w (S level) x ++ more_items w (S level) l
      ++ nl ++ times 32%N (w * level) ++ 93%N :: rest.
Proof.
  cbn [iterencode]. fold (more_items w (S level) l).
  change (lit "[") with [91%N]. change (lit "]") with [93%N].
  rewrite <- !app_assoc. reflexivity.
Qed.

Lemma iterencode_dict_cons (w level : nat) (k : str) (x : value)
  (l : list (str * value)) (rest : str) :
  iterencode w level (VDict ((k, x) :: l)) ++ rest
  = 123%N :: nl ++ times 32%N (w * S level)
      ++ 34%N :: flat_map encode_char_ascii k
      ++ 34%N :: 58%N :: 32%N :: iterencode w (S level) x
      ++ more_members w (S level) l
      ++ nl ++ times 32%N (w * level) ++ 125%N :: rest.
Proof.
  cbn [iterencode]. fold (more_members w (S level) l).
  change (lit "{") with [123%N]. change (lit "}") with [125%N].
  change (lit ": ") with [58%N; 32%N].
  rewrite <- !app_assoc. cbn [app]. rewrite encode_basestring_app. reflexivity.
Qed.

(** [scan_once] reads back every encoded value. *)
Lemma scan_once_encoded (v : value) :
  encodable v = true ->
  forall w level depth rest,
    length (iterencode w level v ++ rest) < depth ->
    ends_number rest = true ->
    scan_once depth (iterencode w level v ++ rest) = Scanned v rest.
Proof.
  induction v as [ | b | z | x | s | l IH | items IH] using value_ind;
    intros Hp w level depth rest Hd Hrest;
    (destruct depth as [|depth]; [lia|]).
  - reflexivity.
  - destruct b; reflexivity.
  - exact (@scan_once_written (VInt z) eq_refl w level (S depth) rest Hd Hrest).
  - discriminate.
  - cbn [iterencode]. rewrite encode_basestring_app. cbn [scan_once].
    change (34 =? 34)%N with true. cbv iota.
    now rewrite scanstring_encode_basestring.
  - destruct l as [|x l]; [reflexivity|].
    rewrite iterencode_list_cons in Hd |- *. cbn [scan_once].
    change (91 =? 34)%N with false. change (91 =? 123)%N with false.
    change (91 =? 91)%N with true. cbv iota.
    cbn [encodable] in Hp.
    assert (Hpx : encodable x = true)
      by (cbn [forallb] in Hp; now apply andb_true_iff in Hp as [Hpx _]).
    unfold JSONArray. rewrite skip_ws_line, skip_ws_encoded by exact Hpx.
    destruct (iterencode_head w (S level) x Hpx) as (c & t & Hx & Hc).
    set (inner := iterencode w (S level) x ++ more_items w (S level) l
                    ++ nl ++ times 32%N (w * level) ++ 93%N :: rest) in *.
    assert (Hinner : inner = c :: t ++ more_items w (S level) l
                               ++ nl ++ times 32%N (w * level) ++ 93%N :: rest)
      by (unfold inner; now rewrite Hx).
    rewrite Hinner at 1.
    rewrite (value_start_not c 93%N Hc eq_refl).
    replace (S (length (t ++ more_items w (S level) l
                          ++ nl ++ times 32%N (w * level) ++ 93%N :: rest)))
      with (length inner) by (now rewrite Hinner).
    rewrite <- Hinner. unfold inner.
    rewrite array_items_encoded with (bound := length inner);
      [reflexivity | | unfold inner; lia | unfold inner; lia].
    rewrite Forall_forall in IH |- *. rewrite forallb_forall in Hp.
    intros y Hy. split; [now apply Hp|].
    intros tail Htail Hlen. apply IH; [exact Hy | now apply Hp | | exact Htail].
    clear - Hd Hlen. lengths.
  - destruct items as [|[k x] items]; [reflexivity|].
    rewrite iterencode_dict_cons in Hd |- *. cbn [scan_once].
    change (123 =? 34)%N with false. change (123 =? 123)%N with true. cbv iota.
    cbn [encodable] in Hp.
    rewrite JSONObject_line.
    pose (inner := flat_map encode_char_ascii k ++ 34%N :: 58%N :: 32%N
                     :: iterencode w (S level) x ++ more_members w (S level) items
                     ++ nl ++ times 32%N (w * level) ++ 125%N :: rest).
    rewrite object_items_encoded with (bound := length inner);
      [reflexivity | | unfold inner; lia | unfold inner; lia].
    rewrite Forall_forall in IH |- *. rewrite forallb_forall in Hp.
    intros item Hi. specialize (Hp item Hi). apply andb_true_iff in Hp as [Hk Hv].
    split; [exact Hk|]. split; [exact Hv|].
    intros tail Htail Hlen. apply IH; [exact Hi | exact Hv | | exact Htail].
    unfold inner in Hlen. clear - Hd Hlen. lengths.
    cbn [fst snd] in *. unfold str, char in *. lia.
Qed.

(** [json.loads] reads back what [json.dumps] writes. *)
Lemma json_loads_dumps (w : nat) (v : value) :
  encodable v = true -> json_loads (json_dumps w v) = Ok v.
Proof.
  intros Hp. unfold json_loads, json_dumps.
  destruct (iterencode_head w 0 v Hp) as (c & t & Hv & Hc).
  assert (Hbom : starts_with [65279%N] (iterencode w 0 v) = false).
  { rewrite Hv. cbn [starts_with].
    now rewrite (N.eqb_sym 65279 c), (value_start_not c 65279%N Hc eq_refl). }
  assert (Hskip : skip_ws (iterencode w 0 v) = iterencode w 0 v).
  { pose proof (skip_ws_encoded w 0 v [] Hp) as H. now rewrite app_nil_r in H. }
  assert (Hscan : scan_once (S (length (iterencode w 0 v))) (iterencode w 0 v)
                  = Scanned v []).
  { pose proof (@scan_once_encoded v Hp w 0 (S (length (iterencode w 0 v))) []) as H.
    rewrite app_nil_r in H. apply H; [lia | reflexivity]. }
  now rewrite Hbom, Hskip, Hscan.
Qed.

(** *** Suites *)

Lemma encodable_strs (l : list str) :
  forallb encodable (map VStr l) = forallb (forallb scalar) l.
Proof. induction l as [|s l IH]; [reflexivity|]. cbn [map forallb encodable]. now rewrite IH. Qed.

Lemma encodable_dump_TestScenario (t : TestScenario) :
  encodable (dump_TestScenario t) = forallb (forallb scalar) (scenario_texts t).
Proof.
  unfold dump_TestScenario, scenario_texts.
  cbn [encodable forallb fst snd]. rewrite !encodable_strs.
  change (forallb scalar (lit "scenario_id")) with true.
  change (forallb scalar (lit "title")) with true.
  change (forallb scalar (lit "description")) with true.
  change (forallb scalar (lit "preconditions")) with true.
  change (forallb scalar (lit "test_steps")) with true.
  change (forallb scalar (lit "expected_result")) with true.
  change (forallb scalar (lit "test_type")) with true.
  change (forallb scalar (lit "priority")) with true.
  cbn [andb app forallb]. rewrite !forallb_app. cbn [forallb].
  now rewrite ?andb_true_r, ?andb_assoc.
Qed.

Lemma encodable_model_dump (t : TestSuite) :
  encodable (model_dump t) = scalar_suite t.
Proof.
  unfold model_dump, scalar_suite, suite_texts.
  cbn [encodable forallb fst snd]. rewrite encodable_strs.
  change (forallb scalar (lit "user_story")) with true.
  change (forallb scalar (lit "test_scenarios")) with true.
  change (forallb scalar (lit "coverage_areas")) with true.
  change (forallb scalar (lit "total_scenarios")) with true.
  cbn [andb]. rewrite forallb_app.
  assert (Hs : forallb encodable (map dump_TestScenario (test_scenarios t))
               = forallb (forallb scalar)
                   (flat_map scenario_texts (test_scenarios t))).
  { induction (test_scenarios t) as [|x l IH]; [reflexivity|].
    cbn [map forallb flat_map].
    now rewrite forallb_app, IH, encodable_dump_TestScenario. }
  now rewrite Hs, ?andb_true_r, ?andb_assoc.
Qed.

Lemma encodable_model_dumps (all_results : list TestSuite) :
  forallb scalar_suite all_results = true ->
  encodable (VList (map model_dump all_results)) = true.
Proof.
  cbn [encodable]. induction all_results as [|t l IH]; [reflexivity|].
  cbn [map forallb]. intros H. apply andb_true_iff in H as [Ht H].
  now rewrite encodable_model_dump, Ht, IH.
Qed.

(** X17.  The JSON output of [batch] reads back: for suites whose texts are
    made of characters that UTF-8 can encode, [json.loads] of the combined
    output is the list of the suites' dictionaries, in order, and each of
    them builds the suite it was dumped from. *)
Theorem batch_json_output_reads_back (all_results : list TestSuite) :
  forallb scalar_suite all_results = true ->
  json_loads (combined_output (lit "json") all_results)
  = Ok (VList (map model_dump all_results))
  /\ Forall2 (fun parsed_data suite =>
                (let* kwargs := unpack_kwargs "TestSuite" parsed_data in
                 TestSuite_new kwargs) = Ok suite)
       (map model_dump all_results) all_results.
Proof.
  intros H. split.
  - change (combined_output (lit "json") all_results)
      with (json_dumps 2 (VList (map model_dump all_results))).
    apply json_loads_dumps. now apply encodable_model_dumps.
  - clear H. induction all_results as [|t l IH]; cbn [map]; constructor;
      [apply TestSuite_new_dumped | exact IH].
Qed.

Lemma batch_json_output_reads_back_witness :
  json_loads (combined_output (lit "json") [emoji_suite; login_suite])
  = Ok (VList [model_dump emoji_suite; model_dump login_suite]).
Proof.
  destruct (@batch_json_output_reads_back [emoji_suite; login_suite] eq_refl)
    as [Hloads _].
  exact Hloads.
Defined.

(** *** The output is ASCII *)

Lemma hex_char_ascii (n : N) : (n < 16)%N -> (hex_char n < 128)%N.
Proof. intros H. unfold hex_char. destruct (N.ltb_spec n 10); lia. Qed.

Lemma hex4_ascii (n c : N) : (n < 65536)%N -> In c (hex4 n) -> (c < 128)%N.
Proof.
  intros Hn H. unfold hex4 in H. cbn [In] in H.
  destruct H as [<-|[<-|[<-|[<-|[]]]]]; apply hex_char_ascii;
    try (apply N.mod_upper_bound; lia).
  apply N.Div0.div_lt_upper_bound. lia.
Qed.

Lemma encode_char_ascii_ascii (x c : char) :
  scalar x = true -> In c (encode_char_ascii x) -> (c < 128)%N.
Proof.
  intros Hx. apply scalar_cases in Hx. unfold encode_char_ascii.
  destruct (x =? 34)%N; [cbn [In]; intros [<-|[<-|[]]]; lia|].
  destruct (x =? 92)%N; [cbn [In]; intros [<-|[<-|[]]]; lia|].
  destruct ((32 <=? x) && (x <=? 126))%N eqn:Hprint.
  { apply andb_true_iff in Hprint as [_ Hhi]. apply N.leb_le in Hhi.
    cbn [In]. intros [<-|[]]. lia. }
  destruct (x =? 8)%N; [cbn [In]; intros [<-|[<-|[]]]; lia|].
  destruct (x =? 12)%N; [cbn [In]; intros [<-|[<-|[]]]; lia|].
  destruct (x =? 10)%N; [cbn [In]; intros [<-|[<-|[]]]; lia|].
  destruct (x =? 13)%N; [cbn [In]; intros [<-|[<-|[]]]; lia|].
  destruct (x =? 9)%N; [cbn [In]; intros [<-|[<-|[]]]; lia|].
  destruct (N.ltb_spec x 65536) as [Hlt|Hge].
  - cbn [app In]. intros [<-|[<-|H]]; try lia. now apply (hex4_ascii Hlt).
  - assert (Hn : (x - 65536 < 1048576)%N) by lia.
    destruct (surrogates_of Hn) as [-> ->].
    assert (Hq : ((x - 65536) / 1024 < 1024)%N)
      by (apply N.Div0.div_lt_upper_bound; lia).
    assert (Hr : ((x - 65536) mod 1024 < 1024)%N)
      by (apply N.mod_upper_bound; lia).
    cbv zeta. intros H.
    repeat (apply in_app_or in H; destruct H as [H|H]).
    + cbn [In] in H. destruct H as [<-|[<-|[]]]; lia.
    + apply (hex4_ascii (n := 55296 + (x - 65536) / 1024)); [lia | exact H].
    + cbn [In] in H. destruct H as [<-|[<-|[]]]; lia.
    + apply (hex4_ascii (n := 56320 + (x - 65536) mod 1024)); [lia | exact H].
Qed.

Lemma encode_basestring_ascii_ascii (s : str) (c : char) :
  forallb scalar s = true -> In c (encode_basestring_ascii s) -> (c < 128)%N.
Proof.
  intros Hs H. unfold encode_basestring_ascii in H.
  repeat (apply in_app_or in H; destruct H as [H|H]).
  - cbn [In] in H. destruct H as [<-|[]]. lia.
  - apply in_flat_map in H as (x & Hx & H). rewrite forallb_forall in Hs.
    exact (@encode_char_ascii_ascii x c (Hs x Hx) H).
  - cbn [In] in H. destruct H as [<-|[]]. lia.
Qed.

Lemma str_of_Z_ascii (z : Z) (c : char) : In c (str_of_Z z) -> (c < 128)%N.
Proof.
  assert (Hd : forall n, In c (digits n) -> (c < 128)%N).
  { intros n H. pose proof (digits_all_digits n) as Hall.
    rewrite forallb_forall in Hall. specialize (Hall c H).
    apply is_digit_range in Hall. lia. }
  destruct z; cbn [str_of_Z]; try apply Hd.
  cbn [In]. intros [<-|H]; [lia | exact (Hd (N.pos p) H)].
Qed.

Lemma spaces_ascii (n : nat) (c : char) : In c (times 32%N n) -> (c < 128)%N.
Proof. intros H. apply repeat_spec in H. subst c. lia. Qed.

Lemma iterencode_ascii (v : value) :
  encodable v = true ->
  forall w level c, In c (iterencode w level v) -> (c < 128)%N.
Proof.
  induction v as [ | b | z | x | s | l IH | items IH] using value_ind;
    intros Hp w level c H.
  - cbn in H. repeat (destruct H as [<-|H]; [lia|]). destruct H.
  - destruct b; cbn in H; repeat (destruct H as [<-|H]; [lia|]); destruct H.
  - exact (@str_of_Z_ascii z c H).
  - discriminate.
  - exact (@encode_basestring_ascii_ascii s c Hp H).
  - cbn [encodable] in Hp. rewrite forallb_forall in Hp. rewrite Forall_forall in IH.
    destruct l as [|x l]; cbn [iterencode] in H.
    + cbn in H. repeat (destruct H as [<-|H]; [lia|]). destruct H.
    + split_in H;
        try (apply in_concat in H as (chunk & Hchunk & H);
             apply in_map_iff in Hchunk as (y & <- & Hy); split_in H);
        first [ exact (spaces_ascii _ _ H)
              | exact (IH x (or_introl eq_refl) (Hp x (or_introl eq_refl)) _ _ _ H)
              | exact (IH y (or_intror Hy) (Hp y (or_intror Hy)) _ _ _ H)
              | cbn in H; repeat (destruct H as [<-|H]; [lia|]); destruct H ].
  - cbn [encodable] in Hp. rewrite forallb_forall in Hp. rewrite Forall_forall in IH.
    assert (Hitem : forall item, In item items ->
               forallb scalar (fst item) = true /\ encodable (snd item) = true).
    { intros item Hi. specialize (Hp item Hi). now apply andb_true_iff in Hp. }
    destruct items as [|[k x] items]; cbn [iterencode] in H.
    + cbn in H. repeat (destruct H as [<-|H]; [lia|]). destruct H.
    + destruct (Hitem (k, x) (or_introl eq_refl)) as [Hk Hx]. cbn [fst snd] in Hk, Hx.
      split_in H;
        try (apply in_concat in H as (chunk & Hchunk & H);
             apply in_map_iff in Hchunk as (item & <- & Hi);
             destruct (Hitem item (or_intror Hi)) as [Hk' Hx']; split_in H);
        first [ exact (spaces_ascii _ _ H)
              | exact (@encode_basestring_ascii_ascii k c Hk H)
              | exact (@encode_basestring_ascii_ascii (fst item) c Hk' H)
              | exact (IH (k, x) (or_introl eq_refl) Hx _ _ _ H)
              | exact (IH item (or_intror Hi) Hx' _ _ _ H)
              | cbn in H; repeat (destruct H as [<-|H]; [lia|]); destruct H ].
Qed.

(** X18.  The JSON output of [batch] is plain ASCII, whatever characters
    the suites hold (of those UTF-8 can encode): [json.dumps] escapes the
    others.  The ["json"] rendering of [format_output] is not: it writes
    such characters as they are. *)
Theorem batch_json_output_is_ascii (all_results : list TestSuite) :
  forallb scalar_suite all_results = true ->
  ascii_only (combined_output (lit "json") all_results) = true
  /\ ascii_only (format_output emoji_suite (lit "json")) = false.
Proof.
  intros H. split; [|vm_compute; reflexivity].
  change (combined_output (lit "json") all_results)
    with (json_dumps 2 (VList (map model_dump all_results))).
  unfold ascii_only, json_dumps. apply forallb_forall. intros c Hc.
  apply N.ltb_lt.
  exact (iterencode_ascii _ (encodable_model_dumps _ H) _ _ _ Hc).
Qed.

Lemma batch_json_output_is_ascii_witness :
  ascii_only (combined_output (lit "json") [emoji_suite]) = true
  /\ ascii_only (format_output emoji_suite (lit "json")) = false.
Proof.
  exact (@batch_json_output_is_ascii [emoji_suite] eq_refl).
Defined.

(** ** Which inputs the validation accepts *)





(** ** What the fence search takes for the block *)

Lemma rmatch_close (s g : str) :
  rmatch (map RLit fence_close) s g
  = if starts_with fence_close s then Some g else None.
Proof.
  rewrite <- (app_nil_r (map RLit fence_close)), rmatch_lits.
  now destruct (starts_with fence_close s).
Qed.

(** Whether the end of the pattern matches does not depend on the group. *)
Lemma closing_closes (s g : str) :
  closing s g = if closes s then Some g else None.
Proof.
  unfold closes, closing. induction s as [|x s IH]; cbn [spaces_then].
  - rewrite !rmatch_close. now destruct (starts_with fence_close []).
  - destruct (is_space x).
    + rewrite IH.
      destruct (spaces_then (fun s' => rmatch (map RLit fence_close) s' []) s);
        [reflexivity|].
      rewrite !rmatch_close. now destruct (starts_with fence_close (x :: s)).
    + rewrite !rmatch_close. now destruct (starts_with fence_close (x :: s)).
Qed.

Lemma closes_fence (rest : str) : closes (fence_close ++ rest) = true.
Proof.
  unfold closes, closing. rewrite fence_close_chars. cbn [app spaces_then].
  change (is_space 96%N) with false. cbv iota.
  rewrite rmatch_close, fence_close_chars. cbn [starts_with].
  now rewrite !N.eqb_refl.
Qed.

Lemma closes_space (w : char) (rest : str) :
  is_space w = true -> closes rest = true -> closes (w :: rest) = true.
Proof.
  unfold closes, closing. intros Hw H. cbn [spaces_then]. rewrite Hw.
  now destruct (spaces_then (fun s' => rmatch (map RLit fence_close) s' []) rest).
Qed.

Lemma closes_after_space (w : char) (rest : str) :
  is_space w = true -> closes (w :: rest) = closes rest.
Proof.
  unfold closes, closing. intros Hw. cbn [spaces_then]. rewrite Hw.
  destruct (spaces_then (fun s' => rmatch (map RLit fence_close) s' []) rest);
    [reflexivity|].
  rewrite rmatch_close, fence_close_chars. cbn [starts_with].
  destruct (N.eqb_spec 96 w) as [<-|]; [discriminate Hw | reflexivity].
Qed.

(** The lazy group stops at the first place where the end of the pattern
    matches. *)
Lemma lazy_then_first (s : str) :
  forall taken g,
    lazy_then closing s taken = Some g ->
    exists consumed rest,
      s = consumed ++ rest
      /\ g = rev taken ++ consumed
      /\ closes rest = true
      /\ forall a b, consumed = a ++ b -> b <> [] -> closes (b ++ rest) = false.
Proof.
  induction s as [|x s IH]; intros taken g; cbn [lazy_then];
    rewrite closing_closes.
  - destruct (closes []) eqn:Hc; [|discriminate].
    intros [= <-]. exists [], [].
    split; [reflexivity|]. split; [now rewrite app_nil_r|]. split; [exact Hc|].
    intros a b E Hb. now destruct a, b.
  - destruct (closes (x :: s)) eqn:Hc.
    + intros [= <-]. exists [], (x :: s).
      split; [reflexivity|]. split; [now rewrite app_nil_r|]. split; [exact Hc|].
      intros a b E Hb. now destruct a, b.
    + intros H. destruct (IH _ _ H) as (consumed & rest & -> & -> & Hrest & Hmin).
      exists (x :: consumed), rest. cbn [rev]. rewrite <- app_assoc.
      split; [reflexivity|]. split; [reflexivity|]. split; [exact Hrest|].
      intros a b E Hb. destruct a as [|y a]; cbn [app] in E.
      * subst b. exact Hc.
      * injection E as <- E. now apply (Hmin a b).
Qed.

Lemma lazy_then_none (s : str) :
  forall taken taken',
    lazy_then closing s taken = None -> lazy_then closing s taken' = None.
Proof.
  induction s as [|x s IH]; intros taken taken'; cbn [lazy_then];
    rewrite !closing_closes.
  - now destruct (closes []).
  - destruct (closes (x :: s)); [discriminate|]. apply IH.
Qed.

Lemma lazy_then_closes (s : str) (taken : str) :
  lazy_then closing s taken = None -> closes s = false.
Proof.
  destruct s as [|x s]; cbn [lazy_then]; rewrite closing_closes.
  - now destruct (closes []).
  - now destruct (closes (x :: s)).
Qed.

Lemma spaces_then_none (rest : str -> option str) (s : str) :
  spaces_then rest s = None -> rest s = None.
Proof.
  destruct s as [|x s]; cbn [spaces_then]; [trivial|].
  destruct (is_space x); [|trivial].
  now destruct (spaces_then rest s).
Qed.

(** After the blanks that follow the opening fence, the group does not
    start with a blank. *)
Lemma spaces_then_lazy_head (s g : str) :
  spaces_then (fun s' => lazy_then closing s' []) s = Some g ->
  no_space_ahead g = true
  /\ exists ws consumed rest,
       s = ws ++ consumed ++ rest /\ g = consumed /\ closes rest = true
       /\ forall a b, consumed = a ++ b -> b <> [] -> closes (b ++ rest) = false.
Proof.
  induction s as [|x s IH]; cbn [spaces_then]; intros H.
  - apply lazy_then_first in H as (consumed & rest & E & -> & Hrest & Hmin).
    symmetry in E. apply app_eq_nil in E as [-> ->].
    split; [reflexivity|]. now exists [], [], [].
  - assert (Hhere : lazy_then closing (x :: s) [] = Some g ->
                    is_space x = false ->
                    no_space_ahead g = true
                    /\ exists ws consumed rest,
                         x :: s = ws ++ consumed ++ rest /\ g = consumed
                         /\ closes rest = true
                         /\ forall a b, consumed = a ++ b -> b <> [] ->
                                        closes (b ++ rest) = false).
    { intros Hl Hx.
      apply lazy_then_first in Hl as (consumed & rest & E & -> & Hrest & Hmin).
      cbn [rev app]. split.
      - destruct consumed as [|c consumed]; [reflexivity|].
        cbn [app] in E. injection E as <- _. cbn [no_space_ahead]. now rewrite Hx.
      - now exists [], consumed, rest. }
    destruct (is_space x) eqn:Hx; [|now apply Hhere].
    destruct (spaces_then (fun s' => lazy_then closing s' []) s) as [g'|] eqn:Hs.
    + injection H as <-.
      destruct (IH eq_refl) as (Hg & ws & consumed & rest & -> & -> & Hrest & Hmin).
      split; [exact Hg|]. now exists (x :: ws), consumed, rest.
    + exfalso. apply spaces_then_none in Hs.
      cbn [lazy_then] in H. rewrite closing_closes in H.
      rewrite (@closes_after_space x s Hx), (@lazy_then_closes s [] Hs) in H.
      now rewrite (@lazy_then_none s [] [x] Hs) in H.
Qed.

Lemma contains_split (p s : str) :
  contains p s = true -> exists a b, s = a ++ p ++ b.
Proof.
  induction s as [|x s IH]; cbn [contains]; intros H.
  - rewrite orb_false_r in H. apply starts_with_split in H. now exists [], (skipn (length p) []).
  - apply orb_true_iff in H as [H|H].
    + apply starts_with_split in H. now exists [], (skipn (length p) (x :: s)).
    + destruct (IH H) as (a & b & ->). now exists (x :: a), b.
Qed.

Lemma re_search_at (p : list re_item) (text g : str) :
  re_search p text = Some g ->
  exists pre s, text = pre ++ s /\ rmatch p s [] = Some g.
Proof.
  induction text as [|x text IH]; cbn [re_search]; intros H.
  - destruct (rmatch p [] []) as [g'|] eqn:Hm; [|discriminate].
    injection H as ->. now exists [], [].
  - destruct (rmatch p (x :: text) []) as [g'|] eqn:Hm.
    + injection H as ->. now exists [], (x :: text).
    + destruct (IH H) as (pre & s & -> & Hs). now exists (x :: pre), s.
Qed.

(** X20.  What the fence search takes for the block is trimmed and stops
    at the first closing fence: the text handed to the decoder holds no
    three backticks in a row, does not start with whitespace, and does not
    end with whitespace.  It lies between an opening fence with the [json]
    tag and the first closing fence after it, blanks apart. *)
Theorem extracted_block_is_trimmed (response_text group1 : str) :
  re_search fence_pattern response_text = Some group1 ->
  extracted_json response_text = group1
  /\ contains fence_close group1 = false
  /\ no_space_ahead group1 = true
  /\ (group1 = [] \/ is_space (last group1 0%N) = false)
  /\ exists pre ws1 ws2 post,
       response_text
       = pre ++ fence_open ++ ws1 ++ group1 ++ ws2 ++ fence_close ++ post
       /\ forallb is_space ws1 = true /\ forallb is_space ws2 = true.
Proof.
  intros H. split; [unfold extracted_json; now rewrite H|].
  assert (Hfound := re_search_found _ H).
  apply re_search_at in H as (pre & s & -> & H).
  unfold fence_pattern in H. rewrite rmatch_lits in H.
  destruct (starts_with fence_open s); [|discriminate].
  cbn [app rmatch] in H.
  change (fun (s' : str) (g : str) =>
            spaces_then (fun s'0 => rmatch (map RLit fence_close) s'0 g) s')
    with closing in H.
  apply spaces_then_lazy_head in H
    as (Hhead & ws & consumed & rest & _ & -> & Hrest & Hmin).
  split; [|split; [exact Hhead|split; [|exact Hfound]]].
  - destruct (contains fence_close consumed) eqn:Hc; [|reflexivity].
    apply contains_split in Hc as (a & b & E).
    assert (Hb : fence_close ++ b <> []) by (rewrite fence_close_chars; discriminate).
    pose proof (Hmin a (fence_close ++ b) E Hb) as Hno.
    now rewrite <- app_assoc, closes_fence in Hno.
  - clear Hhead Hfound.
    destruct consumed as [|c consumed _] using rev_ind; [now left|]. right.
    rewrite last_last.
    destruct (is_space c) eqn:Hc; [|reflexivity].
    pose proof (Hmin consumed [c] eq_refl ltac:(discriminate)) as Hno.
    cbn [app] in Hno. now rewrite (@closes_space c rest Hc Hrest) in Hno.
Qed.

Lemma extracted_block_is_trimmed_witness :
  re_search fence_pattern airy_reply = Some plain_suite_json
  /\ extracted_json airy_reply = plain_suite_json
  /\ contains fence_close plain_suite_json = false.
Proof.
  assert (H : re_search fence_pattern airy_reply = Some plain_suite_json)
    by (vm_compute; reflexivity).
  split; [exact H|].
  destruct (@extracted_block_is_trimmed airy_reply plain_suite_json H)
    as (He & Hc & _).
  split; [exact He | exact Hc].
Defined.
